(** * efiboots: the efibootmgr parser and the boot store

    A shallow embedding of [efiboots.py]: the line parser
    ([efibootmgr_regex], [parse_efibootmgr_line], [parse_efibootmgr]), the
    parameter decoder ([try_decode_efibootmgr]), the editable store
    ([EFIStore]) with its command planner ([__str__]), and the split of
    the ESP device into disk and partition ([device_to_disk_part]) with
    the findmnt detection method that calls it.

    Conventions of the embedding.
    - A Python [str] is the list of its code points ([N]); [lit] turns an
      ASCII literal into such a list. A tab is [TAB], a newline [NL].
    - Exceptions are values of [exn]; a function that may raise returns a
      [result], and a store method returns the store as the exception left
      it, since Python does not undo the mutations made before a raise.
    - [logging] calls at warning level are recorded as [event]s, with the
      format string and its lazy arguments kept apart as [logging] does;
      debug and info messages are left out.
    - The dialogs are the presentation layer and are not modelled; the
      rows of the [Gtk.ListStore] are a list of [Row]s addressed by
      position. The timeout spin button is modelled by the value it
      shows, since [refresh] sets it and its value_changed signal calls
      [change_timeout].
    - [decode('utf-16')] without a byte order mark uses the byte order of
      the host, taken to be little endian.
    - [int()] is modelled on ASCII text; the decimal digits Unicode has
      outside ASCII are not recognised. *)

From Stdlib Require Import String Ascii DecimalString DecimalPos.
From Stdlib Require Import List NArith ZArith Bool Arith Lia Permutation Sorted.
Import ListNotations.

Open Scope string_scope.
Open Scope list_scope.

(** ** Python strings *)

Module Py.

Definition char := N.
Definition str := list char.

Definition lit (s : string) : str := map N_of_ascii (list_ascii_of_string s).

Definition TAB : char := 9%N.
Definition NL : char := 10%N.

Fixpoint str_eqb (a b : str) : bool :=
  match a, b with
  | [], [] => true
  | x :: a', y :: b' => N.eqb x y && str_eqb a' b'
  | _, _ => false
  end.

Fixpoint list_eqb (a b : list str) : bool :=
  match a, b with
  | [], [] => true
  | x :: a', y :: b' => str_eqb x y && list_eqb a' b'
  | _, _ => false
  end.

(** [x == y] on [Optional[str]] values. *)
Definition opt_eqb (a b : option str) : bool :=
  match a, b with
  | None, None => true
  | Some x, Some y => str_eqb x y
  | _, _ => false
  end.

Definition optZ_eqb (a b : option Z) : bool :=
  match a, b with
  | None, None => true
  | Some x, Some y => Z.eqb x y
  | _, _ => false
  end.

(** [c in s] for a one-character [c]. *)
Definition contains (c : char) (s : str) : bool := existsb (N.eqb c) s.

(** [s.count(c)] for a one-character [c]. *)
Fixpoint count (c : char) (s : str) : nat :=
  match s with
  | [] => 0
  | x :: s' => (if N.eqb x c then 1 else 0) + count c s'
  end.

(** [x in l] for a list of strings. *)
Definition mem (x : str) (l : list str) : bool := existsb (str_eqb x) l.

Fixpoint startswith (s p : str) : bool :=
  match p, s with
  | [], _ => true
  | y :: p', x :: s' => N.eqb x y && startswith s' p'
  | _ :: _, [] => false
  end.

Definition endswith (s p : str) : bool := startswith (rev s) (rev p).

(** [s.split(sep)] for a one-character separator. *)
Fixpoint split (sep : char) (s : str) : list str :=
  match s with
  | [] => [[]]
  | c :: s' =>
      if N.eqb c sep then [] :: split sep s'
      else match split sep s' with
           | w :: ws => (c :: w) :: ws
           | [] => [[c]]
           end
  end.

(** [str.isspace] on one code point. *)
Definition isspace (c : char) : bool :=
  ((9 <=? c) && (c <=? 13) || (28 <=? c) && (c <=? 32) ||
   (c =? 133) || (c =? 160) || (c =? 5760) ||
   (8192 <=? c) && (c <=? 8202) || (c =? 8232) || (c =? 8233) ||
   (c =? 8239) || (c =? 8287) || (c =? 12288))%N.

Fixpoint lstrip (s : str) : str :=
  match s with
  | c :: s' => if isspace c then lstrip s' else s
  | [] => []
  end.

Definition rstrip (s : str) : str := rev (lstrip (rev s)).
Definition strip (s : str) : str := rstrip (lstrip s).

(** [s.split()]: the maximal runs of non-blank characters. *)
Fixpoint split_ws (acc : str) (s : str) : list str :=
  match s with
  | [] => match acc with [] => [] | _ => [rev acc] end
  | c :: s' =>
      if isspace c
      then match acc with [] => split_ws [] s' | _ => rev acc :: split_ws [] s' end
      else split_ws (c :: acc) s'
  end.

(** [sep.join(l)]. *)
Fixpoint join (sep : str) (l : list str) : str :=
  match l with
  | [] => []
  | [x] => x
  | x :: l' => x ++ sep ++ join sep l'
  end.

(** [str(z)] for an [int]. *)
Definition str_of_int (z : Z) : str := lit (NilZero.string_of_int (Z.to_int z)).

Definition isdigit (c : char) : bool := ((48 <=? c) && (c <=? 57))%N.

(** The digits of an [int()] literal: digits with single underscores
    between them, read most significant first. *)
Fixpoint digits (acc : Z) (prev_digit : bool) (s : str) : option Z :=
  match s with
  | [] => if prev_digit then Some acc else None
  | c :: s' =>
      if isdigit c then digits (10 * acc + Z.of_N (c - 48)) true s'
      else if (c =? 95)%N && prev_digit
           then match s' with
                | d :: _ => if isdigit d then digits acc false s' else None
                | [] => None
                end
           else None
  end.

(** [int(s)]; [None] stands for the [ValueError] of an invalid literal. *)
Definition int (s : str) : option Z :=
  match strip s with
  | 43%N :: r => digits 0 false r
  | 45%N :: r => option_map Z.opp (digits 0 false r)
  | r => digits 0 false r
  end.

End Py.

Import Py.

(** ** Exceptions and logging *)

(** A lazy argument of a [logging] call or of an exception. *)
Inductive arg :=
| AStr (s : str)          (* a string, shown with %s *)
| ARepr (s : str)         (* repr(s) *)
| ADecodeError            (* the UnicodeDecodeError bound to e *)
| AInvalidLiteral (s : str).  (* int()'s message for the literal s *)

Inductive event :=
| Warning (logger : string) (fmt : string) (args : list arg).

(** The exceptions that can leave the functions modelled here.
    [UnicodeEncodeError] is a subclass of [ValueError]; its [args] are
    (encoding, object, start, end, reason). *)
Inductive exn :=
| ValueError (args : list arg)
| UnicodeEncodeError (object : str)
| IndexError
| TypeError
| AssertionError
| OverflowError.

Inductive result (A : Type) :=
| Ok (a : A)
| Raise (e : exn).
Arguments Ok {A} a.
Arguments Raise {A} e.

(** A computation that logs and may raise. *)
Definition M (A : Type) : Type := (result A * list event)%type.

Definition ret {A} (a : A) : M A := (Ok a, []).
Definition raise {A} (e : exn) : M A := (Raise e, []).
Definition warn (logger fmt : string) (args : list arg) : M unit :=
  (Ok tt, [Warning logger fmt args]).

Definition bind {A B} (c : M A) (k : A -> M B) : M B :=
  match c with
  | (Ok a, log) => let (r, log') := k a in (r, log ++ log')
  | (Raise e, log) => (Raise e, log)
  end.

Notation "'let!' x ':=' c 'in' k" := (bind c (fun x => k))
  (at level 10, x pattern, c at level 100, k at level 200).

(** [try: c except handled: h]; [h] answers [None] for an exception the
    clause does not catch. *)
Definition try_except {A} (c : M A) (h : exn -> option (M A)) : M A :=
  match c with
  | (Ok a, log) => (Ok a, log)
  | (Raise e, log) =>
      match h e with
      | Some c' => let (r, log') := c' in (r, log ++ log')
      | None => (Raise e, log)
      end
  end.

(** ** Codecs *)

Module Codec.

Local Open Scope N_scope.

(** [chr(c).encode('utf-8')]; surrogates cannot be encoded. *)
Definition utf8_encode_char (c : char) : option (list N) :=
  if c <? 128 then Some [c]
  else if c <? 2048 then
    Some [N.lor 192 (N.shiftr c 6); N.lor 128 (N.land c 63)]
  else if c <? 65536 then
    if (55296 <=? c) && (c <=? 57343) then None
    else Some [N.lor 224 (N.shiftr c 12);
               N.lor 128 (N.land (N.shiftr c 6) 63);
               N.lor 128 (N.land c 63)]
  else if c <? 1114112 then
    Some [N.lor 240 (N.shiftr c 18);
          N.lor 128 (N.land (N.shiftr c 12) 63);
          N.lor 128 (N.land (N.shiftr c 6) 63);
          N.lor 128 (N.land c 63)]
  else None.

(** [bytearray(s, 'utf-8')]; [None] is [UnicodeEncodeError]. *)
Fixpoint utf8_encode (s : str) : option (list N) :=
  match s with
  | [] => Some []
  | c :: s' =>
      match utf8_encode_char c, utf8_encode s' with
      | Some b, Some bs => Some (b ++ bs)
      | _, _ => None
      end
  end.

(** The 16-bit units of a byte string; an odd length is truncated data. *)
Fixpoint units_le (bs : list N) : option (list N) :=
  match bs with
  | [] => Some []
  | [_] => None
  | lo :: hi :: r => option_map (cons (lo + 256 * hi)) (units_le r)
  end.

Fixpoint units_be (bs : list N) : option (list N) :=
  match bs with
  | [] => Some []
  | [_] => None
  | hi :: lo :: r => option_map (cons (lo + 256 * hi)) (units_be r)
  end.

Definition is_high (u : N) : bool := (55296 <=? u) && (u <? 56320).
Definition is_low (u : N) : bool := (56320 <=? u) && (u <? 57344).

(** Code units to code points: a surrogate pair is combined, a lone
    surrogate is an error. *)
Fixpoint scalars (us : list N) : option str :=
  match us with
  | [] => Some []
  | u :: r =>
      if is_high u then
        match r with
        | v :: r' =>
            if is_low v
            then option_map (cons (65536 + 1024 * (u - 55296) + (v - 56320)))
                            (scalars r')
            else None
        | [] => None
        end
      else if is_low u then None
      else option_map (cons u) (scalars r)
  end.

Definition bind_opt {A B} (o : option A) (f : A -> option B) : option B :=
  match o with Some a => f a | None => None end.

(** [bs.decode('utf-16')]; [None] is [UnicodeDecodeError]. A byte order
    mark, when present, is consumed and selects the byte order. *)
Definition utf16_decode (bs : list N) : option str :=
  match bs with
  | b0 :: b1 :: r =>
      if (b0 =? 255) && (b1 =? 254) then bind_opt (units_le r) scalars
      else if (b0 =? 254) && (b1 =? 255) then bind_opt (units_be r) scalars
      else bind_opt (units_le bs) scalars
  | _ => bind_opt (units_le bs) scalars
  end.

End Codec.

(** ** The parameter decoder *)

Definition DOT : char := 46%N.
Definition WINDOWS : str := lit "WINDOWS".

(** The loop over [enumerate(code_bytes)], started at index [i]. *)
Fixpoint zero_odd_dots (i : nat) (code_bytes : list N) : list N :=
  match code_bytes with
  | [] => []
  | byte :: r =>
      (if Nat.odd i && N.eqb byte DOT then 0%N else byte) :: zero_odd_dots (S i) r
  end.

(** The [try] block of [try_decode_efibootmgr]. *)
Definition decode_utf16_block (code : str) : M str :=
  match Codec.utf8_encode code with
  | None => raise (UnicodeEncodeError code)
  | Some code_bytes =>
      match Codec.utf16_decode (zero_odd_dots 0 code_bytes) with
      | Some decoded => ret decoded
      | None =>
          let! _ := warn "root" "Could not decode '%s': %s" [AStr code; ADecodeError] in
          ret code
      end
  end.

(** [try_decode_efibootmgr], the recursion on the text after a WINDOWS
    prefix bounded by [fuel]. *)
Fixpoint try_decode_fuel (fuel : nat) (code : str) : M str :=
  if negb (contains DOT code) then ret code
  else if endswith code [DOT] && Nat.eqb (count DOT code) 1 then ret code
  else if startswith code WINDOWS then
    match fuel with
    | O => raise AssertionError
    | S fuel' =>
        let! rest := try_decode_fuel fuel' (skipn (length WINDOWS) code) in
        ret (WINDOWS ++ rest)
    end
  else decode_utf16_block code.

Definition try_decode_efibootmgr (code : str) : M str :=
  try_decode_fuel (length code) code.

(** ** Regular expressions

    The fragment of [re] the program uses, matched as [re] does: by
    backtracking, a greedy quantifier trying its longest run first and an
    alternation its left branch first. *)

Module Re.

Inductive regex :=
| Eps
| Chr (c : char)               (* a literal character *)
| Cls (p : char -> bool)       (* one character of a class *)
| Star (p : char -> bool)      (* p*, greedy *)
| Plus (p : char -> bool)      (* p+, greedy *)
| Seq (r1 r2 : regex)
| Alt (r1 r2 : regex)
| Opt (r : regex)              (* r?, greedy *)
| Grp (n : nat) (r : regex)    (* capturing group number n *)
| Bol                          (* ^ *)
| Eol.                         (* $ *)

Fixpoint Lit (s : str) : regex :=
  match s with
  | [] => Eps
  | [c] => Chr c
  | c :: s' => Seq (Chr c) (Lit s')
  end.

(** [.] without DOTALL. *)
Definition dot (c : char) : bool := negb (N.eqb c NL).

(** [[0-9A-F]]. *)
Definition hex (c : char) : bool :=
  ((48 <=? c) && (c <=? 57) || (65 <=? c) && (c <=? 70))%N.

Definition groups := nat -> option str.
Definition no_groups : groups := fun _ => None.
Definition set_group (n : nat) (w : str) (g : groups) : groups :=
  fun m => if Nat.eqb m n then Some w else g m.

Section Matcher.

Variable subject : str.
Variable A : Type.

Fixpoint star (p : char -> bool) (s : str) (k : str -> option A) : option A :=
  match s with
  | c :: s' =>
      if p c
      then match star p s' k with
           | Some a => Some a
           | None => k s
           end
      else k s
  | [] => k s
  end.

(** [run r s g k]: match [r] at the front of the remaining text [s] under
    the groups [g], then hand what is left to [k]; [None] makes the caller
    backtrack. *)
Fixpoint run (r : regex) (s : str) (g : groups)
    (k : str -> groups -> option A) : option A :=
  match r with
  | Eps => k s g
  | Chr c =>
      match s with
      | x :: s' => if N.eqb x c then k s' g else None
      | [] => None
      end
  | Cls p =>
      match s with
      | x :: s' => if p x then k s' g else None
      | [] => None
      end
  | Star p => star p s (fun s' => k s' g)
  | Plus p =>
      match s with
      | x :: s' => if p x then star p s' (fun s'' => k s'' g) else None
      | [] => None
      end
  | Seq r1 r2 => run r1 s g (fun s1 g1 => run r2 s1 g1 k)
  | Alt r1 r2 =>
      match run r1 s g k with
      | Some a => Some a
      | None => run r2 s g k
      end
  | Opt r1 =>
      match run r1 s g k with
      | Some a => Some a
      | None => k s g
      end
  | Grp n r1 =>
      run r1 s g
        (fun s' g' => k s' (set_group n (firstn (length s - length s') s) g'))
  | Bol => if Nat.eqb (length s) (length subject) then k s g else None
  | Eol =>
      match s with
      | [] => k s g
      | [c] => if N.eqb c NL then k s g else None
      | _ => None
      end
  end.

End Matcher.

Arguments star {A} p s k.
Arguments run subject {A} r s g k.

(** [r.match(subject)]: anchored at the start, the groups of the first
    match found. *)
Definition re_match (r : regex) (subject : str) : option groups :=
  run subject r subject no_groups (fun _ g => Some g).

End Re.

Import Re.

Notation "r1 >> r2" := (Seq r1 r2) (at level 61, right associativity).

(** The pattern of an entry line: ^Boot, group 1 = [0-9A-F]+, group 2 = an
    optional asterisk, a space, group 3 = .+ and a tab; then either .+
    followed by /File( with group 4 = .+ and a closing parenthesis, or .*
    followed by a closing parenthesis; then group 5 = .* and $. *)
Definition efibootmgr_regex : regex :=
  Bol >> Lit (lit "Boot") >> Grp 1 (Plus hex) >> Opt (Grp 2 (Chr 42%N)) >>
  Chr 32%N >> Grp 3 (Plus dot) >> Chr TAB >>
  Alt (Plus dot >> Lit (lit "/File(") >> Grp 4 (Plus dot) >> Chr 41%N)
      (Star dot >> Chr 41%N) >>
  Grp 5 (Star dot) >> Eol.

(** ** The line parser *)

(** The dict built for an entry line. *)
Record entry := {
  num : str;
  active : bool;
  name : str;
  path : str;
  parameters : str
}.

(** The (key, value) pair [parse_efibootmgr_line] returns. *)
Inductive parsed_line :=
| Entry (parsed : entry)            (* 'entry' *)
| BootOrder (parsed : list str)     (* 'boot_order' *)
| BootNext (parsed : str)           (* 'boot_next' *)
| BootCurrent (parsed : str)        (* 'boot_current' *)
| Timeout (parsed : Z).             (* 'timeout' *)

(** Truth value of [match.group(n)]. *)
Definition truthy (o : option str) : bool :=
  match o with
  | Some (_ :: _) => true
  | _ => false
  end.

Definition is_some {A} (o : option A) : bool :=
  match o with Some _ => true | None => false end.

(** [line.split(':')[1]]. *)
Definition after_colon (line : str) : M str :=
  match nth_error (split 58%N line) 1 with
  | Some v => ret v
  | None => raise IndexError
  end.

(** The branches of [parse_efibootmgr_line] after the entry pattern. *)
Definition parse_keyed_line (line : str) : M parsed_line :=
  if startswith line (lit "BootOrder") then
    let! v := after_colon line in
    ret (BootOrder (split 44%N (strip v)))
  else if startswith line (lit "BootNext") then
    let! v := after_colon line in
    ret (BootNext (strip v))
  else if startswith line (lit "BootCurrent") then
    let! v := after_colon line in
    ret (BootCurrent (strip v))
  else if startswith line (lit "Timeout") then
    let! v := after_colon line in
    match split_ws [] v with
    | [] => raise IndexError
    | tok :: _ =>
        match int (strip tok) with
        | Some parsed => ret (Timeout parsed)
        | None => raise (ValueError [AInvalidLiteral (strip tok)])
        end
    end
  else raise (ValueError [AStr (lit "line didn't match"); ARepr line]).

Definition parse_efibootmgr_line (line : str) : M parsed_line :=
  match re_match efibootmgr_regex line with
  | Some g =>
      if truthy (g 1) && truthy (g 3) then
        match g 1, g 3, g 5 with
        | Some num, Some name, Some params =>
            let! params := try_decode_efibootmgr params in
            ret (Entry {| num := num; active := is_some (g 2); name := name;
                          path := match g 4 with
                                  | Some (c :: p) => c :: p
                                  | _ => []
                                  end;
                          parameters := params |})
        | _, _, _ => raise TypeError
        end
      else parse_keyed_line line
  | None => parse_keyed_line line
  end.

(** ** The snapshot builder *)

(** The dict [parsed_efi]. *)
Record parsed_efi := {
  p_entries : list entry;
  p_boot_order : list str;
  p_boot_next : option str;
  p_boot_current : option str;
  p_timeout : option Z
}.

Definition parsed_efi_init : parsed_efi :=
  {| p_entries := []; p_boot_order := []; p_boot_next := None;
     p_boot_current := None; p_timeout := None |}.

(** The body of the [try] block once the line is parsed. *)
Definition store_line (d : parsed_efi) (kv : parsed_line) : parsed_efi :=
  match kv with
  | Entry value =>
      {| p_entries := p_entries d ++ [value]; p_boot_order := p_boot_order d;
         p_boot_next := p_boot_next d; p_boot_current := p_boot_current d;
         p_timeout := p_timeout d |}
  | BootOrder value =>
      {| p_entries := p_entries d; p_boot_order := value;
         p_boot_next := p_boot_next d; p_boot_current := p_boot_current d;
         p_timeout := p_timeout d |}
  | BootNext value =>
      {| p_entries := p_entries d; p_boot_order := p_boot_order d;
         p_boot_next := Some value; p_boot_current := p_boot_current d;
         p_timeout := p_timeout d |}
  | BootCurrent value =>
      {| p_entries := p_entries d; p_boot_order := p_boot_order d;
         p_boot_next := p_boot_next d; p_boot_current := Some value;
         p_timeout := p_timeout d |}
  | Timeout value =>
      {| p_entries := p_entries d; p_boot_order := p_boot_order d;
         p_boot_next := p_boot_next d; p_boot_current := p_boot_current d;
         p_timeout := Some value |}
  end.

(** [except ValueError as e: parser_logger.warning(..., e.args[1])]. *)
Definition on_value_error (d : parsed_efi) (e : exn) : option (M parsed_efi) :=
  match e with
  | ValueError args =>
      Some match nth_error args 1 with
           | Some a =>
               let! _ := warn "parser" "line didn't match: %s" [a] in ret d
           | None => raise IndexError
           end
  | UnicodeEncodeError object =>
      Some (let! _ := warn "parser" "line didn't match: %s" [AStr object] in
            ret d)
  | _ => None
  end.

Fixpoint parse_lines (boot : list str) (d : parsed_efi) : M parsed_efi :=
  match boot with
  | [] => ret d
  | line :: boot' =>
      let! d' := try_except
                   (let! kv := parse_efibootmgr_line line in ret (store_line d kv))
                   (on_value_error d) in
      parse_lines boot' d'
  end.

Definition parse_efibootmgr (boot : list str) : M parsed_efi :=
  parse_lines boot parsed_efi_init.

(** ** The store *)

(** A row of the [Gtk.ListStore]; the fields are the columns ROW_*. *)
Record Row := {
  ROW_CURRENT : bool;
  ROW_NUM : str;
  ROW_NAME : str;
  ROW_PATH : str;
  ROW_PARAMETERS : str;
  ROW_ACTIVE : bool;
  ROW_NEXT : bool
}.

(** [self.boot_order] and [self.boot_order_initial] are names of list
    objects. [refresh] binds both names to one list, which [remove] then
    changes in place under both names; [clear] and [swap] bind
    [self.boot_order] to a list of its own. *)
Inductive order_refs :=
| Shared (l : list str)
| Separate (order initial : list str).

Record EFIStore := {
  esp : str;
  rows : list Row;
  orders : order_refs;
  boot_next : option str;
  boot_next_initial : option str;
  boot_active : list str;
  boot_inactive : list str;
  boot_add : list (str * str * str * str);
  boot_remove : list str;
  boot_current : option str;
  timeout : option Z;
  timeout_initial : option Z;
  timeout_spin : Z   (* the value of [self.window.timeout_spin] *)
}.

Definition boot_order (self : EFIStore) : list str :=
  match orders self with
  | Shared l => l
  | Separate order _ => order
  end.

Definition boot_order_initial (self : EFIStore) : list str :=
  match orders self with
  | Shared l => l
  | Separate _ initial => initial
  end.

Definition set_rows (v : list Row) (s : EFIStore) : EFIStore :=
  {| esp := esp s; rows := v; orders := orders s; boot_next := boot_next s;
     boot_next_initial := boot_next_initial s; boot_active := boot_active s;
     boot_inactive := boot_inactive s; boot_add := boot_add s;
     boot_remove := boot_remove s; boot_current := boot_current s;
     timeout := timeout s; timeout_initial := timeout_initial s;
     timeout_spin := timeout_spin s |}.

Definition set_orders (v : order_refs) (s : EFIStore) : EFIStore :=
  {| esp := esp s; rows := rows s; orders := v; boot_next := boot_next s;
     boot_next_initial := boot_next_initial s; boot_active := boot_active s;
     boot_inactive := boot_inactive s; boot_add := boot_add s;
     boot_remove := boot_remove s; boot_current := boot_current s;
     timeout := timeout s; timeout_initial := timeout_initial s;
     timeout_spin := timeout_spin s |}.

Definition set_boot_next (v : option str) (s : EFIStore) : EFIStore :=
  {| esp := esp s; rows := rows s; orders := orders s; boot_next := v;
     boot_next_initial := boot_next_initial s; boot_active := boot_active s;
     boot_inactive := boot_inactive s; boot_add := boot_add s;
     boot_remove := boot_remove s; boot_current := boot_current s;
     timeout := timeout s; timeout_initial := timeout_initial s;
     timeout_spin := timeout_spin s |}.

Definition set_boot_active (v : list str) (s : EFIStore) : EFIStore :=
  {| esp := esp s; rows := rows s; orders := orders s; boot_next := boot_next s;
     boot_next_initial := boot_next_initial s; boot_active := v;
     boot_inactive := boot_inactive s; boot_add := boot_add s;
     boot_remove := boot_remove s; boot_current := boot_current s;
     timeout := timeout s; timeout_initial := timeout_initial s;
     timeout_spin := timeout_spin s |}.

Definition set_boot_inactive (v : list str) (s : EFIStore) : EFIStore :=
  {| esp := esp s; rows := rows s; orders := orders s; boot_next := boot_next s;
     boot_next_initial := boot_next_initial s; boot_active := boot_active s;
     boot_inactive := v; boot_add := boot_add s;
     boot_remove := boot_remove s; boot_current := boot_current s;
     timeout := timeout s; timeout_initial := timeout_initial s;
     timeout_spin := timeout_spin s |}.

Definition set_boot_add (v : list (str * str * str * str)) (s : EFIStore)
  : EFIStore :=
  {| esp := esp s; rows := rows s; orders := orders s; boot_next := boot_next s;
     boot_next_initial := boot_next_initial s; boot_active := boot_active s;
     boot_inactive := boot_inactive s; boot_add := v;
     boot_remove := boot_remove s; boot_current := boot_current s;
     timeout := timeout s; timeout_initial := timeout_initial s;
     timeout_spin := timeout_spin s |}.

Definition set_boot_remove (v : list str) (s : EFIStore) : EFIStore :=
  {| esp := esp s; rows := rows s; orders := orders s; boot_next := boot_next s;
     boot_next_initial := boot_next_initial s; boot_active := boot_active s;
     boot_inactive := boot_inactive s; boot_add := boot_add s;
     boot_remove := v; boot_current := boot_current s;
     timeout := timeout s; timeout_initial := timeout_initial s;
     timeout_spin := timeout_spin s |}.

Definition set_timeout (v : option Z) (s : EFIStore) : EFIStore :=
  {| esp := esp s; rows := rows s; orders := orders s; boot_next := boot_next s;
     boot_next_initial := boot_next_initial s; boot_active := boot_active s;
     boot_inactive := boot_inactive s; boot_add := boot_add s;
     boot_remove := boot_remove s; boot_current := boot_current s;
     timeout := v; timeout_initial := timeout_initial s;
     timeout_spin := timeout_spin s |}.

(** What a method leaves behind: the store as mutated so far, the
    exception that ended the call if any, and the warnings logged. *)
Record effect := {
  after : EFIStore;
  raised : option exn;
  logged : list event
}.

Definition done (s : EFIStore) : effect :=
  {| after := s; raised := None; logged := [] |}.

(** *** Lists in place *)

(** [l.remove(x)]: the first occurrence goes; [None] is [ValueError]. *)
Fixpoint list_remove (x : str) (l : list str) : option (list str) :=
  match l with
  | [] => None
  | y :: l' =>
      if str_eqb y x then Some l'
      else option_map (cons y) (list_remove x l')
  end.

(** [self.boot_order.remove(num)], on the list object itself. *)
Definition orders_remove (num : str) (o : order_refs) : option order_refs :=
  match o with
  | Shared l => option_map Shared (list_remove num l)
  | Separate order initial =>
      option_map (fun order' => Separate order' initial) (list_remove num order)
  end.

Fixpoint update {A} (i : nat) (x : A) (l : list A) : list A :=
  match l, i with
  | [], _ => []
  | _ :: l', O => x :: l'
  | y :: l', S i' => y :: update i' x l'
  end.

Fixpoint delete {A} (i : nat) (l : list A) : list A :=
  match l, i with
  | [], _ => []
  | _ :: l', O => l'
  | y :: l', S i' => y :: delete i' l'
  end.

(** *** clear, index_num, reorder *)

Definition clear (self : EFIStore) : EFIStore :=
  {| esp := esp self; rows := []; orders := Separate [] [];
     boot_next := None; boot_next_initial := None;
     boot_active := []; boot_inactive := []; boot_add := [];
     boot_remove := []; boot_current := None;
     timeout := None; timeout_initial := None;
     timeout_spin := timeout_spin self |}.

(** [__init__]: a new store for the partition [esp], cleared. The window
    creates the spin button after the store, with
    [Gtk.SpinButton.new_with_range(0, 999, 1)], which shows 0. *)
Definition __init__ (esp : str) : EFIStore :=
  clear {| esp := esp; rows := []; orders := Separate [] [];
           boot_next := None; boot_next_initial := None;
           boot_active := []; boot_inactive := []; boot_add := [];
           boot_remove := []; boot_current := None;
           timeout := None; timeout_initial := None;
           timeout_spin := 0 |}.

(** [index_num]: the position of the first row with this number. *)
Fixpoint index_num (rs : list Row) (num : str) : option nat :=
  match rs with
  | [] => None
  | row :: rs' =>
      if str_eqb (ROW_NUM row) num then Some 0
      else option_map S (index_num rs' num)
  end.

(** The first loop of [reorder], over [self.boot_order]. *)
Fixpoint reorder_known (rs : list Row) (order : list str) (new_order : list nat)
  : list nat * list event :=
  match order with
  | [] => (new_order, [])
  | bootnum :: order' =>
      match index_num rs bootnum with
      | None =>
          let (o, log) := reorder_known rs order' new_order in
          (o, Warning "reorder" "%s is in BootOrder, but it's not in the list"
                [AStr bootnum] :: log)
      | Some index => reorder_known rs order' (new_order ++ [index])
      end
  end.

(** The second loop, over [enumerate(self)] from position [i]. *)
Fixpoint reorder_missing (i : nat) (rs : list Row) (new_order : list nat)
  : list nat * list event :=
  match rs with
  | [] => (new_order, [])
  | row :: rs' =>
      if existsb (Nat.eqb i) new_order then reorder_missing (S i) rs' new_order
      else
        let (o, log) := reorder_missing (S i) rs' (new_order ++ [i]) in
        (o, Warning "reorder" "%s is not in BootOrder, appending to the list"
              [AStr (ROW_NUM row)] :: log)
  end.

(** [Gtk.ListStore.reorder]: the row at new position [p] is the row that
    was at [new_order[p]]. *)
Definition permute (rs : list Row) (new_order : list nat) : list Row :=
  flat_map (fun i => match nth_error rs i with Some r => [r] | None => [] end)
           new_order.

Definition reorder (self : EFIStore) : effect :=
  let (known, log1) := reorder_known (rows self) (boot_order self) [] in
  let (new_order, log2) := reorder_missing 0 (rows self) known in
  if Nat.eqb (length new_order) (length (rows self))
  then {| after := set_rows (permute (rows self) new_order) self;
          raised := None; logged := log1 ++ log2 |}
  else {| after := self; raised := Some AssertionError; logged := log1 ++ log2 |}.

(** *** refresh *)

(** What [run_efibootmgr] produced: the lines of the output, or one of
    the two exceptions [refresh] handles. *)
Inductive efibootmgr_run :=
| Lines (boot : list str)
| CalledProcessError
| UnicodeDecodeError.

Definition row_of_entry (d : parsed_efi) (e : entry) : Row :=
  {| ROW_CURRENT := opt_eqb (Some (num e)) (p_boot_current d);
     ROW_NUM := num e;
     ROW_NAME := name e;
     ROW_PATH := path e;
     ROW_PARAMETERS := parameters e;
     ROW_ACTIVE := active e;
     ROW_NEXT := opt_eqb (Some (num e)) (p_boot_next d) |}.

(** The store once [refresh] has copied [parsed_efi] into it. *)
Definition load (self : EFIStore) (d : parsed_efi) : EFIStore :=
  {| esp := esp self;
     rows := map (row_of_entry d) (p_entries d);
     orders := Shared (p_boot_order d);
     boot_next := p_boot_next d; boot_next_initial := p_boot_next d;
     boot_active := []; boot_inactive := []; boot_add := [];
     boot_remove := []; boot_current := p_boot_current d;
     timeout := p_timeout d; timeout_initial := p_timeout d;
     timeout_spin := timeout_spin self |}.

(** [change_timeout], the handler of the value_changed signal of the spin
    button; [v] is the value read from the button,
    [timeout_spin.get_value_as_int()]. *)
Definition change_timeout (self : EFIStore) (v : Z) : EFIStore :=
  set_timeout (Some v) self.

Definition set_timeout_spin (v : Z) (s : EFIStore) : EFIStore :=
  {| esp := esp s; rows := rows s; orders := orders s; boot_next := boot_next s;
     boot_next_initial := boot_next_initial s; boot_active := boot_active s;
     boot_inactive := boot_inactive s; boot_add := boot_add s;
     boot_remove := boot_remove s; boot_current := boot_current s;
     timeout := timeout s; timeout_initial := timeout_initial s;
     timeout_spin := v |}.

(** The first integer too large for a double: [float(v)] raises
    [OverflowError] from there on, in either direction. *)
Definition float_overflow : Z := (2 ^ 1024 - 2 ^ 970)%Z.

(** The button keeps its value within its range, 0 to 999. *)
Definition spin_clamp (v : Z) : Z := Z.max 0 (Z.min v 999).

(** [self.window.timeout_spin.set_value(v)] for a number [v] a double can
    hold: the button takes the value, kept within its range, and when
    that changes what it shows it emits value_changed, to which
    [change_timeout] is connected. *)
Definition timeout_spin_set_value (v : Z) (self : EFIStore) : EFIStore :=
  let shown := spin_clamp v in
  if Z.eqb shown (timeout_spin self) then self
  else change_timeout (set_timeout_spin shown self) shown.

(** [refresh]. Both handlers of a failed run build their message as
    [str + e], which raises [TypeError]; an exception of the parser other
    than [ValueError] leaves through [refresh] as well. Once the
    snapshot is copied, [set_value] is called on the spin button with
    the timeout: it raises [TypeError] when there is none and
    [OverflowError] when a double cannot hold it, before [reorder]
    runs. *)
Definition refresh (self : EFIStore) (run : efibootmgr_run) : effect :=
  let self := clear self in
  match run with
  | CalledProcessError | UnicodeDecodeError =>
      {| after := self; raised := Some TypeError; logged := [] |}
  | Lines boot =>
      match parse_efibootmgr boot with
      | (Raise e, log) => {| after := self; raised := Some e; logged := log |}
      | (Ok d, log) =>
          let self := load self d in
          match timeout self with
          | None => {| after := self; raised := Some TypeError; logged := log |}
          | Some v =>
              if Z.leb float_overflow (Z.abs v)
              then {| after := self; raised := Some OverflowError;
                      logged := log |}
              else
                let r := reorder (timeout_spin_set_value v self) in
                {| after := after r; raised := raised r;
                   logged := log ++ logged r |}
          end
      end
  end.

(** *** The edits *)

Definition set_ROW_NEXT (v : bool) (r : Row) : Row :=
  {| ROW_CURRENT := ROW_CURRENT r; ROW_NUM := ROW_NUM r; ROW_NAME := ROW_NAME r;
     ROW_PATH := ROW_PATH r; ROW_PARAMETERS := ROW_PARAMETERS r;
     ROW_ACTIVE := ROW_ACTIVE r; ROW_NEXT := v |}.

Definition set_ROW_ACTIVE (v : bool) (r : Row) : Row :=
  {| ROW_CURRENT := ROW_CURRENT r; ROW_NUM := ROW_NUM r; ROW_NAME := ROW_NAME r;
     ROW_PATH := ROW_PATH r; ROW_PARAMETERS := ROW_PARAMETERS r;
     ROW_ACTIVE := v; ROW_NEXT := ROW_NEXT r |}.

(** The loop of [change_boot_next] from position [i]; [selected] is the
    position the tree path designates. *)
Fixpoint change_boot_next_loop (i selected : nat) (rs : list Row)
    (next : option str) : list Row * option str :=
  match rs with
  | [] => ([], next)
  | row :: rs' =>
      if Nat.eqb i selected then
        let row' := set_ROW_NEXT (negb (ROW_NEXT row)) row in
        let next' := if ROW_NEXT row' then Some (ROW_NUM row') else None in
        let (rs'', n) := change_boot_next_loop (S i) selected rs' next' in
        (row' :: rs'', n)
      else
        let (rs'', n) := change_boot_next_loop (S i) selected rs' next in
        (set_ROW_NEXT false row :: rs'', n)
  end.

Definition change_boot_next (self : EFIStore) (selected : nat) : EFIStore :=
  let (rs, next) :=
    change_boot_next_loop 0 selected (rows self) (boot_next self) in
  set_boot_next next (set_rows rs self).

(** [l.remove(x)] guarded by [x in l]. *)
Definition list_discard (x : str) (l : list str) : list str :=
  match list_remove x l with
  | Some l' => l'
  | None => l
  end.

(** The body of [change_active] for the selected row, on the two lists. *)
Definition toggle_lists (row' : Row) (act inact : list str)
  : list str * list str :=
  let num := ROW_NUM row' in
  if ROW_ACTIVE row' then
    if mem num inact then (act, list_discard num inact)
    else (act ++ [num], inact)
  else
    if mem num act then (list_discard num act, inact)
    else (act, inact ++ [num]).

Fixpoint change_active_loop (i selected : nat) (rs : list Row)
    (act inact : list str) : list Row * (list str * list str) :=
  match rs with
  | [] => ([], (act, inact))
  | row :: rs' =>
      if Nat.eqb i selected then
        let row' := set_ROW_ACTIVE (negb (ROW_ACTIVE row)) row in
        let (act', inact') := toggle_lists row' act inact in
        let (rs'', l) := change_active_loop (S i) selected rs' act' inact' in
        (row' :: rs'', l)
      else
        let (rs'', l) := change_active_loop (S i) selected rs' act inact in
        (row :: rs'', l)
  end.

Definition change_active (self : EFIStore) (selected : nat) : EFIStore :=
  match change_active_loop 0 selected (rows self)
          (boot_active self) (boot_inactive self) with
  | (rs, (act, inact)) =>
      set_boot_inactive inact (set_boot_active act (set_rows rs self))
  end.

(** ["NEW{:d}".format(n)]. *)
Definition new_num (n : nat) : str := lit "NEW" ++ str_of_int (Z.of_nat n).

Definition add (self : EFIStore) (label path parameters : str) : EFIStore :=
  let new_num := new_num (length (boot_add self)) in
  let row := {| ROW_CURRENT := false; ROW_NUM := new_num; ROW_NAME := label;
                ROW_PATH := path; ROW_PARAMETERS := parameters;
                ROW_ACTIVE := true; ROW_NEXT := false |} in
  set_boot_add (boot_add self ++ [(new_num, label, path, parameters)])
    (set_rows (row :: rows self) self).

(** The loop of [remove] over the rows [rs] still to visit: every row
    carrying [num] stages one removal and takes [num] out of the boot
    order. The store is returned as it stands when [list.remove] raises. *)
Fixpoint remove_loop (num : str) (rs : list Row) (self : EFIStore) : effect :=
  match rs with
  | [] => done self
  | row :: rs' =>
      if str_eqb (ROW_NUM row) num then
        let self := set_boot_remove (boot_remove self ++ [num]) self in
        match orders_remove num (orders self) with
        | Some o => remove_loop num rs' (set_orders o self)
        | None =>
            {| after := self;
               raised := Some (ValueError
                                 [AStr (lit "list.remove(x): x not in list")]);
               logged := [] |}
        end
      else remove_loop num rs' self
  end.

(** [remove(row_index, row_iter)]; the iterator designates the row at
    [row_index]. A position without a row cannot be selected and leaves
    the store as it is. *)
Definition remove (self : EFIStore) (row_index : nat) : effect :=
  match nth_error (rows self) row_index with
  | None => done self
  | Some row =>
      let num := ROW_NUM row in
      if startswith num (lit "NEW") then
        let kept :=
          filter (fun entry => negb (str_eqb (fst (fst (fst entry))) num))
                 (boot_add self) in
        let self := set_boot_add kept self in
        done (set_rows (delete row_index (rows self)) self)
      else
        let r := remove_loop num (rows self) self in
        match raised r with
        | Some _ => r
        | None => done (set_rows (delete row_index (rows (after r))) (after r))
        end
  end.

(** [Gtk.ListStore.swap] on two positions. *)
Definition swap_rows (a b : nat) (rs : list Row) : list Row :=
  match nth_error rs a, nth_error rs b with
  | Some ra, Some rb => update b ra (update a rb rs)
  | _, _ => rs
  end.

(** [swap]: the rows are exchanged, then [self.boot_order] is bound to
    a new list read off the rows. *)
Definition swap (self : EFIStore) (a b : nat) : EFIStore :=
  let rs := swap_rows a b (rows self) in
  set_orders (Separate (map ROW_NUM rs) (boot_order_initial self))
             (set_rows rs self).

(** *** pending_changes and the command script *)

Definition nonempty {A} (l : list A) : bool :=
  match l with [] => false | _ => true end.

(** The truth value of what [pending_changes] returns. *)
Definition pending_changes (self : EFIStore) : bool :=
  negb (opt_eqb (boot_next_initial self) (boot_next self)) ||
  negb (list_eqb (boot_order_initial self) (boot_order self)) ||
  nonempty (boot_add self) ||
  nonempty (boot_remove self) || nonempty (boot_active self) ||
  nonempty (boot_inactive self) ||
  negb (optZ_eqb (timeout self) (timeout_initial self)).

(** An [Optional[int]] inside an f-string. *)
Definition format_timeout (t : option Z) : str :=
  match t with
  | Some z => str_of_int z
  | None => lit "None"
  end.

Definition Q : char := 39%N.

(** [__str__]: the script is accumulated in [str]. *)
Definition __str__ (self : EFIStore) : str :=
  let esp := esp self in
  let str := [] in
  let str :=
    fold_left (fun str entry =>
      str ++ lit "efibootmgr " ++ esp ++ lit " --delete-bootnum --bootnum " ++
      entry ++ [NL]) (boot_remove self) str in
  let str :=
    fold_left (fun str '(_, label, loader, params) =>
      str ++ lit "efibootmgr " ++ esp ++ lit " --create --label " ++
      Q :: label ++ Q :: lit " --loader " ++ Q :: loader ++
      Q :: lit " --unicode " ++ Q :: params ++ [Q; NL]) (boot_add self) str in
  let str :=
    if negb (list_eqb (boot_order self) (boot_order_initial self))
    then str ++ lit "efibootmgr " ++ esp ++ lit " --bootorder " ++
         join (lit ",") (boot_order self) ++ [NL]
    else str in
  let str :=
    if negb (opt_eqb (boot_next_initial self) (boot_next self))
    then match boot_next self with
         | None => str ++ lit "efibootmgr " ++ esp ++ lit " --delete-bootnext" ++ [NL]
         | Some next =>
             str ++ lit "efibootmgr " ++ esp ++ lit " --bootnext " ++ next ++ [NL]
         end
    else str in
  let str :=
    fold_left (fun str entry =>
      str ++ lit "efibootmgr " ++ esp ++ lit " --bootnum " ++ entry ++
      lit " --active" ++ [NL]) (boot_active self) str in
  let str :=
    fold_left (fun str entry =>
      str ++ lit "efibootmgr " ++ esp ++ lit " --bootnum " ++ entry ++
      lit " --inactive" ++ [NL]) (boot_inactive self) str in
  let str :=
    if negb (optZ_eqb (timeout self) (timeout_initial self))
    then str ++ lit "efibootmgr " ++ esp ++ lit " --timeout " ++
         format_timeout (timeout self) ++ [NL]
    else str in
  str.

(** *** apply_changes *)

(** How the [pkexec] run ended: exit status zero, or the
    [CalledProcessError] of [check=True]. *)
Inductive pkexec_run :=
| Succeeded
| Failed.

(** [apply_changes]: [refreshed] tells whether [self.refresh()] was
    called, [script] is the text handed to [sh -c]. On failure the
    handler only shows an error dialog. *)
Record applied := {
  script : str;
  refreshed : bool;
  outcome : effect
}.

Definition apply_changes (self : EFIStore) (pkexec : pkexec_run)
    (run : efibootmgr_run) : applied :=
  match pkexec with
  | Succeeded =>
      {| script := __str__ self; refreshed := true;
         outcome := refresh self run |}
  | Failed =>
      {| script := __str__ self; refreshed := false; outcome := done self |}
  end.

(** *** Moving the selected row

    [EFIWindow.up] and [EFIWindow.down]; [selection] is the position of
    the selected row, [None] when no row is selected. [iter_previous]
    finds nothing before the first row, [iter_next] nothing after the
    last one. *)
Definition up (self : EFIStore) (selection : option nat) : EFIStore :=
  match selection with
  | Some (S previous) => swap self (S previous) previous
  | _ => self
  end.

Definition down (self : EFIStore) (selection : option nat) : EFIStore :=
  match selection with
  | Some i =>
      if Nat.ltb (S i) (length (rows self)) then swap self i (S i) else self
  | None => self
  end.

(** ** The device of the ESP *)

(** [p*?]: the shortest run of the class first. *)
Fixpoint lazy_star {A} (p : char -> bool) (s : str) (k : str -> option A)
    : option A :=
  match k s with
  | Some a => Some a
  | None =>
      match s with
      | c :: s' => if p c then lazy_star p s' k else None
      | [] => None
      end
  end.

(** [[a-z/]] and [[0-9a-z]]. *)
Definition lower_or_slash (c : char) : bool :=
  ((97 <=? c) && (c <=? 122) || (c =? 47))%N.

Definition digit_or_lower (c : char) : bool :=
  (isdigit c || (97 <=? c) && (c <=? 122))%N.

(** The end of [device_regex] from the position [s2] where group 1
    stops: an optional p, group 2 = [0-9]+, and $; the answer is the pair
    of the two groups. *)
Definition partition_suffix (device s2 : str) : option (str * str) :=
  run device (Opt (Chr 112%N)) s2 no_groups (fun s3 _ =>
  run device (Plus isdigit >> Eol) s3 no_groups (fun s4 _ =>
    Some (firstn (length device - length s2) device,
          firstn (length s3 - length s4) s3))).

(** [device_regex.match(device).groups()], [None] when the pattern does
    not match: ^, group 1 = [a-z/]+ followed by a lazy [0-9a-z]*, then
    the end of the pattern. *)
Definition device_regex_groups (device : str) : option (str * str) :=
  run device (Bol >> Plus lower_or_slash) device no_groups (fun s1 _ =>
  lazy_star digit_or_lower s1 (partition_suffix device)).

(** [device_to_disk_part]; the [AttributeError] of [None.groups()]
    becomes a [ValueError]. *)
Definition device_to_disk_part (device : str) : M (str * str) :=
  match device_regex_groups device with
  | Some (disk, part) => ret (disk, part)
  | None => raise (ValueError [AStr (lit "Could not match device " ++ device)])
  end.

(** [l[::2]]. *)
Fixpoint every_other (l : list str) : list str :=
  match l with
  | a :: _ :: l' => a :: every_other l'
  | l' => l'
  end.

(** The loop of [auto_detect_esp_with_findmnt] over the pairs of source
    and file system type; the function returns [None] when it ends. *)
Fixpoint first_vfat (pairs : list (str * str)) : M (option (str * str)) :=
  match pairs with
  | [] => ret None
  | (source, fstype) :: pairs' =>
      if str_eqb fstype (lit "vfat")
      then let! r := device_to_disk_part source in ret (Some r)
      else first_vfat pairs'
  end.

(** [auto_detect_esp_with_findmnt] once findmnt has printed
    [findmnt_output]; a failing findmnt raises before any of this. *)
Definition auto_detect_esp_with_findmnt (findmnt_output : str)
    : M (option (str * str)) :=
  let splitted := split_ws [] (strip findmnt_output) in
  first_vfat (combine (every_other splitted) (every_other (tl splitted))).

(** ** Reference definitions

    The definitions below do not come from the program: they are the
    yardsticks its functions are compared with. *)

(** *** What a pattern matches

    [Matches subject r w s g g']: [r] can match the word [w] when the text
    [s] follows it, turning the groups [g] into [g']. This is the meaning
    of the pattern without any search order. *)
Inductive Matches (subject : str)
  : regex -> str -> str -> groups -> groups -> Prop :=
| M_Eps s g : Matches subject Eps [] s g g
| M_Chr c s g : Matches subject (Chr c) [c] s g g
| M_Cls (p : char -> bool) c s g :
    p c = true -> Matches subject (Cls p) [c] s g g
| M_Star (p : char -> bool) w s g :
    forallb p w = true -> Matches subject (Star p) w s g g
| M_Plus (p : char -> bool) c w s g :
    p c = true -> forallb p w = true -> Matches subject (Plus p) (c :: w) s g g
| M_Seq r1 r2 w1 w2 s g g1 g2 :
    Matches subject r1 w1 (w2 ++ s) g g1 ->
    Matches subject r2 w2 s g1 g2 ->
    Matches subject (Seq r1 r2) (w1 ++ w2) s g g2
| M_AltL r1 r2 w s g g' :
    Matches subject r1 w s g g' -> Matches subject (Alt r1 r2) w s g g'
| M_AltR r1 r2 w s g g' :
    Matches subject r2 w s g g' -> Matches subject (Alt r1 r2) w s g g'
| M_OptSome r w s g g' :
    Matches subject r w s g g' -> Matches subject (Opt r) w s g g'
| M_OptNone r s g : Matches subject (Opt r) [] s g g
| M_Grp n r w s g g' :
    Matches subject r w s g g' ->
    Matches subject (Grp n r) w s g (set_group n w g')
| M_Bol s g : length s = length subject -> Matches subject Bol [] s g g
| M_Eol s g : s = [] \/ s = [NL] -> Matches subject Eol [] s g g.

(** What the groups of a match of [efibootmgr_regex] say about the line:
    it splits into Boot, the number, the asterisk if any, a space, the
    name, a tab, the device path up to a closing parenthesis (after the
    File(...) fragment when group 4 took part), the parameters and
    possibly a final newline. *)
Definition entry_shape (line : str) (g : groups) : Prop :=
  exists numw starw namew devw parw tail : str,
    line = lit "Boot" ++ numw ++ starw ++ 32%N :: namew ++ TAB :: devw ++
           parw ++ tail /\
    g 1 = Some numw /\ numw <> [] /\ forallb hex numw = true /\
    (starw = [42%N] /\ g 2 = Some [42%N] \/ starw = [] /\ g 2 = None) /\
    g 3 = Some namew /\ namew <> [] /\ forallb dot namew = true /\
    ((exists pre pth : str,
         devw = pre ++ lit "/File(" ++ pth ++ [41%N] /\ g 4 = Some pth /\
         pth <> []) \/
     (exists pre : str, devw = pre ++ [41%N] /\ g 4 = None)) /\
    forallb dot devw = true /\
    g 5 = Some parw /\ forallb dot parw = true /\
    (tail = [] \/ tail = [NL]).



Definition ascii_only (s : str) : bool := forallb (fun c => (c <? 128)%N) s.

(** *** The rendering efibootmgr applies to UTF-16 text

    As the specification describes it: the text is serialised as UTF-16LE
    and the NUL high byte of every ASCII-range code unit is shown as a dot;
    each byte is then read as one character. *)
Definition utf16_units (c : char) : list N :=
  if (c <? 65536)%N then [c]
  else [(55296 + (c - 65536) / 1024)%N; (56320 + (c - 65536) mod 1024)%N].

Definition render_unit (u : N) : str :=
  [(u mod 256)%N; if (u <? 128)%N then DOT else (u / 256)%N].

Definition spec_encode (x : str) : str :=
  flat_map render_unit (flat_map utf16_units x).

(** *** The plan of the Command Planner

    The seven groups of command lines of the specification, in its
    order. *)
Inductive command :=
| CDelete (id : str)
| CCreate (label loader params : str)
| CBootOrder (ids : list str)
| CBootNext (id : str)
| CDeleteBootNext
| CActive (id : str)
| CInactive (id : str)
| CTimeout (seconds : option Z).

(** The group a command belongs to. *)
Definition rank (c : command) : nat :=
  match c with
  | CDelete _ => 1
  | CCreate _ _ _ => 2
  | CBootOrder _ => 3
  | CBootNext _ | CDeleteBootNext => 4
  | CActive _ => 5
  | CInactive _ => 6
  | CTimeout _ => 7
  end.

(** The baseline of the specification: the boot order, the next boot and
    the timeout of the snapshot as [refresh] loaded it. No edit is
    meant to change it. *)
Record baseline := {
  base_order : list str;
  base_next : option str;
  base_timeout : option Z
}.

(** The baseline of a store that has just been refreshed. *)
Definition baseline_of (loaded : EFIStore) : baseline :=
  {| base_order := boot_order loaded;
     base_next := boot_next_initial loaded;
     base_timeout := timeout_initial loaded |}.

(** What a store holds under the names of the baseline at a later time;
    [remove] changes the list behind [boot_order_initial] when it is the
    list behind [boot_order] too. *)
Definition stored_baseline (self : EFIStore) : baseline :=
  {| base_order := boot_order_initial self;
     base_next := boot_next_initial self;
     base_timeout := timeout_initial self |}.

(** The plan of the specification for a working state against a
    baseline. *)
Definition plan_against (b : baseline) (self : EFIStore) : list command :=
  map CDelete (boot_remove self) ++
  map (fun '(_, label, loader, params) => CCreate label loader params)
      (boot_add self) ++
  (if list_eqb (boot_order self) (base_order b) then []
   else [CBootOrder (boot_order self)]) ++
  (if opt_eqb (base_next b) (boot_next self) then []
   else match boot_next self with
        | Some id => [CBootNext id]
        | None => [CDeleteBootNext]
        end) ++
  map CActive (boot_active self) ++
  map CInactive (boot_inactive self) ++
  (if optZ_eqb (timeout self) (base_timeout b) then []
   else [CTimeout (timeout self)]).

(** The plan against what the store itself holds as its baseline. *)
Definition spec_plan (self : EFIStore) : list command :=
  map CDelete (boot_remove self) ++
  map (fun '(_, label, loader, params) => CCreate label loader params)
      (boot_add self) ++
  (if list_eqb (boot_order self) (boot_order_initial self) then []
   else [CBootOrder (boot_order self)]) ++
  (if opt_eqb (boot_next_initial self) (boot_next self) then []
   else match boot_next self with
        | Some id => [CBootNext id]
        | None => [CDeleteBootNext]
        end) ++
  map CActive (boot_active self) ++
  map CInactive (boot_inactive self) ++
  (if optZ_eqb (timeout self) (timeout_initial self) then []
   else [CTimeout (timeout self)]).

(** The text of one command line, newline included. *)
Definition render (esp : str) (c : command) : str :=
  lit "efibootmgr " ++ esp ++
  match c with
  | CDelete id => lit " --delete-bootnum --bootnum " ++ id ++ [NL]
  | CCreate label loader params =>
      lit " --create --label '" ++ label ++ lit "' --loader '" ++ loader ++
      lit "' --unicode '" ++ params ++ lit "'" ++ [NL]
  | CBootOrder ids => lit " --bootorder " ++ join (lit ",") ids ++ [NL]
  | CBootNext id => lit " --bootnext " ++ id ++ [NL]
  | CDeleteBootNext => lit " --delete-bootnext" ++ [NL]
  | CActive id => lit " --bootnum " ++ id ++ lit " --active" ++ [NL]
  | CInactive id => lit " --bootnum " ++ id ++ lit " --inactive" ++ [NL]
  | CTimeout t => lit " --timeout " ++ format_timeout t ++ [NL]
  end.

(** *** The reconciliation of the boot order

    As the specification words it: the positions of the entries the boot
    order names, in boot order, stale ids dropped; then the positions of
    the entries it does not name, in listing order. *)
Definition known_indices (rs : list Row) (order : list str) : list nat :=
  flat_map (fun bootnum => match index_num rs bootnum with
                           | Some i => [i]
                           | None => []
                           end) order.

Definition missing_indices (n : nat) (known : list nat) : list nat :=
  filter (fun i => negb (existsb (Nat.eqb i) known)) (seq 0 n).

Definition reconciled (rs : list Row) (order : list str) : list nat :=
  known_indices rs order ++ missing_indices (length rs) (known_indices rs order).

(** *** Sessions

    The edits a user can make, and the store after a sequence of them;
    [ETimeout v] is the user turning the spin button to [v]. A handler
    that raises leaves the store as the exception found it, and the
    session goes on. *)
Inductive edit :=
| ERefresh (run : efibootmgr_run)
| EAdd (label path parameters : str)
| ERemove (row_index : nat)
| EToggleActive (selected : nat)
| EToggleNext (selected : nat)
| ETimeout (v : Z)
| EUp (selection : option nat)
| EDown (selection : option nat)
| EApply (pkexec : pkexec_run) (run : efibootmgr_run).

Definition perform (self : EFIStore) (e : edit) : EFIStore :=
  match e with
  | ERefresh run => after (refresh self run)
  | EAdd label path parameters => add self label path parameters
  | ERemove row_index => after (remove self row_index)
  | EToggleActive selected => change_active self selected
  | EToggleNext selected => change_boot_next self selected
  | ETimeout v => timeout_spin_set_value v self
  | EUp selection => up self selection
  | EDown selection => down self selection
  | EApply pkexec run => after (outcome (apply_changes self pkexec run))
  end.

Definition session (esp : str) (edits : list edit) : EFIStore :=
  fold_left perform edits (__init__ esp).

(** No id is in both lists. *)
Definition disjoint (a b : list str) : Prop :=
  forall x : str, In x a -> In x b -> False.

(** *** Stores used in the examples *)


Definition sda1 : str := lit "--disk /dev/sda --part 1".

(** A line [Boot<num>* <name><TAB>HD(1)]. *)
Definition entry_line (num name : string) : str :=
  lit "Boot" ++ lit num ++ lit "* " ++ lit name ++ TAB :: lit "HD(1)".

(** *** Keyword lines *)


(** * Properties *)

(** ** Equality tests *)

Lemma str_eqb_eq (a b : str) : str_eqb a b = true <-> a = b.
Proof.
  revert b; induction a as [|x a IH]; intros [|y b]; simpl;
    try (split; congruence).
  rewrite andb_true_iff, N.eqb_eq, IH. split.
  - intros [-> ->]; reflexivity.
  - intros H; injection H; auto.
Qed.

Lemma str_eqb_refl (a : str) : str_eqb a a = true.
Proof. apply str_eqb_eq; reflexivity. Qed.

Lemma str_eqb_neq (a b : str) : str_eqb a b = false <-> a <> b.
Proof.
  rewrite <- str_eqb_eq. destruct (str_eqb a b); split; congruence.
Qed.

Lemma list_eqb_eq (a b : list str) : list_eqb a b = true <-> a = b.
Proof.
  revert b; induction a as [|x a IH]; intros [|y b]; simpl;
    try (split; congruence).
  rewrite andb_true_iff, str_eqb_eq, IH. split.
  - intros [-> ->]; reflexivity.
  - intros H; injection H; auto.
Qed.

Lemma list_eqb_refl (a : list str) : list_eqb a a = true.
Proof. apply list_eqb_eq; reflexivity. Qed.

Lemma opt_eqb_eq (a b : option str) : opt_eqb a b = true <-> a = b.
Proof.
  destruct a, b; simpl; try (split; congruence).
  rewrite str_eqb_eq; split; congruence.
Qed.

Lemma opt_eqb_refl (a : option str) : opt_eqb a a = true.
Proof. apply opt_eqb_eq; reflexivity. Qed.

Lemma optZ_eqb_eq (a b : option Z) : optZ_eqb a b = true <-> a = b.
Proof.
  destruct a, b; simpl; try (split; congruence).
  rewrite Z.eqb_eq; split; congruence.
Qed.

Lemma optZ_eqb_refl (a : option Z) : optZ_eqb a a = true.
Proof. apply optZ_eqb_eq; reflexivity. Qed.

Ltac eqb_refl :=
  rewrite ?str_eqb_refl, ?list_eqb_refl, ?opt_eqb_refl, ?optZ_eqb_refl.

(** ** The matcher against the meaning of patterns *)

Section MatcherFacts.

Variable subject : str.
Variable A : Type.

Lemma firstn_consumed (w s : str) :
  firstn (length (w ++ s) - length s) (w ++ s) = w.
Proof.
  rewrite length_app, Nat.add_sub.
  rewrite firstn_app, Nat.sub_diag, firstn_all. simpl. apply app_nil_r.
Qed.

(** Whatever [star] returns, its continuation returned it after a run of
    characters of the class. *)
Lemma star_sound (p : char -> bool) (s : str) (k : str -> option A) (a : A) :
  star p s k = Some a ->
  exists w s', s = w ++ s' /\ forallb p w = true /\ k s' = Some a.
Proof.
  induction s as [|c s IH]; simpl; intros H.
  - exists [], []; auto.
  - destruct (p c) eqn:Hp.
    + destruct (star p s k) eqn:Hs.
      * injection H as <-.
        destruct (IH eq_refl) as (w & s' & -> & Hw & Hk).
        exists (c :: w), s'; simpl; rewrite Hp, Hw; auto.
      * exists [], (c :: s); auto.
    + exists [], (c :: s); auto.
Qed.

(** [star] finds a result whenever some run of the class leads to one. *)
Lemma star_complete (p : char -> bool) (w s' : str) (k : str -> option A) :
  forallb p w = true -> k s' <> None -> star p (w ++ s') k <> None.
Proof.
  induction w as [|c w IH]; simpl; intros Hw Hk.
  - destruct s' as [|c s']; simpl; auto.
    destruct (p c); auto. destruct (star p s' k); congruence.
  - apply andb_true_iff in Hw as [Hc Hw]. rewrite Hc.
    specialize (IH Hw Hk). destruct (star p (w ++ s') k); congruence.
Qed.

Theorem run_sound (r : regex) :
  forall (s : str) (g : groups) (k : str -> groups -> option A) (a : A),
    run subject r s g k = Some a ->
    exists w s' g',
      s = w ++ s' /\ Matches subject r w s' g g' /\ k s' g' = Some a.
Proof.
  induction r as [ | c | p | p | p | r1 IH1 r2 IH2 | r1 IH1 r2 IH2 | r IH
                 | n r IH | | ]; simpl; intros s g k a H.
  - exists [], s, g; repeat split; auto; constructor.
  - destruct s as [|x s]; [discriminate|].
    destruct (N.eqb x c) eqn:E; [|discriminate].
    apply N.eqb_eq in E; subst x.
    exists [c], s, g; repeat split; auto; constructor.
  - destruct s as [|x s]; [discriminate|].
    destruct (p x) eqn:E; [|discriminate].
    exists [x], s, g; repeat split; auto; constructor; auto.
  - apply star_sound in H as (w & s' & -> & Hw & Hk).
    exists w, s', g; repeat split; auto; constructor; auto.
  - destruct s as [|x s]; [discriminate|].
    destruct (p x) eqn:E; [|discriminate].
    apply star_sound in H as (w & s' & -> & Hw & Hk).
    exists (x :: w), s', g; repeat split; auto; constructor; auto.
  - apply IH1 in H as (w1 & s1 & g1 & -> & M1 & H).
    apply IH2 in H as (w2 & s2 & g2 & -> & M2 & H).
    exists (w1 ++ w2), s2, g2; repeat split; auto.
    + apply app_assoc.
    + econstructor; eauto.
  - destruct (run subject r1 s g k) eqn:E.
    + injection H as ->. apply IH1 in E as (w & s' & g' & -> & M1 & Hk).
      exists w, s', g'; repeat split; auto. apply M_AltL; auto.
    + apply IH2 in H as (w & s' & g' & -> & M2 & Hk).
      exists w, s', g'; repeat split; auto. apply M_AltR; auto.
  - destruct (run subject r s g k) eqn:E.
    + injection H as ->. apply IH in E as (w & s' & g' & -> & M1 & Hk).
      exists w, s', g'; repeat split; auto. apply M_OptSome; auto.
    + exists [], s, g; repeat split; auto. apply M_OptNone.
  - apply IH in H as (w & s' & g' & -> & M1 & Hk).
    rewrite firstn_consumed in Hk.
    exists w, s', (set_group n w g'); repeat split; auto. constructor; auto.
  - destruct (Nat.eqb (length s) (length subject)) eqn:E; [|discriminate].
    apply Nat.eqb_eq in E.
    exists [], s, g; repeat split; auto; constructor; auto.
  - destruct s as [|c [|d s]].
    + exists [], [], g; repeat split; auto; constructor; auto.
    + destruct (N.eqb c NL) eqn:E; [|discriminate].
      apply N.eqb_eq in E; subst c.
      exists [], [NL], g; repeat split; auto; constructor; auto.
    + discriminate.
Qed.

Theorem run_complete (r : regex) (w s' : str) (g g' : groups) :
  Matches subject r w s' g g' ->
  forall k : str -> groups -> option A,
    k s' g' <> None -> run subject r (w ++ s') g k <> None.
Proof.
  induction 1 as [ s g | c s g | p c s g Hp | p w s g Hw | p c w s g Hp Hw
                 | r1 r2 w1 w2 s g g1 g2 _ IH1 _ IH2
                 | r1 r2 w s g g' _ IH | r1 r2 w s g g' _ IH
                 | r w s g g' _ IH | r s g | n r w s g g' _ IH
                 | s g Hs | s g Hs ]; simpl; intros k Hk; auto.
  - rewrite N.eqb_refl; auto.
  - rewrite Hp; auto.
  - apply star_complete; auto.
  - rewrite Hp. apply star_complete; auto.
  - rewrite <- app_assoc. apply IH1. apply IH2. auto.
  - specialize (IH k Hk). destruct (run subject r1 (w ++ s) g k); congruence.
  - specialize (IH k Hk). destruct (run subject r1 (w ++ s) g k); congruence.
  - specialize (IH k Hk). destruct (run subject r (w ++ s) g k); congruence.
  - destruct (run subject r s g k); congruence.
  - apply IH. rewrite firstn_consumed. auto.
  - rewrite Hs, Nat.eqb_refl; auto.
  - destruct Hs as [-> | ->]; simpl; auto.
Qed.

End MatcherFacts.

(** ** The entry pattern *)

Ltac inv H := inversion H; subst; clear H.

Section Inversions.

Variable subject : str.
Implicit Types (w s : str) (g : groups).

Lemma Chr_inv c w s g g' :
  Matches subject (Chr c) w s g g' -> w = [c] /\ g' = g.
Proof. intros H; inv H; auto. Qed.

Lemma Star_inv p w s g g' :
  Matches subject (Star p) w s g g' -> forallb p w = true /\ g' = g.
Proof. intros H; inv H; auto. Qed.

Lemma Plus_inv p w s g g' :
  Matches subject (Plus p) w s g g' ->
  w <> [] /\ forallb p w = true /\ g' = g.
Proof.
  intros H; inv H. repeat split; [discriminate|].
  simpl. apply andb_true_iff; auto.
Qed.

Lemma Seq_inv r1 r2 w s g g' :
  Matches subject (Seq r1 r2) w s g g' ->
  exists w1 w2 g1, w = w1 ++ w2 /\ Matches subject r1 w1 (w2 ++ s) g g1 /\
                   Matches subject r2 w2 s g1 g'.
Proof. intros H; inv H. eauto 7. Qed.

Lemma Alt_inv r1 r2 w s g g' :
  Matches subject (Alt r1 r2) w s g g' ->
  Matches subject r1 w s g g' \/ Matches subject r2 w s g g'.
Proof. intros H; inv H; auto. Qed.

Lemma Opt_inv r w s g g' :
  Matches subject (Opt r) w s g g' ->
  Matches subject r w s g g' \/ (w = [] /\ g' = g).
Proof. intros H; inv H; auto. Qed.

Lemma Grp_inv n r w s g g' :
  Matches subject (Grp n r) w s g g' ->
  exists g1, Matches subject r w s g g1 /\ g' = set_group n w g1.
Proof. intros H; inv H; eauto. Qed.

Lemma Eol_inv w s g g' :
  Matches subject Eol w s g g' -> w = [] /\ g' = g /\ (s = [] \/ s = [NL]).
Proof. intros H; inv H; auto. Qed.

Lemma Bol_inv w s g g' :
  Matches subject Bol w s g g' -> w = [] /\ g' = g.
Proof. intros H; inv H; auto. Qed.

Lemma Lit_inv (l w s : str) (g g' : groups) :
  Matches subject (Lit l) w s g g' -> w = l /\ g' = g.
Proof.
  revert w s g g'. induction l as [|c l IH]; intros w s g g' H.
  - inv H; auto.
  - destruct l as [|d l].
    + inv H; auto.
    + change (Lit (c :: d :: l)) with (Seq (Chr c) (Lit (d :: l))) in H.
      apply Seq_inv in H as (w1 & w2 & g1 & -> & H1 & H2).
      apply Chr_inv in H1 as [-> ->]. apply IH in H2 as [-> ->]. auto.
Qed.

Lemma Lit_intro (l s : str) (g : groups) : Matches subject (Lit l) l s g g.
Proof.
  induction l as [|c l IH] in s |- *.
  - constructor.
  - destruct l as [|d l].
    + constructor.
    + change (Lit (c :: d :: l)) with (Seq (Chr c) (Lit (d :: l))).
      change (c :: d :: l) with ([c] ++ d :: l).
      econstructor; [constructor | apply IH].
Qed.

End Inversions.

(** Every match of the entry pattern has the shape [entry_shape]. *)
Lemma Matches_entry_shape (line w s : str) (g' : groups) :
  Matches line efibootmgr_regex w s no_groups g' -> entry_shape (w ++ s) g'.
Proof.
  unfold efibootmgr_regex. intros H.
  apply Seq_inv in H as (w0 & wa & g0 & -> & H0 & H).
  apply Bol_inv in H0 as [-> ->].
  apply Seq_inv in H as (w0 & wb & g0 & -> & H0 & H).
  apply Lit_inv in H0 as [-> ->].
  apply Seq_inv in H as (w1 & wc & g1 & -> & H1 & H).
  apply Grp_inv in H1 as (? & H1 & ->). apply Plus_inv in H1 as (Hn1 & Hh1 & ->).
  apply Seq_inv in H as (w2 & wd & g2 & -> & H2 & H).
  apply Seq_inv in H as (w0 & we & g0 & -> & H0 & H).
  apply Chr_inv in H0 as [-> ->].
  apply Seq_inv in H as (w3 & wf & g3 & -> & H3 & H).
  apply Grp_inv in H3 as (? & H3 & ->). apply Plus_inv in H3 as (Hn3 & Hh3 & ->).
  apply Seq_inv in H as (w0 & wg & g0 & -> & H0 & H).
  apply Chr_inv in H0 as [-> ->].
  apply Seq_inv in H as (w4 & wh & g4 & -> & H4 & H).
  apply Seq_inv in H as (w5 & wi & g5 & -> & H5 & H).
  apply Grp_inv in H5 as (? & H5 & ->). apply Star_inv in H5 as (Hh5 & ->).
  apply Eol_inv in H as (-> & -> & He).
  assert (Hstar : (w2 = [42%N] /\ g2 2 = Some [42%N] \/ w2 = [] /\ g2 2 = None)
                  /\ g2 1 = Some w1 /\ g2 4 = None).
  { apply Opt_inv in H2 as [H2 | [-> ->]].
    - apply Grp_inv in H2 as (? & H2 & ->). apply Chr_inv in H2 as [-> ->].
      split; [left|]; auto.
    - split; [right|]; auto. }
  destruct Hstar as (Hstar & Hg1 & Hg4).
  assert (Hdev : ((exists pre pth : str,
                      w4 = pre ++ lit "/File(" ++ pth ++ [41%N] /\
                      g4 4 = Some pth /\ pth <> []) \/
                  (exists pre : str, w4 = pre ++ [41%N] /\ g4 4 = None)) /\
                 forallb dot w4 = true /\
                 g4 1 = Some w1 /\ g4 2 = g2 2 /\ g4 3 = Some w3).
  { apply Alt_inv in H4 as [H4 | H4].
    - apply Seq_inv in H4 as (pre & wj & g6 & -> & H6 & H4).
      apply Plus_inv in H6 as (_ & Hpre & ->).
      apply Seq_inv in H4 as (w0 & wk & g0 & -> & H0 & H4).
      apply Lit_inv in H0 as [-> ->].
      apply Seq_inv in H4 as (pth & wl & g7 & -> & H7 & H4).
      apply Grp_inv in H7 as (? & H7 & ->).
      apply Plus_inv in H7 as (Hnp & Hpth & ->).
      apply Chr_inv in H4 as [-> ->].
      split; [left; exists pre, pth; auto|].
      rewrite !forallb_app, Hpre, Hpth. auto.
    - apply Seq_inv in H4 as (pre & wj & g6 & -> & H6 & H4).
      apply Star_inv in H6 as (Hpre & ->). apply Chr_inv in H4 as [-> ->].
      split; [right; exists pre; auto|].
      rewrite !forallb_app, Hpre. auto. }
  destruct Hdev as (Hdev & Hd4 & G1 & G2 & G3).
  exists w1, w2, w3, w4, w5, s.
  rewrite !app_nil_r, <- !app_assoc. simpl.
  repeat split; auto.
  destruct Hstar as [[-> Hs] | [-> Hs]]; [left | right]; split; auto;
    unfold set_group; simpl; congruence.
Qed.

Lemma re_match_entry_shape (line : str) (g : groups) :
  re_match efibootmgr_regex line = Some g -> entry_shape line g.
Proof.
  unfold re_match. intros H.
  apply run_sound in H as (w & s & g' & -> & HM & Hk).
  injection Hk as <-. eapply Matches_entry_shape; eauto.
Qed.

(** ** The monad *)

Lemma bind_ret_l {A B} (a : A) (k : A -> M B) : bind (ret a) k = k a.
Proof. unfold bind, ret. destruct (k a); reflexivity. Qed.

Lemma bind_Ok_inv {A B} (c : M A) (k : A -> M B) (b : B) (log : list event) :
  bind c k = (Ok b, log) ->
  exists a log1 log2,
    c = (Ok a, log1) /\ k a = (Ok b, log2) /\ log = log1 ++ log2.
Proof.
  unfold bind. destruct c as [[a|e] log1]; [|discriminate].
  destruct (k a) as [r log2] eqn:E. intros H; injection H as -> <-.
  exists a, log1, log2; auto.
Qed.

(** ** The decoder *)

Lemma startswith_length (s p : str) :
  startswith s p = true -> length p <= length s.
Proof.
  revert s; induction p as [|y p IH]; intros [|x s]; simpl; intros H;
    try lia; try discriminate.
  apply andb_true_iff in H as [_ H]. apply IH in H. lia.
Qed.

Lemma try_decode_fuel_S (n : nat) (code : str) :
  try_decode_fuel (S n) code =
  if negb (contains DOT code) then ret code
  else if endswith code [DOT] && Nat.eqb (count DOT code) 1 then ret code
  else if startswith code WINDOWS then
    let! rest := try_decode_fuel n (skipn (length WINDOWS) code) in
    ret (WINDOWS ++ rest)
  else decode_utf16_block code.
Proof. reflexivity. Qed.

Lemma try_decode_fuel_irrelevant (n m : nat) :
  forall code : str,
    length code <= n -> length code <= m ->
    try_decode_fuel n code = try_decode_fuel m code.
Proof.
  revert m; induction n as [|n IH]; intros [|m] code Hn Hm; auto.
  - destruct code; [reflexivity | simpl in Hn; lia].
  - destruct code; [reflexivity | simpl in Hm; lia].
  - rewrite !try_decode_fuel_S.
    destruct (negb (contains DOT code)); auto.
    destruct (endswith code [DOT] && Nat.eqb (count DOT code) 1); auto.
    destruct (startswith code WINDOWS); auto.
    rewrite (IH m); auto; rewrite length_skipn; change (length WINDOWS) with 7; lia.
Qed.

(** The function satisfies the equation the source defines it by; the
    fuel never runs out. *)
Lemma try_decode_efibootmgr_eq (code : str) :
  try_decode_efibootmgr code =
  if negb (contains DOT code) then ret code
  else if endswith code [DOT] && Nat.eqb (count DOT code) 1 then ret code
  else if startswith code WINDOWS then
    let! rest := try_decode_efibootmgr (skipn (length WINDOWS) code) in
    ret (WINDOWS ++ rest)
  else decode_utf16_block code.
Proof.
  unfold try_decode_efibootmgr.
  destruct (length code) as [|n] eqn:Hlen.
  - apply length_zero_iff_nil in Hlen; subst code; reflexivity.
  - rewrite try_decode_fuel_S.
    destruct (negb (contains DOT code)); auto.
    destruct (endswith code [DOT] && Nat.eqb (count DOT code) 1); auto.
    destruct (startswith code WINDOWS) eqn:Hw; auto.
    rewrite (try_decode_fuel_irrelevant n
               (length (skipn (length WINDOWS) code))); auto.
    rewrite length_skipn, Hlen; change (length WINDOWS) with 7; lia.
Qed.

Lemma try_decode_no_dot (code : str) :
  contains DOT code = false -> try_decode_efibootmgr code = ret code.
Proof. intros H. rewrite try_decode_efibootmgr_eq, H. reflexivity. Qed.







(** *** The round trip on ASCII text *)

Lemma spec_encode_ascii (x : str) :
  ascii_only x = true -> spec_encode x = flat_map (fun c => [c; DOT]) x.
Proof.
  unfold spec_encode. induction x as [|c x IH]; simpl; [auto|].
  intros H. apply andb_true_iff in H as [Hc Hx].
  pose proof Hc as Hc'. apply N.ltb_lt in Hc'.
  unfold utf16_units at 1.
  replace (c <? 65536)%N with true by (symmetry; apply N.ltb_lt; lia).
  simpl. rewrite Hc, (IH Hx). f_equal. apply N.mod_small. lia.
Qed.

Lemma utf8_encode_ascii (s : str) :
  ascii_only s = true -> Codec.utf8_encode s = Some s.
Proof.
  induction s as [|c s IH]; simpl; [auto|].
  intros H. apply andb_true_iff in H as [Hc Hs].
  unfold Codec.utf8_encode_char. rewrite Hc, (IH Hs). reflexivity.
Qed.

Lemma ascii_only_dotted (x : str) :
  ascii_only x = true -> ascii_only (flat_map (fun c => [c; DOT]) x) = true.
Proof.
  induction x as [|c x IH]; simpl; auto.
  intros H. apply andb_true_iff in H as [-> Hx]. rewrite (IH Hx). reflexivity.
Qed.

Lemma zero_odd_dots_dotted (x : str) :
  forall i : nat,
    Nat.odd i = false ->
    zero_odd_dots i (flat_map (fun c => [c; DOT]) x) =
    flat_map (fun c => [c; 0%N]) x.
Proof.
  induction x as [|c x IH]; intros i Hi; simpl; auto.
  rewrite Hi. simpl. rewrite Nat.odd_succ, <- Nat.negb_odd, Hi. simpl.
  rewrite IH; auto.
Qed.

Lemma units_le_padded (x : str) :
  Codec.units_le (flat_map (fun c => [c; 0%N]) x) = Some x.
Proof.
  induction x as [|c x IH]; simpl; auto.
  rewrite IH. simpl. f_equal. f_equal. lia.
Qed.

Lemma scalars_ascii (x : str) :
  ascii_only x = true -> Codec.scalars x = Some x.
Proof.
  induction x as [|c x IH]; simpl; auto.
  intros H. apply andb_true_iff in H as [Hc Hx]. apply N.ltb_lt in Hc.
  unfold Codec.is_high, Codec.is_low.
  replace (55296 <=? c)%N with false by (symmetry; apply N.leb_gt; lia).
  replace (56320 <=? c)%N with false by (symmetry; apply N.leb_gt; lia).
  simpl. rewrite (IH Hx). reflexivity.
Qed.

Lemma utf16_decode_padded (x : str) :
  ascii_only x = true ->
  Codec.utf16_decode (flat_map (fun c => [c; 0%N]) x) = Some x.
Proof.
  intros H. unfold Codec.utf16_decode.
  destruct x as [|c x]; [reflexivity|].
  cbn [flat_map app]. rewrite !andb_false_r.
  change (c :: 0%N :: flat_map (fun c => [c; 0%N]) x)
    with (flat_map (fun c => [c; 0%N]) (c :: x)).
  rewrite units_le_padded. unfold Codec.bind_opt. apply scalars_ascii; auto.
Qed.

Lemma count_dotted (x : str) :
  count DOT (flat_map (fun c => [c; DOT]) x) = length x + count DOT x.
Proof.
  induction x as [|c x IH]; simpl; auto.
  rewrite IH. destruct (N.eqb c DOT); simpl; lia.
Qed.

(** The decoder on the rendering of ASCII text with at least two
    characters, or of a single dot. *)
Lemma decode_dotted (x : str) :
  ascii_only x = true -> length x + count DOT x <> 1 ->
  try_decode_efibootmgr (flat_map (fun c => [c; DOT]) x) = ret x.
Proof.
  intros Ha Hc. destruct x as [|c x]; [reflexivity|].
  rewrite try_decode_efibootmgr_eq.
  replace (contains DOT (flat_map (fun c => [c; DOT]) (c :: x))) with true
    by (cbn -[N.eqb]; rewrite N.eqb_refl, orb_true_r; reflexivity).
  rewrite count_dotted.
  replace (Nat.eqb (length (c :: x) + count DOT (c :: x)) 1) with false
    by (symmetry; apply Nat.eqb_neq; auto).
  rewrite andb_false_r.
  replace (startswith (flat_map (fun c => [c; DOT]) (c :: x)) WINDOWS)
    with false
    by (cbn -[N.eqb]; change (N.eqb DOT 73) with false;
        symmetry; apply andb_false_r).
  cbn [negb]. unfold decode_utf16_block.
  rewrite utf8_encode_ascii by (apply ascii_only_dotted; auto).
  rewrite zero_odd_dots_dotted by reflexivity.
  rewrite utf16_decode_padded by auto. reflexivity.
Qed.

(** C3, as stated, fails: the decoder does not undo the rendering of every
    ASCII string without a dot. The one-character string A is rendered as
    [A.], which the rule for a single trailing dot returns unchanged. *)
Lemma decode_roundtrip_fails_on_single_char :
  ~ (forall x : str,
       ascii_only x = true -> contains DOT x = false ->
       try_decode_efibootmgr (spec_encode x) = ret x).
Proof.
  intros H. specialize (H (lit "A") eq_refl eq_refl).
  vm_compute in H. discriminate H.
Qed.

(** Outside ASCII the rendering is not even injective: the two code units
    2E41 and 2E42 are shown as [A.B.], the rendering of AB. *)
Lemma decode_roundtrip_fails_on_dot_high_byte :
  spec_encode [11841%N; 11842%N] = lit "A.B." /\
  try_decode_efibootmgr (spec_encode [11841%N; 11842%N]) = ret (lit "AB").
Proof. split; vm_compute; reflexivity. Qed.

(** C3, amended: a string without a dot is returned unchanged; the
    rendering of an ASCII string is decoded back to the string unless the
    string is a single character other than the dot, and in that case the
    rendering itself is returned. *)
Theorem decode_roundtrip_ascii :
  (forall code : str,
      contains DOT code = false -> try_decode_efibootmgr code = ret code) /\
  (forall x : str,
      ascii_only x = true -> length x <> 1 \/ x = [DOT] ->
      try_decode_efibootmgr (spec_encode x) = ret x) /\
  (forall c : char,
      (c < 128)%N -> c <> DOT ->
      try_decode_efibootmgr (spec_encode [c]) = ret [c; DOT]).
Proof.
  split; [exact try_decode_no_dot|]. split.
  - intros x Ha Hx. rewrite spec_encode_ascii by auto.
    apply decode_dotted; auto.
    destruct Hx as [Hx | ->]; [|simpl; lia].
    destruct x as [|c [|d x]]; simpl in *; lia.
  - intros c Hc Hd.
    assert (Ha : ascii_only [c] = true)
      by (simpl; rewrite andb_true_r; apply N.ltb_lt; auto).
    rewrite spec_encode_ascii by auto. simpl.
    rewrite try_decode_efibootmgr_eq.
    replace (contains DOT [c; DOT]) with true
      by (cbn -[N.eqb]; rewrite N.eqb_refl, orb_true_r; reflexivity).
    replace (endswith [c; DOT] [DOT]) with true by reflexivity.
    replace (count DOT [c; DOT]) with 1; [reflexivity|].
    cbn -[N.eqb]. rewrite N.eqb_refl.
    apply N.eqb_neq in Hd. rewrite Hd. reflexivity.
Qed.

Lemma decode_roundtrip_ascii_witness :
  try_decode_efibootmgr (lit "params") = ret (lit "params") /\
  try_decode_efibootmgr (spec_encode (lit "My OS")) = ret (lit "My OS") /\
  try_decode_efibootmgr (spec_encode (lit "A")) = ret (lit "A.").
Proof.
  destruct decode_roundtrip_ascii as (H1 & H2 & H3).
  split; [|split].
  - apply (H1 (lit "params")). reflexivity.
  - apply (H2 (lit "My OS")); [reflexivity | left; simpl; lia].
  - apply (H3 65%N); [reflexivity | discriminate].
Defined.

(** ** The line parser *)

Lemma after_colon_Ok_Entry (line : str) (k : str -> M parsed_line) e log :
  (forall v e log, k v <> (Ok (Entry e), log)) ->
  bind (after_colon line) k <> (Ok (Entry e), log).
Proof.
  intros Hk H. apply bind_Ok_inv in H as (v & l1 & l2 & _ & H & _).
  eapply Hk; eauto.
Qed.

(** Only the entry pattern produces an entry. *)
Lemma parse_keyed_line_not_entry (line : str) (e : entry) (log : list event) :
  parse_keyed_line line <> (Ok (Entry e), log).
Proof.
  unfold parse_keyed_line.
  destruct (startswith line (lit "BootOrder")).
  { apply after_colon_Ok_Entry. unfold ret. congruence. }
  destruct (startswith line (lit "BootNext")).
  { apply after_colon_Ok_Entry. unfold ret. congruence. }
  destruct (startswith line (lit "BootCurrent")).
  { apply after_colon_Ok_Entry. unfold ret. congruence. }
  destruct (startswith line (lit "Timeout")).
  { apply after_colon_Ok_Entry. intros v e' log'.
    destruct (split_ws [] v); [unfold raise; congruence|].
    destruct (int (strip s)); unfold ret, raise; congruence. }
  unfold raise. congruence.
Qed.

(** What an entry holds, in terms of the groups of the match: the number,
    the name and the path are the text of groups 1, 3 and 4 as matched;
    only group 5 goes through the decoder. *)
Lemma parse_entry_inv (line : str) (e : entry) (log : list event) :
  parse_efibootmgr_line line = (Ok (Entry e), log) ->
  exists (g : groups) (raw : str),
    re_match efibootmgr_regex line = Some g /\
    g 1 = Some (num e) /\ is_some (g 2) = active e /\ g 3 = Some (name e) /\
    path e = match g 4 with Some p => p | None => [] end /\
    g 5 = Some raw /\
    try_decode_efibootmgr raw = (Ok (parameters e), log).
Proof.
  unfold parse_efibootmgr_line. intros H.
  destruct (re_match efibootmgr_regex line) as [g|];
    [|exfalso; eapply parse_keyed_line_not_entry; eauto].
  destruct (truthy (g 1) && truthy (g 3));
    [|exfalso; eapply parse_keyed_line_not_entry; eauto].
  destruct (g 1) as [n|] eqn:G1; [|discriminate].
  destruct (g 3) as [m|] eqn:G3; [|discriminate].
  destruct (g 5) as [raw|] eqn:G5; [|discriminate].
  apply bind_Ok_inv in H as (params & l1 & l2 & Hd & Hr & ->).
  injection Hr as <- <-. exists g, raw. simpl. rewrite app_nil_r.
  repeat split; auto. destruct (g 4) as [[|c p]|]; reflexivity.
Qed.


(** *** Where the pieces of a line end *)

(** A run of characters of a class ends at the first character outside
    the class. *)
Lemma span_unique (p : char -> bool) (a b x y : str) (c d : char) :
  forallb p a = true -> forallb p b = true -> p c = false -> p d = false ->
  a ++ c :: x = b ++ d :: y -> a = b /\ c :: x = d :: y.
Proof.
  revert b; induction a as [|a0 a IH]; intros [|b0 b] Ha Hb Hc Hd H;
    simpl in *.
  - auto.
  - injection H as -> _. apply andb_true_iff in Hb as [Hb _]. congruence.
  - injection H as -> _. apply andb_true_iff in Ha as [Ha _]. congruence.
  - injection H as -> H.
    apply andb_true_iff in Ha as [_ Ha]. apply andb_true_iff in Hb as [_ Hb].
    destruct (IH b Ha Hb Hc Hd H) as [-> ?]. auto.
Qed.

(** A text with a single occurrence of [c] is cut at it in one way. *)
Lemma cut_unique (c : char) (a b x y : str) :
  contains c b = false -> contains c y = false ->
  a ++ c :: x = b ++ c :: y -> a = b /\ x = y.
Proof.
  unfold contains.
  revert b; induction a as [|a0 a IH]; intros [|b0 b] Hb Hy H; simpl in *.
  - injection H; auto.
  - injection H as <- _. rewrite N.eqb_refl in Hb. discriminate.
  - injection H as -> <-. rewrite existsb_app in Hy. simpl in Hy.
    rewrite N.eqb_refl, orb_true_r in Hy. discriminate.
  - injection H as -> H. apply orb_false_iff in Hb as [_ Hb].
    destruct (IH b Hb Hy H) as [-> ->]. auto.
Qed.

Lemma contains_split (c : char) (s : str) :
  contains c s = true -> exists a b, s = a ++ c :: b.
Proof.
  unfold contains. intros H. apply existsb_exists in H as (x & Hin & E).
  apply N.eqb_eq in E; subst x. apply in_split; auto.
Qed.

Lemma M_Seq_eq (subject : str) {r1 r2} {w : str} (w1 w2 : str) {s : str}
    {g g1 g2 : groups} :
  w = w1 ++ w2 ->
  Matches subject r1 w1 (w2 ++ s) g g1 ->
  Matches subject r2 w2 s g1 g2 ->
  Matches subject (Seq r1 r2) w s g g2.
Proof. intros ->. apply M_Seq. Qed.

Lemma M_Plus_nonempty (subject : str) (p : char -> bool) (w s : str)
    (g : groups) :
  w <> [] -> forallb p w = true -> Matches subject (Plus p) w s g g.
Proof.
  destruct w as [|c w]; [congruence|]. simpl. intros _ H.
  apply andb_true_iff in H as [Hc Hw]. constructor; auto.
Qed.

(** A line of the shape Boot, number, optional asterisk, space, name,
    tab, and a rest with a closing parenthesis is matched by the entry
    pattern. *)
Lemma entry_line_matches (hexs star nm pre post : str) :
  hexs <> [] -> forallb hex hexs = true ->
  star = [] \/ star = [42%N] ->
  nm <> [] -> forallb dot nm = true ->
  forallb dot pre = true -> forallb dot post = true ->
  exists g,
    re_match efibootmgr_regex
      (lit "Boot" ++ hexs ++ star ++ 32%N :: nm ++ TAB :: pre ++ 41%N :: post)
    = Some g.
Proof.
  intros Hn Hh Hs Hnm Hd Hpre Hpost.
  set (line := lit "Boot" ++ hexs ++ star ++ 32%N :: nm ++ TAB :: pre ++
               41%N :: post).
  assert (HM : exists g, Matches line efibootmgr_regex line [] no_groups g).
  { unfold efibootmgr_regex. destruct Hs as [Hs | Hs]; eexists.
    all: eapply (M_Seq_eq line [] line); [reflexivity| |].
    all: try (apply M_Bol; rewrite app_nil_r; reflexivity).
    all: eapply (M_Seq_eq line (lit "Boot") _); [reflexivity| |];
      [apply Lit_intro|].
    all: eapply (M_Seq_eq line hexs _); [reflexivity| |];
      [apply M_Grp; apply M_Plus_nonempty; auto|].
    all: eapply (M_Seq_eq line star _); [reflexivity| |];
      [subst star;
       first [apply M_OptNone | apply M_OptSome; apply M_Grp; apply M_Chr]|].
    all: eapply (M_Seq_eq line [32%N] _); [reflexivity| |]; [apply M_Chr|].
    all: eapply (M_Seq_eq line nm _); [reflexivity| |];
      [apply M_Grp; apply M_Plus_nonempty; auto|].
    all: eapply (M_Seq_eq line [TAB] _); [reflexivity| |]; [apply M_Chr|].
    all: eapply (M_Seq_eq line (pre ++ [41%N]) (post ++ []));
      [rewrite app_nil_r, <- app_assoc; reflexivity| |];
      [apply M_AltR; eapply M_Seq; [apply M_Star; auto | apply M_Chr]|].
    all: eapply M_Seq; [apply M_Grp; apply M_Star; auto|].
    all: apply M_Eol; auto. }
  destruct HM as [g HM].
  unfold re_match.
  destruct (run line efibootmgr_regex line no_groups (fun _ g => Some g))
    as [g'|] eqn:E; [eauto|].
  exfalso. revert E. rewrite <- (app_nil_r line) at 2.
  apply run_complete with (g' := g); [exact HM | discriminate].
Qed.

Lemma forallb_app_inv {A} (p : A -> bool) (a b : list A) :
  forallb p (a ++ b) = true -> forallb p a = true /\ forallb p b = true.
Proof. rewrite forallb_app. apply andb_true_iff. Qed.



(** The layout of a line parsed as an entry. *)
Lemma parsed_entry_layout (line : str) (e : entry) (log : list event) :
  parse_efibootmgr_line line = (Ok (Entry e), log) ->
  exists rest : str,
    line = lit "Boot" ++ num e ++ (if active e then [42%N] else []) ++
           32%N :: name e ++ TAB :: rest /\
    num e <> [] /\ forallb hex (num e) = true /\ name e <> [].
Proof.
  intros H.
  apply parse_entry_inv in H as (g & raw & Hm & G1 & G2 & G3 & _).
  apply re_match_entry_shape in Hm as
    (numw & starw & namew & devw & parw & tail & Hline & G1' & Hnw & Hhw &
     Hstar & G3' & Hnmw & _).
  rewrite G1 in G1'; injection G1' as <-.
  rewrite G3 in G3'; injection G3' as <-.
  exists (devw ++ parw ++ tail). repeat split; auto.
  rewrite Hline. rewrite <- G2.
  destruct Hstar as [[-> ->] | [-> ->]]; reflexivity.
Qed.



(** C9, as stated, fails: the name of an entry is not the decoded name
    text. On the line [Boot0001* A.B.<TAB>HD(1)] the name group holds
    [A.B.], which the decoder would turn into AB, and the entry keeps
    [A.B.]. *)
Lemma entry_name_is_not_decoded :
  ~ (forall (line : str) (e : entry) (log : list event) (g : groups)
            (raw : str),
       parse_efibootmgr_line line = (Ok (Entry e), log) ->
       re_match efibootmgr_regex line = Some g -> g 3 = Some raw ->
       fst (try_decode_efibootmgr raw) = Ok (name e)).
Proof.
  intros H.
  pose (line := lit "Boot0001* A.B." ++ TAB :: lit "HD(1)").
  destruct (re_match efibootmgr_regex line) as [g|] eqn:Hm;
    [|vm_compute in Hm; discriminate Hm].
  assert (G3 : g 3 = Some (lit "A.B."))
    by (vm_compute in Hm; injection Hm as <-; reflexivity).
  specialize (H line {| num := lit "0001"; active := true;
                        name := lit "A.B."; path := [];
                        parameters := [] |} [] g (lit "A.B.")).
  assert (E : fst (try_decode_efibootmgr (lit "A.B.")) = Ok (lit "A.B."));
    [apply H; auto; vm_compute; reflexivity|].
  vm_compute in E. discriminate E.
Qed.

(** C9, amended: the name stored for an entry is the text of the name
    group as it stands on the line, between the space and a tab; of the
    fields of an entry only the parameters are the decoder's result. *)
Theorem entry_name_is_raw (line : str) (e : entry) (log : list event) :
  parse_efibootmgr_line line = (Ok (Entry e), log) ->
  exists (g : groups) (raw_params pre rest : str),
    re_match efibootmgr_regex line = Some g /\
    g 3 = Some (name e) /\
    line = pre ++ 32%N :: name e ++ TAB :: rest /\
    g 5 = Some raw_params /\
    try_decode_efibootmgr raw_params = (Ok (parameters e), log).
Proof.
  intros H.
  apply parse_entry_inv in H as (g & raw & Hm & G1 & G2 & G3 & _ & G5 & Hd).
  pose proof (re_match_entry_shape _ _ Hm) as
    (numw & starw & namew & devw & parw & tail & Hline & _ & _ & _ & _ &
     G3' & _).
  rewrite G3 in G3'; injection G3' as <-.
  exists g, raw, (lit "Boot" ++ numw ++ starw), (devw ++ parw ++ tail).
  repeat split; auto.
  rewrite Hline, <- !app_assoc. reflexivity.
Qed.

Lemma entry_name_is_raw_witness :
  exists (g : groups) (raw_params pre rest : str),
    re_match efibootmgr_regex
      (lit "Boot0001* A.B." ++ TAB :: lit "HD(1)C.D.") = Some g /\
    g 3 = Some (lit "A.B.") /\
    lit "Boot0001* A.B." ++ TAB :: lit "HD(1)C.D."
    = pre ++ 32%N :: lit "A.B." ++ TAB :: rest /\
    g 5 = Some raw_params /\
    try_decode_efibootmgr raw_params = (Ok (lit "CD"), []).
Proof.
  apply (entry_name_is_raw
           (lit "Boot0001* A.B." ++ TAB :: lit "HD(1)C.D.")
           {| num := lit "0001"; active := true; name := lit "A.B.";
              path := []; parameters := lit "CD" |} []).
  vm_compute. reflexivity.
Defined.

(** ** The snapshot builder *)

(** A line that is no entry and begins with none of the four keywords is
    dropped with a warning, and the parse goes on. *)
Lemma unrecognized_line_dropped (line : str) (boot : list str)
    (d : parsed_efi) :
  re_match efibootmgr_regex line = None ->
  startswith line (lit "BootOrder") = false ->
  startswith line (lit "BootNext") = false ->
  startswith line (lit "BootCurrent") = false ->
  startswith line (lit "Timeout") = false ->
  parse_lines (line :: boot) d =
  let! _ := warn "parser" "line didn't match: %s" [ARepr line] in
  parse_lines boot d.
Proof.
  intros Hm H1 H2 H3 H4. simpl.
  unfold parse_efibootmgr_line, parse_keyed_line.
  rewrite Hm, H1, H2, H3, H4. simpl.
  destruct (parse_lines boot d) as [r log]. reflexivity.
Qed.

(** C4: the parse is not total. A line that begins with one of the
    keywords but has no colon makes [split(':')[1]] raise [IndexError],
    which the handler for [ValueError] does not catch; a Timeout line
    without a number raises [ValueError] inside [int()], and the handler
    then raises [IndexError] itself on [e.args[1]]. Either ends
    [parse_efibootmgr], and [refresh] with it, although the other lines
    are valid. *)
Theorem parse_raises_on_keyword_line :
  parse_efibootmgr
    [entry_line "0001" "A"; lit "BootOrder: 0001"; lit "BootNext"]
  = (Raise IndexError, []) /\
  parse_efibootmgr
    [entry_line "0001" "A"; lit "BootOrder: 0001"; lit "Timeout: none"]
  = (Raise IndexError, []) /\
  raised (refresh (__init__ sda1)
            (Lines [entry_line "0001" "A"; lit "BootOrder: 0001";
                    lit "BootNext"]))
  = Some IndexError /\
  parse_efibootmgr
    [lit "garbage"; entry_line "0001" "A"; lit "BootOrder: 0001"]
  = (Ok {| p_entries := [{| num := lit "0001"; active := true;
                           name := lit "A"; path := []; parameters := [] |}];
           p_boot_order := [lit "0001"]; p_boot_next := None;
           p_boot_current := None; p_timeout := None |},
     [Warning "parser" "line didn't match: %s" [ARepr (lit "garbage")]]).
Proof. repeat split; vm_compute; reflexivity. Qed.

(** ** The command script *)

Lemma fold_left_append {A} (g : str -> A -> str) (f : A -> str) (l : list A)
    (acc : str) :
  (forall acc x, g acc x = acc ++ f x) ->
  fold_left g l acc = acc ++ flat_map f l.
Proof.
  intros Hg. revert acc; induction l as [|x l IH]; intros acc; simpl.
  - symmetry; apply app_nil_r.
  - rewrite IH, Hg, <- app_assoc. reflexivity.
Qed.

Lemma flat_map_map {A B C} (f : B -> list C) (h : A -> B) (l : list A) :
  flat_map f (map h l) = flat_map (fun x => f (h x)) l.
Proof. induction l as [|x l IH]; simpl; [|rewrite IH]; reflexivity. Qed.

(** The script is the rendering of the plan, line by line. *)
Lemma str_is_rendered_plan (self : EFIStore) :
  __str__ self = flat_map (render (esp self)) (spec_plan self).
Proof.
  unfold __str__, spec_plan.
  rewrite !flat_map_app, !flat_map_map.
  rewrite (fold_left_append _ (fun id => render (esp self) (CDelete id))
             (boot_remove self)) by reflexivity.
  rewrite (fold_left_append _
             (fun x => render (esp self)
                         (let '(_, label, loader, params) := x in
                          CCreate label loader params))
             (boot_add self)) by (intros acc [[[? ?] ?] ?]; reflexivity).
  rewrite !(fold_left_append _ (fun id => render (esp self) (CActive id))
              (boot_active self)) by reflexivity.
  rewrite !(fold_left_append _ (fun id => render (esp self) (CInactive id))
              (boot_inactive self)) by reflexivity.
  destruct (list_eqb (boot_order self) (boot_order_initial self));
    destruct (opt_eqb (boot_next_initial self) (boot_next self));
    destruct (optZ_eqb (timeout self) (timeout_initial self));
    destruct (boot_next self);
    cbn [negb flat_map app]; unfold render;
    rewrite ?app_nil_r, <- ?app_assoc; reflexivity.
Qed.

(** A block of commands of one rank, put before a sorted list of higher
    ranks, gives a sorted list. *)
Lemma sorted_block (n m : nat) (l rest : list nat) :
  n <= m -> Forall (eq n) l ->
  StronglySorted le rest /\ Forall (le m) rest ->
  StronglySorted le (l ++ rest) /\ Forall (le n) (l ++ rest).
Proof.
  intros Hnm Hl [Hs Hb].
  assert (Hb' : Forall (le n) rest)
    by (eapply Forall_impl; [|exact Hb]; simpl; intros; lia).
  induction Hl as [|x l <- _ IH]; simpl; [auto|].
  destruct IH as [IH1 IH2]. split; constructor; auto.
Qed.

Lemma Forall_eq_map_rank {A} (n : nat) (f : A -> command) (l : list A) :
  (forall x, rank (f x) = n) -> Forall (eq n) (map rank (map f l)).
Proof.
  intros H. induction l as [|x l IH]; simpl; constructor; auto.
Qed.

(** Along the plan the groups follow one another in the order of the
    specification. *)
Lemma plan_ranks_sorted (self : EFIStore) :
  StronglySorted le (map rank (spec_plan self)).
Proof.
  unfold spec_plan. rewrite !map_app.
  apply (sorted_block 1 2); [lia | apply Forall_eq_map_rank; reflexivity|].
  apply (sorted_block 2 3);
    [lia | apply Forall_eq_map_rank; intros [[[? ?] ?] ?]; reflexivity|].
  apply (sorted_block 3 4);
    [lia | destruct (list_eqb _ _); simpl; auto|].
  apply (sorted_block 4 5);
    [lia | destruct (opt_eqb _ _); [|destruct (boot_next self)]; simpl; auto|].
  apply (sorted_block 5 6); [lia | apply Forall_eq_map_rank; reflexivity|].
  apply (sorted_block 6 7); [lia | apply Forall_eq_map_rank; reflexivity|].
  destruct (optZ_eqb _ _); simpl; split; repeat constructor.
Qed.

Lemma plan_against_sorted (b : baseline) (self : EFIStore) :
  StronglySorted le (map rank (plan_against b self)).
Proof.
  unfold plan_against. rewrite !map_app.
  apply (sorted_block 1 2); [lia | apply Forall_eq_map_rank; reflexivity|].
  apply (sorted_block 2 3);
    [lia | apply Forall_eq_map_rank; intros [[[? ?] ?] ?]; reflexivity|].
  apply (sorted_block 3 4);
    [lia | destruct (list_eqb _ _); simpl; auto|].
  apply (sorted_block 4 5);
    [lia | destruct (opt_eqb _ _); [|destruct (boot_next self)]; simpl; auto|].
  apply (sorted_block 5 6); [lia | apply Forall_eq_map_rank; reflexivity|].
  apply (sorted_block 6 7); [lia | apply Forall_eq_map_rank; reflexivity|].
  destruct (optZ_eqb _ _); simpl; split; repeat constructor.
Qed.

(** C1: the script [__str__] builds is, line by line, the plan against
    what the store holds as its baseline, the seven groups in the fixed
    order. That is the plan of the specification as long as the stored
    baseline is the snapshot as loaded, as in the scenario of the claim,
    reached by a refresh, a move, a removal, an addition and a choice of
    next boot. It is not after a removal that directly follows a
    refresh: [refresh] binds the working and the baseline order to one
    list, [remove] takes the id out of that list, and the script has no
    bootorder line although the working order 0001 differs from the
    order 0001,0002 of the snapshot. When a move came first the two
    names hold different lists and the same removal writes the line. *)
Theorem command_plan_order :
  (forall self : EFIStore,
      __str__ self
      = flat_map (render (esp self)) (plan_against (stored_baseline self) self)) /\
  (forall (b : baseline) (self : EFIStore),
      StronglySorted le (map rank (plan_against b self))) /\
  (let loaded :=
     after (refresh (__init__ sda1)
              (Lines [lit "Timeout: 5 seconds"; lit "BootOrder: 0001,0002";
                      entry_line "0001" "A"; entry_line "0002" "B"])) in
   let removed := after (remove loaded 1) in
   base_order (baseline_of loaded) = [lit "0001"; lit "0002"] /\
   boot_order removed = [lit "0001"] /\
   plan_against (baseline_of loaded) removed
   = [CDelete (lit "0002"); CBootOrder [lit "0001"]] /\
   __str__ removed
   = lit "efibootmgr --disk /dev/sda --part 1 --delete-bootnum --bootnum 0002"
     ++ [NL] /\
   __str__ removed
   <> flat_map (render (esp removed)) (plan_against (baseline_of loaded) removed) /\
   (let moved := swap (swap loaded 0 1) 0 1 in
    rows moved = rows loaded /\ boot_order moved = boot_order loaded /\
    __str__ (after (remove moved 1))
    = lit "efibootmgr --disk /dev/sda --part 1 --delete-bootnum --bootnum 0002"
      ++ NL ::
      lit "efibootmgr --disk /dev/sda --part 1 --bootorder 0001" ++ [NL] /\
    __str__ (after (remove moved 1))
    = flat_map (render (esp moved))
        (plan_against (baseline_of loaded) (after (remove moved 1))))) /\
  (let loaded :=
     after (refresh (__init__ sda1)
              (Lines [lit "Timeout: 5 seconds"; lit "BootOrder: 0001,0002,0003";
                      entry_line "0001" "A"; entry_line "0002" "B";
                      entry_line "0003" "C"])) in
   let moved := swap loaded 0 1 in
   let removed := after (remove moved 2) in
   let added := add removed (lit "L") (lit "\EFI\l.efi") (lit "p") in
   let edited := change_boot_next added 1 in
   base_order (baseline_of loaded) = [lit "0001"; lit "0002"; lit "0003"] /\
   base_next (baseline_of loaded) = None /\
   plan_against (baseline_of loaded) edited =
     [CDelete (lit "0003"); CCreate (lit "L") (lit "\EFI\l.efi") (lit "p");
      CBootOrder [lit "0002"; lit "0001"]; CBootNext (lit "0002")] /\
   __str__ edited =
     lit "efibootmgr --disk /dev/sda --part 1 --delete-bootnum --bootnum 0003"
     ++ NL ::
     lit "efibootmgr --disk /dev/sda --part 1 --create --label 'L' --loader '\EFI\l.efi' --unicode 'p'"
     ++ NL ::
     lit "efibootmgr --disk /dev/sda --part 1 --bootorder 0002,0001" ++ NL ::
     lit "efibootmgr --disk /dev/sda --part 1 --bootnext 0002" ++ [NL]).
Proof.
  split; [exact str_is_rendered_plan|].
  split; [exact plan_against_sorted|].
  split; [|repeat split; vm_compute; reflexivity].
  cbv zeta. repeat split; try (vm_compute; reflexivity).
  vm_compute. discriminate.
Qed.

(** ** Rows and positions *)

Lemma update_length {A} (i : nat) (x : A) (l : list A) :
  length (update i x l) = length l.
Proof.
  revert i; induction l as [|y l IH]; intros [|i]; simpl; auto.
Qed.

(** Putting [x] at a position and the element that was there in front
    rearranges [x :: l]. *)
Lemma update_perm {A} (i : nat) (x y : A) (l : list A) :
  nth_error l i = Some y -> Permutation (y :: update i x l) (x :: l).
Proof.
  revert i; induction l as [|z l IH]; intros [|i] H; simpl in *;
    try discriminate.
  - injection H as ->. apply perm_swap.
  - apply IH in H.
    eapply perm_trans; [apply perm_swap|].
    eapply perm_trans; [apply perm_skip; exact H|]. apply perm_swap.
Qed.

Lemma update_same {A} (i : nat) (x : A) (l : list A) :
  nth_error l i = Some x -> update i x l = l.
Proof.
  revert i; induction l as [|z l IH]; intros [|i] H; simpl in *;
    try discriminate; auto.
  - injection H as ->; reflexivity.
  - rewrite IH; auto.
Qed.

Lemma swap_rows_perm (a b : nat) (rs : list Row) :
  Permutation (swap_rows a b rs) rs.
Proof.
  unfold swap_rows.
  revert a b; induction rs as [|r rs IH]; intros a b.
  - destruct a, b; reflexivity.
  - destruct a as [|a], b as [|b]; simpl.
    + reflexivity.
    + destruct (nth_error rs b) as [rb|] eqn:Hb; [|reflexivity].
      apply update_perm; auto.
    + destruct (nth_error rs a) as [ra|] eqn:Ha; [|reflexivity].
      apply update_perm; auto.
    + specialize (IH a b).
      destruct (nth_error rs a), (nth_error rs b); auto.
Qed.

Lemma swap_rows_length (a b : nat) (rs : list Row) :
  length (swap_rows a b rs) = length rs.
Proof. apply Permutation_length, swap_rows_perm. Qed.

Lemma nth_error_update {A} (i j : nat) (x : A) (l : list A) :
  i < length l ->
  nth_error (update i x l) j = if Nat.eqb j i then Some x else nth_error l j.
Proof.
  revert i j; induction l as [|y l IH]; intros i j Hi; simpl in Hi; [lia|].
  destruct i as [|i], j as [|j]; simpl; auto.
  apply IH. lia.
Qed.

(** After a swap the row at [a] is the one that was at [b]. *)
Lemma swap_rows_nth (a b : nat) (rs : list Row) :
  a < length rs -> b < length rs ->
  nth_error (swap_rows a b rs) a = nth_error rs b.
Proof.
  intros Ha Hb. unfold swap_rows.
  destruct (nth_error rs a) as [ra|] eqn:Ea;
    [|apply nth_error_None in Ea; lia].
  destruct (nth_error rs b) as [rb|] eqn:Eb;
    [|apply nth_error_None in Eb; lia].
  rewrite nth_error_update by (rewrite update_length; auto).
  destruct (Nat.eqb a b) eqn:E.
  - apply Nat.eqb_eq in E; subst b. congruence.
  - rewrite nth_error_update by auto. rewrite Nat.eqb_refl. reflexivity.
Qed.

Lemma mem_In (x : str) (l : list str) : mem x l = true <-> In x l.
Proof.
  unfold mem. rewrite existsb_exists. split.
  - intros (y & Hy & E). apply str_eqb_eq in E; subst; auto.
  - intros H. exists x; split; auto. apply str_eqb_refl.
Qed.

Lemma In_flat_map_split {A} (f : A -> str) (x : A) (l : list A) :
  In x l -> exists pre post, flat_map f l = pre ++ f x ++ post.
Proof.
  intros H. apply in_split in H as (l1 & l2 & ->).
  exists (flat_map f l1), (flat_map f l2).
  rewrite flat_map_app. reflexivity.
Qed.

(** ** Placeholder ids in the boot order *)

(** C10: after an addition, which puts a row with the placeholder id
    NEW<n> in front, any swap rebuilds the boot order from the rows, so
    the boot order holds the placeholder id; when the baseline order does
    not hold it, the script has a bootorder line with it. *)
Theorem swap_puts_placeholder_in_bootorder
    (self : EFIStore) (label path parameters : str) (a b : nat) :
  mem (new_num (length (boot_add self))) (boot_order_initial self) = false ->
  let id := new_num (length (boot_add self)) in
  let added := add self label path parameters in
  let moved := swap added a b in
  option_map ROW_NUM (nth_error (rows added) 0) = Some id /\
  boot_order moved = map ROW_NUM (rows moved) /\
  In id (boot_order moved) /\
  exists pre post : str,
    __str__ moved =
    pre ++ (lit "efibootmgr " ++ esp self ++ lit " --bootorder " ++
            join (lit ",") (boot_order moved) ++ [NL]) ++ post.
Proof.
  intros Hfresh id added moved.
  assert (Hin : In id (boot_order moved)).
  { unfold moved, swap, boot_order. simpl.
    apply in_map_iff.
    assert (Hr : In {| ROW_CURRENT := false; ROW_NUM := id; ROW_NAME := label;
                       ROW_PATH := path; ROW_PARAMETERS := parameters;
                       ROW_ACTIVE := true; ROW_NEXT := false |}
                    (swap_rows a b (rows added))).
    { eapply Permutation_in; [symmetry; apply swap_rows_perm|].
      simpl. left. reflexivity. }
    eexists; split; [|exact Hr]. reflexivity. }
  repeat split; auto.
  assert (Hneq : list_eqb (boot_order moved) (boot_order_initial moved) = false).
  { destruct (list_eqb _ _) eqn:E; auto.
    apply list_eqb_eq in E. rewrite E in Hin.
    apply mem_In in Hin.
    replace (boot_order_initial moved) with (boot_order_initial self) in Hin
      by reflexivity.
    unfold id in Hin. congruence. }
  rewrite str_is_rendered_plan.
  replace (esp self) with (esp moved) by reflexivity.
  apply (In_flat_map_split (render (esp moved))
           (CBootOrder (boot_order moved))).
  unfold spec_plan. rewrite Hneq.
  apply in_or_app; right. apply in_or_app; right.
  apply in_or_app; left. left. reflexivity.
Qed.

Lemma swap_puts_placeholder_in_bootorder_witness :
  let loaded :=
    after (refresh (__init__ sda1)
             (Lines [lit "Timeout: 5 seconds"; lit "BootOrder: 0001,0002";
                     entry_line "0001" "A"; entry_line "0002" "B"])) in
  let moved := swap (add loaded (lit "L") (lit "\EFI\l.efi") []) 0 1 in
  boot_order moved = [lit "0001"; lit "NEW0"; lit "0002"] /\
  In (lit "NEW0") (boot_order moved) /\
  exists pre post : str,
    __str__ moved =
    pre ++ (lit "efibootmgr " ++ sda1 ++ lit " --bootorder " ++
            lit "0001,NEW0,0002" ++ [NL]) ++ post.
Proof.
  intros loaded moved.
  destruct (swap_puts_placeholder_in_bootorder loaded (lit "L")
              (lit "\EFI\l.efi") [] 0 1) as (_ & Ho & Hin & Hs).
  - vm_compute. reflexivity.
  - split; [vm_compute; reflexivity|]. split; [exact Hin|exact Hs].
Defined.

(** ** Refresh *)

(** [reorder] changes nothing but the rows. *)
Lemma reorder_only_rows (self : EFIStore) :
  exists rs, after (reorder self) = set_rows rs self.
Proof.
  unfold reorder.
  destruct (reorder_known (rows self) (boot_order self) []) as [known log1].
  destruct (reorder_missing 0 (rows self) known) as [new_order log2].
  destruct (Nat.eqb _ _); simpl; eauto.
  exists (rows self). destruct self; reflexivity.
Qed.

Lemma pending_changes_set_rows (rs : list Row) (self : EFIStore) :
  pending_changes (set_rows rs self) = pending_changes self.
Proof. reflexivity. Qed.

Lemma pending_changes_load (self : EFIStore) (d : parsed_efi) :
  pending_changes (load self d) = false.
Proof.
  unfold pending_changes, load, boot_order, boot_order_initial. simpl.
  eqb_refl. reflexivity.
Qed.

(** [set_value] on the spin button changes the timeout and the button,
    nothing else. *)
Lemma timeout_spin_set_value_frame (v : Z) (self : EFIStore) :
  let s := timeout_spin_set_value v self in
  esp s = esp self /\ rows s = rows self /\ orders s = orders self /\
  boot_next s = boot_next self /\
  boot_next_initial s = boot_next_initial self /\
  boot_active s = boot_active self /\ boot_inactive s = boot_inactive self /\
  boot_add s = boot_add self /\ boot_remove s = boot_remove self /\
  boot_current s = boot_current self /\
  timeout_initial s = timeout_initial self.
Proof.
  unfold timeout_spin_set_value. destruct (Z.eqb _ _); repeat split.
Qed.

(** A value within the range of the button is shown as it is. *)
Lemma spin_clamp_in_range (v : Z) : (0 <= v <= 999)%Z -> spin_clamp v = v.
Proof. unfold spin_clamp. lia. Qed.

(** When the button is set to the timeout the store already has, in
    range, the timeout stays. *)
Lemma timeout_spin_set_value_same (v : Z) (self : EFIStore) :
  (0 <= v <= 999)%Z -> timeout self = Some v ->
  timeout (timeout_spin_set_value v self) = Some v.
Proof.
  intros Hv Ht. unfold timeout_spin_set_value.
  rewrite (spin_clamp_in_range v Hv).
  destruct (Z.eqb _ _); [exact Ht | reflexivity].
Qed.

(** The store a [refresh] leaves, however it ended: the store cleared,
    the snapshot loaded, or the snapshot loaded, the button set and the
    rows rearranged. *)
Lemma refresh_after_cases (self : EFIStore) (run : efibootmgr_run) :
  after (refresh self run) = clear self \/
  (exists d, after (refresh self run) = load (clear self) d /\
             (raised (refresh self run) = Some TypeError /\
              p_timeout d = None \/
              raised (refresh self run) = Some OverflowError)) \/
  exists d v rs,
    p_timeout d = Some v /\
    after (refresh self run) =
    set_rows rs (timeout_spin_set_value v (load (clear self) d)).
Proof.
  unfold refresh. destruct run as [boot| |]; auto.
  destruct (parse_efibootmgr boot) as [[d|e] log]; auto.
  right. change (timeout (load (clear self) d)) with (p_timeout d).
  destruct (p_timeout d) as [v|] eqn:Ht.
  - destruct (Z.leb float_overflow (Z.abs v)).
    + left. exists d. auto.
    + right. cbn [after].
      destruct (reorder_only_rows
                  (timeout_spin_set_value v (load (clear self) d)))
        as [rs ->].
      exists d, v, rs. auto.
  - left. exists d. auto.
Qed.

(** Whatever [run_efibootmgr] produced and however [refresh] ended, the
    staged edits are gone after it, and the next boot and the boot order
    are those of the baseline. *)
Lemma refresh_discards_staged (self : EFIStore) (run : efibootmgr_run) :
  let s := after (refresh self run) in
  boot_add s = [] /\ boot_remove s = [] /\
  boot_active s = [] /\ boot_inactive s = [] /\
  boot_next s = boot_next_initial s /\
  boot_order s = boot_order_initial s.
Proof.
  destruct (refresh_after_cases self run)
    as [-> | [(d & -> & _) | (d & v & rs & _ & ->)]];
    try (repeat split; reflexivity).
  unfold boot_order, boot_order_initial. cbn [set_rows boot_add boot_remove
    boot_active boot_inactive boot_next boot_next_initial orders].
  destruct (timeout_spin_set_value_frame v (load (clear self) d))
    as (_ & _ & -> & -> & -> & -> & -> & -> & -> & _).
  repeat split; reflexivity.
Qed.

(** After a [refresh], only the timeout can be pending. *)
Lemma pending_changes_after_refresh (self : EFIStore) (run : efibootmgr_run) :
  let s := after (refresh self run) in
  pending_changes s = negb (optZ_eqb (timeout s) (timeout_initial s)).
Proof.
  intros s.
  destruct (refresh_discards_staged self run) as (Ha & Hr & Hac & Hi & Hn & Ho).
  fold s in Ha, Hr, Hac, Hi, Hn, Ho.
  unfold pending_changes. rewrite Ha, Hr, Hac, Hi, Hn, Ho.
  eqb_refl. reflexivity.
Qed.

(** Nothing is pending after a [refresh] when the timeout of the
    snapshot, if it has one, is within the range of the spin button. *)
Lemma refresh_in_range_clean (self : EFIStore) (run : efibootmgr_run) :
  (forall t, timeout_initial (after (refresh self run)) = Some t ->
             (0 <= t <= 999)%Z) ->
  pending_changes (after (refresh self run)) = false.
Proof.
  intros Hrange. rewrite pending_changes_after_refresh.
  apply negb_false_iff, optZ_eqb_eq.
  destruct (refresh_after_cases self run)
    as [E | [(d & E & _) | (d & v & rs & Ht & E)]];
    rewrite E in *; try reflexivity.
  cbn [set_rows timeout timeout_initial] in *.
  destruct (timeout_spin_set_value_frame v (load (clear self) d))
    as (_ & _ & _ & _ & _ & _ & _ & _ & _ & _ & Hi).
  rewrite Hi in *. change (timeout_initial (load (clear self) d))
    with (p_timeout d) in *.
  rewrite Ht in *. apply timeout_spin_set_value_same; [|exact Ht].
  apply Hrange. reflexivity.
Qed.

(** ** Committing *)



(** ** Removing an entry *)

Lemma list_remove_mem (x : str) (l : list str) :
  mem x l = true -> exists l', list_remove x l = Some l'.
Proof.
  unfold mem. induction l as [|y l IH]; simpl; [discriminate|].
  intros H. destruct (str_eqb y x) eqn:E; [eauto|].
  assert (E' : str_eqb x y = false).
  { apply str_eqb_neq. apply str_eqb_neq in E. congruence. }
  rewrite E' in H. simpl in H. destruct (IH H) as [l' ->]. simpl. eauto.
Qed.

Lemma orders_remove_mem (num : str) (self : EFIStore) :
  mem num (boot_order self) = true ->
  exists o, orders_remove num (orders self) = Some o /\
            list_remove num (boot_order self)
            = Some (boot_order (set_orders o self)).
Proof.
  unfold boot_order, orders_remove. intros H.
  destruct (orders self) as [l | order initial];
    destruct (list_remove_mem _ _ H) as [l' E]; rewrite E; simpl; eauto.
Qed.

(** No row carries the number: the loop does nothing. *)
Lemma remove_loop_none (num : str) (rs : list Row) (self : EFIStore) :
  filter (fun r => str_eqb (ROW_NUM r) num) rs = [] ->
  remove_loop num rs self = done self.
Proof.
  revert self; induction rs as [|r rs IH]; intros self H; simpl in *; auto.
  destruct (str_eqb (ROW_NUM r) num); [discriminate|]. auto.
Qed.

(** One row carries the number and the boot order holds it: one removal
    is staged and the number leaves the boot order. *)
Lemma remove_loop_one (num : str) (rs : list Row) (self : EFIStore)
    (o : order_refs) :
  length (filter (fun r => str_eqb (ROW_NUM r) num) rs) = 1 ->
  orders_remove num (orders self) = Some o ->
  remove_loop num rs self =
  done (set_orders o (set_boot_remove (boot_remove self ++ [num]) self)).
Proof.
  revert self; induction rs as [|r rs IH]; intros self H Ho; simpl in *;
    [discriminate|].
  destruct (str_eqb (ROW_NUM r) num).
  - simpl in H. rewrite Ho. apply remove_loop_none.
    apply length_zero_iff_nil. lia.
  - auto.
Qed.

(** C7, as stated, fails: removing an entry leaves the next-boot choice
    and the activation lists alone. Entry 0001 is chosen as next boot and
    deactivated, then removed: it is still the next boot and still in the
    deactivations, and the script refers to the deleted entry. *)
Lemma remove_keeps_next_and_activation :
  ~ (forall (self : EFIStore) (row_index : nat) (row : Row),
       nth_error (rows self) row_index = Some row ->
       startswith (ROW_NUM row) (lit "NEW") = false ->
       let s := after (remove self row_index) in
       boot_next s <> Some (ROW_NUM row) /\
       mem (ROW_NUM row) (boot_active s) = false /\
       mem (ROW_NUM row) (boot_inactive s) = false).
Proof.
  intros H.
  pose (loaded :=
          after (refresh (__init__ sda1)
                   (Lines [lit "Timeout: 5 seconds";
                           lit "BootOrder: 0001,0002";
                           entry_line "0001" "A"; entry_line "0002" "B"]))).
  pose (edited := change_active (change_boot_next loaded 0) 0).
  destruct (nth_error (rows edited) 0) as [row|] eqn:E;
    [|vm_compute in E; discriminate E].
  destruct (H edited 0 row E) as (H1 & _).
  - vm_compute in E. injection E as <-. reflexivity.
  - apply H1. vm_compute in E. injection E as <-. vm_compute. reflexivity.
Qed.

(** C7, amended: removing the row of a baseline entry whose number is on
    no other row and is in the boot order stages the number for removal,
    takes its first occurrence out of the boot order and drops the row;
    the next-boot choice, the activation lists and the additions are left
    as they were. Removing the row of a placeholder drops the additions
    carrying its id and the row, and leaves the removals, the next-boot
    choice and the activation lists as they were. *)
Theorem remove_entry_effect (self : EFIStore) (row_index : nat) (row : Row) :
  nth_error (rows self) row_index = Some row ->
  let num := ROW_NUM row in
  let r := remove self row_index in
  (startswith num (lit "NEW") = false ->
   length (filter (fun x => str_eqb (ROW_NUM x) num) (rows self)) = 1 ->
   mem num (boot_order self) = true ->
   raised r = None /\
   boot_remove (after r) = boot_remove self ++ [num] /\
   list_remove num (boot_order self) = Some (boot_order (after r)) /\
   rows (after r) = delete row_index (rows self) /\
   boot_add (after r) = boot_add self /\
   boot_next (after r) = boot_next self /\
   boot_active (after r) = boot_active self /\
   boot_inactive (after r) = boot_inactive self) /\
  (startswith num (lit "NEW") = true ->
   raised r = None /\
   boot_add (after r)
   = filter (fun entry => negb (str_eqb (fst (fst (fst entry))) num))
            (boot_add self) /\
   rows (after r) = delete row_index (rows self) /\
   boot_remove (after r) = boot_remove self /\
   boot_next (after r) = boot_next self /\
   boot_active (after r) = boot_active self /\
   boot_inactive (after r) = boot_inactive self).
Proof.
  intros Hrow num r. unfold r, remove. rewrite Hrow. fold num. split.
  - intros Hnew Hone Hmem. rewrite Hnew.
    destruct (orders_remove_mem num self Hmem) as (o & Ho & Hl).
    rewrite (remove_loop_one num (rows self) self o Hone Ho). simpl.
    repeat split; auto.
  - intros Hnew. rewrite Hnew. simpl. repeat split; auto.
Qed.

(** The boot order is not touched when a placeholder row is removed: an
    id a swap copied into it stays there. *)
Lemma remove_placeholder_keeps_order (self : EFIStore) (row_index : nat)
    (row : Row) :
  nth_error (rows self) row_index = Some row ->
  startswith (ROW_NUM row) (lit "NEW") = true ->
  orders (after (remove self row_index)) = orders self.
Proof.
  intros Hrow Hnew. unfold remove. rewrite Hrow, Hnew. reflexivity.
Qed.

Lemma remove_entry_effect_witness :
  let loaded :=
    after (refresh (__init__ sda1)
             (Lines [lit "Timeout: 5 seconds"; lit "BootOrder: 0001,0002";
                     entry_line "0001" "A"; entry_line "0002" "B"])) in
  let edited := change_active (change_boot_next loaded 1) 1 in
  let r := remove edited 1 in
  raised r = None /\
  boot_remove (after r) = [lit "0002"] /\
  boot_order (after r) = [lit "0001"] /\
  boot_next (after r) = Some (lit "0002") /\
  boot_inactive (after r) = [lit "0002"] /\
  let added := add loaded (lit "L") [] [] in
  let r' := remove added 0 in
  boot_add (after r') = [] /\ boot_remove (after r') = [].
Proof.
  intros loaded edited r.
  destruct (nth_error (rows edited) 1) as [row|] eqn:E;
    [|vm_compute in E; discriminate E].
  destruct (remove_entry_effect edited 1 row E) as [H _].
  assert (Hnum : ROW_NUM row = lit "0002")
    by (vm_compute in E; injection E as <-; reflexivity).
  rewrite Hnum in H.
  destruct H as (H1 & H2 & H3 & _ & _ & H6 & _ & H8);
    try (vm_compute; reflexivity).
  fold r in H1, H2, H3, H6, H8.
  split; [exact H1|]. split; [rewrite H2; reflexivity|].
  split.
  { assert (HL : list_remove (lit "0002") (boot_order edited)
                 = Some [lit "0001"]) by (vm_compute; reflexivity).
    rewrite HL in H3.
    apply (f_equal (fun o => match o with Some l => l | None => [] end)) in H3.
    symmetry. exact H3. }
  split; [rewrite H6; vm_compute; reflexivity|].
  split; [rewrite H8; vm_compute; reflexivity|].
  intros added r'.
  destruct (nth_error (rows added) 0) as [row'|] eqn:E';
    [|vm_compute in E'; discriminate E'].
  destruct (remove_entry_effect added 0 row' E') as [_ H'].
  assert (Hnum' : ROW_NUM row' = lit "NEW0")
    by (vm_compute in E'; injection E' as <-; reflexivity).
  rewrite Hnum' in H'.
  destruct H' as (_ & A1 & _ & A2 & _); [vm_compute; reflexivity|].
  fold r' in A1, A2. split; [rewrite A1|rewrite A2]; vm_compute; reflexivity.
Defined.

(** ** Reconciliation of the boot order *)

Lemma reorder_known_fst (rs : list Row) (order : list str) :
  forall acc : list nat,
    fst (reorder_known rs order acc) = acc ++ known_indices rs order.
Proof.
  unfold known_indices.
  induction order as [|bootnum order IH]; intros acc; simpl.
  - symmetry; apply app_nil_r.
  - destruct (index_num rs bootnum) as [i|].
    + rewrite IH, <- app_assoc. reflexivity.
    + specialize (IH acc).
      destruct (reorder_known rs order acc) as [o log]. simpl in *. auto.
Qed.

Lemma existsb_snoc_other (acc : list nat) (i j : nat) :
  i <> j ->
  existsb (Nat.eqb j) (acc ++ [i]) = existsb (Nat.eqb j) acc.
Proof.
  intros H. rewrite existsb_app. simpl.
  replace (Nat.eqb j i) with false by (symmetry; apply Nat.eqb_neq; auto).
  rewrite !orb_false_r. reflexivity.
Qed.

(** The second loop appends the positions absent from what the first
    loop gathered: the positions it appended itself are smaller than the
    ones still to come. *)
Lemma reorder_missing_fst (rs : list Row) :
  forall (i : nat) (acc : list nat),
    fst (reorder_missing i rs acc) =
    acc ++ filter (fun j => negb (existsb (Nat.eqb j) acc))
                  (seq i (length rs)).
Proof.
  induction rs as [|row rs IH]; intros i acc; simpl.
  - symmetry; apply app_nil_r.
  - destruct (existsb (Nat.eqb i) acc) eqn:E; simpl.
    + apply IH.
    + specialize (IH (S i) (acc ++ [i])).
      destruct (reorder_missing (S i) rs (acc ++ [i])) as [o log].
      simpl in *. rewrite IH, <- app_assoc. simpl. do 2 f_equal.
      apply filter_ext_in. intros j Hj. apply in_seq in Hj.
      rewrite existsb_snoc_other by lia. reflexivity.
Qed.

(** [reorder] computes the reconciliation of the specification, checks
    its length and, if the check passes, rearranges the rows by it. *)
Lemma reorder_reconciled (self : EFIStore) :
  let new_order := reconciled (rows self) (boot_order self) in
  (length new_order = length (rows self) ->
   raised (reorder self) = None /\
   after (reorder self) = set_rows (permute (rows self) new_order) self) /\
  (length new_order <> length (rows self) ->
   raised (reorder self) = Some AssertionError /\ after (reorder self) = self).
Proof.
  intros new_order. unfold reorder.
  pose proof (reorder_known_fst (rows self) (boot_order self) []) as Hk.
  destruct (reorder_known (rows self) (boot_order self) []) as [known log1].
  simpl in Hk. subst known.
  pose proof (reorder_missing_fst (rows self) 0
                (known_indices (rows self) (boot_order self))) as Hm.
  destruct (reorder_missing 0 (rows self) _) as [no log2].
  simpl in Hm. fold (missing_indices (length (rows self))
                       (known_indices (rows self) (boot_order self))) in Hm.
  fold (reconciled (rows self) (boot_order self)) in Hm. subst no.
  fold new_order. split; intros H.
  - apply Nat.eqb_eq in H. rewrite H. auto.
  - apply Nat.eqb_neq in H. rewrite H. auto.
Qed.

Lemma index_num_Some (rs : list Row) (num : str) (i : nat) :
  index_num rs num = Some i ->
  exists r, nth_error rs i = Some r /\ ROW_NUM r = num.
Proof.
  revert i; induction rs as [|row rs IH]; intros i; simpl; [discriminate|].
  destruct (str_eqb (ROW_NUM row) num) eqn:E.
  - intros H; injection H as <-. apply str_eqb_eq in E.
    exists row; auto.
  - destruct (index_num rs num) as [j|]; [|discriminate].
    intros H; injection H as <-. apply IH. reflexivity.
Qed.

Lemma index_num_None (rs : list Row) (num : str) (r : Row) :
  index_num rs num = None -> In r rs -> ROW_NUM r <> num.
Proof.
  induction rs as [|row rs IH]; simpl; [tauto|].
  destruct (str_eqb (ROW_NUM row) num) eqn:E; [discriminate|].
  destruct (index_num rs num); [discriminate|].
  intros _ [<- | H]; [apply str_eqb_neq; auto | auto].
Qed.

Lemma permute_In (rs : list Row) (new_order : list nat) (r : Row) :
  In r (permute rs new_order) -> In r rs.
Proof.
  unfold permute. intros H. apply in_flat_map in H as (i & _ & H).
  destruct (nth_error rs i) as [r'|] eqn:E; [|destruct H].
  destruct H as [<- | []]. eapply nth_error_In; eauto.
Qed.

Lemma permute_length (rs : list Row) (new_order : list nat) :
  Forall (fun i => i < length rs) new_order ->
  length (permute rs new_order) = length new_order.
Proof.
  unfold permute. induction 1 as [|i l Hi _ IH]; simpl; auto.
  apply nth_error_Some in Hi. destruct (nth_error rs i); [|congruence].
  simpl. rewrite IH. reflexivity.
Qed.

(** The rows the boot order names come out in boot order: their numbers
    are the boot order without its stale ids. *)
Lemma permute_known (rs : list Row) (order : list str) :
  map ROW_NUM (permute rs (known_indices rs order)) =
  filter (fun b => is_some (index_num rs b)) order.
Proof.
  unfold permute, known_indices.
  induction order as [|b order IH]; simpl; auto.
  rewrite flat_map_app, map_app, IH.
  destruct (index_num rs b) as [i|] eqn:E; simpl; auto.
  apply index_num_Some in E as (r & -> & <-). reflexivity.
Qed.

Lemma known_indices_lt (rs : list Row) (order : list str) :
  Forall (fun i => i < length rs) (known_indices rs order).
Proof.
  apply Forall_forall. intros i H. unfold known_indices in H.
  apply in_flat_map in H as (b & _ & H).
  destruct (index_num rs b) as [j|] eqn:E; [|destruct H].
  destruct H as [<- | []].
  apply index_num_Some in E as (r & E & _).
  apply nth_error_Some. congruence.
Qed.

Lemma missing_indices_lt (n : nat) (known : list nat) :
  Forall (fun i => i < n) (missing_indices n known).
Proof.
  apply Forall_forall. intros i H. unfold missing_indices in H.
  apply filter_In in H as [H _]. apply in_seq in H. lia.
Qed.

Lemma reconciled_lt (rs : list Row) (order : list str) :
  Forall (fun i => i < length rs) (reconciled rs order).
Proof.
  apply Forall_app. split;
    [apply known_indices_lt | apply missing_indices_lt].
Qed.

(** Every position is in the reconciliation. *)
Lemma reconciled_covers (rs : list Row) (order : list str) :
  incl (seq 0 (length rs)) (reconciled rs order).
Proof.
  intros i Hi. unfold reconciled. apply in_or_app.
  destruct (existsb (Nat.eqb i) (known_indices rs order)) eqn:E.
  - left. apply existsb_exists in E as (j & Hj & E).
    apply Nat.eqb_eq in E; subst; auto.
  - right. unfold missing_indices. apply filter_In. rewrite E. auto.
Qed.

(** When the length check passes, the reconciliation is a permutation
    of the positions, and the rows after [reorder] a permutation of the
    rows before. *)
Lemma reconciled_NoDup (rs : list Row) (order : list str) :
  length (reconciled rs order) = length rs -> NoDup (reconciled rs order).
Proof.
  intros H. apply NoDup_incl_NoDup with (l := seq 0 (length rs)).
  - apply seq_NoDup.
  - rewrite length_seq. lia.
  - apply reconciled_covers.
Qed.

Lemma reconciled_Permutation (rs : list Row) (order : list str) :
  length (reconciled rs order) = length rs ->
  Permutation (reconciled rs order) (seq 0 (length rs)).
Proof.
  intros H. symmetry. apply NoDup_Permutation_bis.
  - apply seq_NoDup.
  - rewrite length_seq. lia.
  - apply reconciled_covers.
Qed.

Lemma permute_seq_from (pre rs : list Row) :
  permute (pre ++ rs) (seq (length pre) (length rs)) = rs.
Proof.
  unfold permute. revert pre; induction rs as [|r rs IH]; intros pre; simpl.
  - reflexivity.
  - rewrite nth_error_app2, Nat.sub_diag by lia. simpl. f_equal.
    specialize (IH (pre ++ [r])).
    rewrite <- app_assoc, length_app, Nat.add_1_r in IH. exact IH.
Qed.

Lemma permute_seq (rs : list Row) : permute rs (seq 0 (length rs)) = rs.
Proof. apply (permute_seq_from [] rs). Qed.

(** What [reorder] achieves when its check passes: the rows are
    rearranged, none lost or repeated; the rows the boot order names come
    first, in boot order, and the others follow in listing order. *)
Lemma reorder_when_check_passes (self : EFIStore) :
  raised (reorder self) = None ->
  rows (after (reorder self)) =
    permute (rows self) (known_indices (rows self) (boot_order self)) ++
    permute (rows self)
      (missing_indices (length (rows self))
         (known_indices (rows self) (boot_order self))) /\
  Permutation (rows (after (reorder self))) (rows self) /\
  length (rows (after (reorder self))) = length (rows self).
Proof.
  intros H.
  destruct (reorder_reconciled self) as [Hok Hbad].
  destruct (Nat.eq_dec (length (reconciled (rows self) (boot_order self)))
              (length (rows self))) as [E | E].
  - destruct (Hok E) as [_ ->]. simpl.
    assert (P : Permutation
                  (permute (rows self)
                     (reconciled (rows self) (boot_order self)))
                  (rows self)).
    { apply perm_trans
        with (permute (rows self) (seq 0 (length (rows self))));
        [|rewrite permute_seq; reflexivity].
      unfold permute.
      apply Permutation_flat_map. apply reconciled_Permutation; auto. }
    split; [|split; [exact P | apply Permutation_length; exact P]].
    unfold reconciled, permute. apply flat_map_app.
  - destruct (Hbad E) as [Hr _]. congruence.
Qed.

(** C2: the reconciliation misses the case of an id that occurs twice in
    the boot order. With BootOrder 0002,0002 and the entries 0001 and
    0002 the new order is 1,1,0: three positions for two rows, so the
    assertion of [reorder] fails and [refresh] ends with
    [AssertionError], the rows left in listing order. Besides, only the
    rows are reconciled: with BootOrder 0001,0002,0003 and the entries
    0001 and 0003, [self.boot_order] keeps the stale 0002 and has three
    elements for two entries. *)
Theorem refresh_fails_on_repeated_boot_order_id :
  (let r := refresh (__init__ sda1)
              (Lines [lit "Timeout: 5 seconds"; lit "BootOrder: 0002,0002";
                      entry_line "0001" "A"; entry_line "0002" "B"]) in
   raised r = Some AssertionError /\
   reconciled (rows (after r)) (boot_order (after r)) = [1; 1; 0] /\
   map ROW_NUM (rows (after r)) = [lit "0001"; lit "0002"] /\
   boot_order (after r) = [lit "0002"; lit "0002"]) /\
  (let r := refresh (__init__ sda1)
              (Lines [lit "Timeout: 5 seconds";
                      lit "BootOrder: 0001,0002,0003";
                      entry_line "0001" "A"; entry_line "0003" "C"]) in
   raised r = None /\
   map ROW_NUM (rows (after r)) = [lit "0001"; lit "0003"] /\
   boot_order (after r) = [lit "0001"; lit "0002"; lit "0003"] /\
   logged r = [Warning "reorder"
                 "%s is in BootOrder, but it's not in the list"
                 [AStr (lit "0002")]]).
Proof. repeat split; vm_compute; reflexivity. Qed.

(** ** Moving a row after a refresh *)

Lemma known_indices_all (rs : list Row) (order : list str) :
  (forall x, In x order -> index_num rs x <> None) ->
  map Some (known_indices rs order) = map (index_num rs) order.
Proof.
  unfold known_indices. induction order as [|b order IH]; intros H; simpl.
  - reflexivity.
  - rewrite map_app, IH by (intros x Hx; apply H; right; auto).
    destruct (index_num rs b) eqn:E; [reflexivity|].
    exfalso. apply (H b); [left; reflexivity | exact E].
Qed.

Lemma In_index_num (rs : list Row) (r : Row) :
  In r rs -> index_num rs (ROW_NUM r) <> None.
Proof.
  intros Hin E. eapply index_num_None; eauto.
Qed.

(** After a reconciliation that passed its check, exchanging two rows
    never gives back the boot order that was read. *)
Lemma swap_changes_reconciled_order (rs : list Row) (order : list str)
    (a b : nat) :
  length (reconciled rs order) = length rs ->
  a < length rs -> b < length rs -> a <> b ->
  map ROW_NUM (swap_rows a b (permute rs (reconciled rs order))) <> order.
Proof.
  intros Hlen Ha Hb Hab E.
  set (rows' := permute rs (reconciled rs order)) in *.
  assert (Hrows : length rows' = length rs).
  { unfold rows'. rewrite permute_length by apply reconciled_lt. exact Hlen. }
  (* every id of the boot order has a row *)
  assert (Hall : forall x, In x order -> index_num rs x <> None).
  { intros x Hx. rewrite <- E in Hx.
    apply in_map_iff in Hx as (r & <- & Hr).
    apply In_index_num. apply (permute_In rs (reconciled rs order)).
    eapply Permutation_in; [apply swap_rows_perm | exact Hr]. }
  pose proof (known_indices_all rs order Hall) as HK.
  assert (Hord : length order = length rs).
  { rewrite <- E, length_map, swap_rows_length. exact Hrows. }
  assert (HKlen : length (known_indices rs order) = length rs).
  { rewrite <- Hord, <- (length_map Some), HK, length_map. reflexivity. }
  (* so nothing was missing *)
  assert (Hrec : reconciled rs order = known_indices rs order).
  { unfold reconciled in *. rewrite length_app, HKlen in Hlen.
    destruct (missing_indices _ _); [apply app_nil_r | simpl in Hlen; lia]. }
  (* and the rows were in boot order *)
  assert (Hnums : map ROW_NUM rows' = order).
  { unfold rows'. rewrite Hrec, permute_known.
    apply forallb_filter_id. apply forallb_forall. intros x Hx.
    specialize (Hall x Hx). destruct (index_num rs x); [reflexivity|congruence]. }
  (* the two positions hold the same id *)
  assert (Hsame : nth_error order a = nth_error order b).
  { transitivity (nth_error (map ROW_NUM (swap_rows a b rows')) a);
      [rewrite E; reflexivity|].
    rewrite nth_error_map, swap_rows_nth by lia.
    rewrite <- nth_error_map, Hnums. reflexivity. }
  (* hence the same position of the listing, twice in a duplicate-free list *)
  assert (HKsame : nth_error (known_indices rs order) a
                   = nth_error (known_indices rs order) b).
  { assert (H : nth_error (map Some (known_indices rs order)) a
                = nth_error (map Some (known_indices rs order)) b)
      by (rewrite HK, !nth_error_map, Hsame; reflexivity).
    rewrite !nth_error_map in H.
    destruct (nth_error (known_indices rs order) a),
             (nth_error (known_indices rs order) b);
      simpl in H; congruence. }
  pose proof (reconciled_NoDup rs order Hlen) as Hnd. rewrite Hrec in Hnd.
  apply Hab. eapply NoDup_nth_error; eauto. lia.
Qed.

(** ** Pending changes *)

Lemma nonempty_nil {A} (l : list A) : nonempty l = true <-> l <> [].
Proof. destruct l; simpl; split; congruence. Qed.

Lemma negb_eqb_neq {A} (eqb : A -> A -> bool) (x y : A) :
  (eqb x y = true <-> x = y) -> negb (eqb x y) = true <-> x <> y.
Proof.
  intros H. destruct (eqb x y); simpl; split; intros; try congruence.
  - exfalso. apply H0, H. reflexivity.
  - intros E. apply H in E. discriminate.
Qed.

(** [pending_changes] is true exactly when one of the seven comparisons
    of the source is. *)
Lemma pending_changes_iff (self : EFIStore) :
  pending_changes self = true <->
  boot_order self <> boot_order_initial self \/
  boot_next self <> boot_next_initial self \/
  timeout self <> timeout_initial self \/
  boot_add self <> [] \/ boot_remove self <> [] \/
  boot_active self <> [] \/ boot_inactive self <> [].
Proof.
  unfold pending_changes. rewrite !orb_true_iff, !nonempty_nil.
  rewrite (negb_eqb_neq opt_eqb _ _ (opt_eqb_eq _ _)).
  rewrite (negb_eqb_neq list_eqb _ _ (list_eqb_eq _ _)).
  rewrite (negb_eqb_neq optZ_eqb _ _ (optZ_eqb_eq _ _)).
  split; intros H.
  - destruct H as [[[[[[H|H]|H]|H]|H]|H]|H]; auto 10.
  - destruct H as [H|[H|[H|[H|[H|[H|H]]]]]]; auto 10.
Qed.

(** *** The store just after a successful refresh *)

Lemma refresh_ok_inv (self : EFIStore) (run : efibootmgr_run) :
  raised (refresh self run) = None ->
  exists (d : parsed_efi) (boot : list str) (log : list event) (v : Z),
    run = Lines boot /\ parse_efibootmgr boot = (Ok d, log) /\
    p_timeout d = Some v /\
    let l := load (clear self) d in
    length (reconciled (rows l) (boot_order l)) = length (rows l) /\
    after (refresh self run) =
    set_rows (permute (rows l) (reconciled (rows l) (boot_order l)))
      (timeout_spin_set_value v l).
Proof.
  unfold refresh. destruct run as [boot| |]; try discriminate.
  destruct (parse_efibootmgr boot) as [[d|e] log] eqn:Hp; [|discriminate].
  change (timeout (load (clear self) d)) with (p_timeout d).
  destruct (p_timeout d) as [v|] eqn:Ht; [|discriminate].
  destruct (Z.leb float_overflow (Z.abs v)); [discriminate|].
  cbn [raised after]. intros H.
  exists d, boot, log, v. split; [reflexivity|]. split; [exact Hp|].
  split; [exact Ht|].
  set (l := load (clear self) d) in *.
  set (l' := timeout_spin_set_value v l) in *.
  assert (Hrows : rows l' = rows l /\ boot_order l' = boot_order l).
  { destruct (timeout_spin_set_value_frame v l) as (_ & Hr & Ho & _).
    fold l' in Hr, Ho. unfold boot_order. rewrite Hr, Ho. auto. }
  destruct Hrows as [Hr Ho].
  destruct (reorder_reconciled l') as [Hok Hbad].
  rewrite Hr, Ho in Hok, Hbad.
  destruct (Nat.eq_dec (length (reconciled (rows l) (boot_order l)))
              (length (rows l))) as [E | E].
  - destruct (Hok E) as [_ ->]. auto.
  - destruct (Hbad E) as [Hx _]. congruence.
Qed.

(** The entries of a parse are entries of lines. *)
Lemma parse_lines_entries (P : entry -> Prop) (boot : list str) :
  (forall line e log, parse_efibootmgr_line line = (Ok (Entry e), log) -> P e) ->
  forall (d0 d : parsed_efi) (log : list event),
    Forall P (p_entries d0) ->
    parse_lines boot d0 = (Ok d, log) -> Forall P (p_entries d).
Proof.
  intros HP. induction boot as [|line boot IH]; intros d0 d log H0 H.
  - injection H as <- _. exact H0.
  - simpl in H. apply bind_Ok_inv in H as (d1 & l1 & l2 & Hline & Hrest & _).
    apply (IH d1 d l2); [|exact Hrest].
    unfold try_except in Hline.
    destruct (parse_efibootmgr_line line) as [[kv|e] lg] eqn:Hpl;
      unfold bind, ret in Hline; simpl in Hline.
    + injection Hline as <- _.
      destruct kv; simpl; auto.
      apply Forall_app; split; auto. constructor; eauto.
    + destruct e as [args | obj | | | | ]; simpl in Hline;
        try discriminate.
      * destruct args as [|x [|a args]]; unfold raise in Hline;
          simpl in Hline; try discriminate.
        injection Hline as <- _; auto.
      * injection Hline as <- _; auto.
Qed.

Lemma hex_not_NEW (num : str) :
  forallb hex num = true -> startswith num (lit "NEW") = false.
Proof.
  destruct num as [|c num]; [reflexivity|]. simpl. intros H.
  apply andb_true_iff in H as [H _].
  destruct (N.eqb c 78) eqn:E; [|reflexivity].
  apply N.eqb_eq in E; subst c. discriminate H.
Qed.

(** The invariants of a store loaded by a successful refresh. *)
Lemma refresh_ok_clean (self : EFIStore) (run : efibootmgr_run) :
  raised (refresh self run) = None ->
  let clean := after (refresh self run) in
  boot_add clean = [] /\ boot_remove clean = [] /\
  boot_active clean = [] /\ boot_inactive clean = [] /\
  boot_next clean = boot_next_initial clean /\
  boot_order clean = boot_order_initial clean /\
  (forall row, In row (rows clean) ->
     startswith (ROW_NUM row) (lit "NEW") = false /\
     ROW_NEXT row = opt_eqb (Some (ROW_NUM row)) (boot_next_initial clean)) /\
  (forall a b, a < length (rows clean) -> b < length (rows clean) -> a <> b ->
     map ROW_NUM (swap_rows a b (rows clean)) <> boot_order_initial clean).
Proof.
  intros H clean.
  destruct (refresh_discards_staged self run)
    as (Ha & Hr & Hac & Hi & Hn & Ho).
  fold clean in Ha, Hr, Hac, Hi, Hn, Ho.
  do 6 (split; [assumption|]).
  destruct (refresh_ok_inv self run H)
    as (d & boot & log & v & -> & Hp & Ht & Hlen & E).
  set (l := load (clear self) d) in *.
  destruct (timeout_spin_set_value_frame v l)
    as (_ & _ & Hfo & _ & Hfn & _).
  assert (Erows : rows clean
                  = permute (rows l) (reconciled (rows l) (boot_order l)))
    by (unfold clean; rewrite E; reflexivity).
  assert (Enext : boot_next_initial clean = p_boot_next d)
    by (unfold clean; rewrite E; cbn [set_rows boot_next_initial];
        rewrite Hfn; reflexivity).
  assert (Eorder : boot_order_initial clean = boot_order l)
    by (unfold clean; rewrite E; unfold boot_order_initial;
        cbn [set_rows orders]; rewrite Hfo; reflexivity).
  rewrite Erows, Enext, Eorder. clear Ha Hr Hac Hi Hn Ho Erows Enext Eorder.
  split; [intros row H0; split|].
  - apply (permute_In (rows l)) in H0. unfold l, load in H0. simpl in H0.
    apply in_map_iff in H0 as (e & <- & He). simpl.
    apply hex_not_NEW.
    assert (HP : Forall (fun e => forallb hex (num e) = true) (p_entries d)).
    { eapply (parse_lines_entries _ boot); [| |exact Hp]; [|constructor].
      intros line e' lg Hl.
      destruct (parsed_entry_layout line e' lg Hl) as (_ & _ & _ & ? & _).
      auto. }
    rewrite Forall_forall in HP. auto.
  - apply (permute_In (rows l)) in H0. unfold l, load in H0. simpl in H0.
    apply in_map_iff in H0 as (e & <- & He). reflexivity.
  - intros a b Ha Hb Hab.
    assert (Hl : length (permute (rows l)
                           (reconciled (rows l) (boot_order l)))
                 = length (rows l))
      by (rewrite permute_length by apply reconciled_lt; exact Hlen).
    rewrite Hl in Ha, Hb.
    apply swap_changes_reconciled_order; auto.
Qed.

(** *** One edit from a clean store *)

Lemma pending_of_boot_add (s : EFIStore) :
  nonempty (boot_add s) = true -> pending_changes s = true.
Proof. unfold pending_changes. intros ->. rewrite !orb_true_r. reflexivity. Qed.

Lemma pending_of_boot_remove (s : EFIStore) :
  nonempty (boot_remove s) = true -> pending_changes s = true.
Proof. unfold pending_changes. intros ->. rewrite !orb_true_r. reflexivity. Qed.

Lemma pending_of_activation (s : EFIStore) :
  nonempty (boot_active s) || nonempty (boot_inactive s) = true ->
  pending_changes s = true.
Proof.
  unfold pending_changes. intros H. apply orb_true_iff in H as [-> | ->];
    rewrite !orb_true_r; reflexivity.
Qed.

Lemma nonempty_snoc {A} (l : list A) (x : A) : nonempty (l ++ [x]) = true.
Proof. destruct l; reflexivity. Qed.

(** The loop of [remove] never unstages a removal. *)
Lemma remove_loop_keeps_staged (num : str) (rs : list Row) :
  forall self : EFIStore,
    nonempty (boot_remove self) = true ->
    nonempty (boot_remove (after (remove_loop num rs self))) = true.
Proof.
  induction rs as [|row rs IH]; intros self H; simpl; auto.
  destruct (str_eqb (ROW_NUM row) num); auto.
  destruct (orders_remove num _).
  - apply IH. simpl. apply nonempty_snoc.
  - simpl. apply nonempty_snoc.
Qed.

(** A row carrying the number makes the loop stage a removal, whether
    or not [list.remove] raises afterwards. *)
Lemma remove_loop_stages (num : str) (rs : list Row) (row : Row) :
  In row rs -> ROW_NUM row = num ->
  forall self : EFIStore,
    nonempty (boot_remove (after (remove_loop num rs self))) = true.
Proof.
  intros Hin Hnum. induction rs as [|r rs IH]; intros self; [destruct Hin|].
  simpl. destruct (str_eqb (ROW_NUM r) num) eqn:E.
  - destruct (orders_remove num _).
    + apply remove_loop_keeps_staged. simpl. apply nonempty_snoc.
    + simpl. apply nonempty_snoc.
  - destruct Hin as [-> | Hin]; [|auto].
    rewrite Hnum, str_eqb_refl in E. discriminate.
Qed.

Lemma remove_baseline_pending (self : EFIStore) (i : nat) (row : Row) :
  nth_error (rows self) i = Some row ->
  startswith (ROW_NUM row) (lit "NEW") = false ->
  pending_changes (after (remove self i)) = true.
Proof.
  intros Hrow Hnew. unfold remove. rewrite Hrow, Hnew.
  pose proof (remove_loop_stages (ROW_NUM row) (rows self) row
                (nth_error_In _ _ Hrow) eq_refl self) as H.
  destruct (raised (remove_loop (ROW_NUM row) (rows self) self));
    apply pending_of_boot_remove; auto.
Qed.

(** Past the selected position the loop of [change_active] leaves the
    lists alone. *)
Lemma change_active_loop_past (rs : list Row) :
  forall (j selected : nat) (act inact : list str),
    selected < j ->
    snd (change_active_loop j selected rs act inact) = (act, inact).
Proof.
  induction rs as [|row rs IH]; intros j selected act inact H; simpl; auto.
  replace (Nat.eqb j selected) with false
    by (symmetry; apply Nat.eqb_neq; lia).
  specialize (IH (S j) selected act inact).
  destruct (change_active_loop (S j) selected rs act inact). simpl in *.
  apply IH. lia.
Qed.

Lemma change_active_loop_at (rs : list Row) :
  forall (j selected : nat) (act inact : list str) (row : Row),
    j <= selected -> nth_error rs (selected - j) = Some row ->
    snd (change_active_loop j selected rs act inact) =
    toggle_lists (set_ROW_ACTIVE (negb (ROW_ACTIVE row)) row) act inact.
Proof.
  induction rs as [|r rs IH]; intros j selected act inact row Hj Hrow.
  - destruct (selected - j); discriminate.
  - simpl. destruct (Nat.eqb j selected) eqn:E.
    + apply Nat.eqb_eq in E; subst j. rewrite Nat.sub_diag in Hrow.
      injection Hrow as ->.
      destruct (toggle_lists _ act inact) as [act' inact'].
      pose proof (change_active_loop_past rs (S selected) selected act' inact')
        as Hp.
      destruct (change_active_loop (S selected) selected rs act' inact').
      simpl in *. apply Hp. lia.
    + apply Nat.eqb_neq in E.
      specialize (IH (S j) selected act inact row).
      destruct (change_active_loop (S j) selected rs act inact). simpl in *.
      apply IH; [lia|].
      replace (selected - j) with (S (selected - S j)) in Hrow by lia.
      exact Hrow.
Qed.

Lemma toggle_lists_fresh (row : Row) :
  let (act, inact) := toggle_lists row [] [] in
  nonempty act || nonempty inact = true.
Proof. unfold toggle_lists. destruct (ROW_ACTIVE row); reflexivity. Qed.

Lemma change_active_pending (self : EFIStore) (i : nat) :
  boot_active self = [] -> boot_inactive self = [] ->
  i < length (rows self) ->
  pending_changes (change_active self i) = true.
Proof.
  intros Ha Hi Hlt. unfold change_active. rewrite Ha, Hi.
  destruct (nth_error (rows self) i) as [row|] eqn:E;
    [|apply nth_error_None in E; lia].
  pose proof (change_active_loop_at (rows self) 0 i [] [] row) as H.
  rewrite Nat.sub_0_r in H. specialize (H (Nat.le_0_l i) E).
  destruct (change_active_loop 0 i (rows self) [] []) as [rs [act inact]].
  simpl in H.
  pose proof (toggle_lists_fresh (set_ROW_ACTIVE (negb (ROW_ACTIVE row)) row))
    as Ht.
  rewrite <- H in Ht. apply pending_of_activation. exact Ht.
Qed.

Lemma change_boot_next_loop_past (rs : list Row) :
  forall (j selected : nat) (next : option str),
    selected < j ->
    snd (change_boot_next_loop j selected rs next) = next.
Proof.
  induction rs as [|row rs IH]; intros j selected next H; simpl; auto.
  replace (Nat.eqb j selected) with false
    by (symmetry; apply Nat.eqb_neq; lia).
  specialize (IH (S j) selected next).
  destruct (change_boot_next_loop (S j) selected rs next). simpl in *.
  apply IH. lia.
Qed.

(** [change_boot_next] on an existing row: the row becomes the next boot
    if it was not, and nothing is the next boot if it was. *)
Lemma change_boot_next_loop_at (rs : list Row) :
  forall (j selected : nat) (next : option str) (row : Row),
    j <= selected -> nth_error rs (selected - j) = Some row ->
    snd (change_boot_next_loop j selected rs next) =
    if ROW_NEXT row then None else Some (ROW_NUM row).
Proof.
  induction rs as [|r rs IH]; intros j selected next row Hj Hrow.
  - destruct (selected - j); discriminate.
  - simpl. destruct (Nat.eqb j selected) eqn:E.
    + apply Nat.eqb_eq in E; subst j. rewrite Nat.sub_diag in Hrow.
      injection Hrow as ->.
      match goal with
      | |- snd (let (_, _) := change_boot_next_loop _ _ _ ?n in _) = _ =>
          pose proof (change_boot_next_loop_past rs (S selected) selected n)
            as Hp;
          destruct (change_boot_next_loop (S selected) selected rs n)
      end.
      simpl in *. rewrite Hp by lia. destruct (ROW_NEXT row); reflexivity.
    + apply Nat.eqb_neq in E.
      specialize (IH (S j) selected next row).
      destruct (change_boot_next_loop (S j) selected rs next). simpl in *.
      apply IH; [lia|].
      replace (selected - j) with (S (selected - S j)) in Hrow by lia.
      exact Hrow.
Qed.

Lemma change_boot_next_pending (self : EFIStore) (i : nat) (row : Row) :
  nth_error (rows self) i = Some row ->
  ROW_NEXT row = opt_eqb (Some (ROW_NUM row)) (boot_next_initial self) ->
  pending_changes (change_boot_next self i) = true.
Proof.
  intros Hrow Hnext. unfold change_boot_next.
  pose proof (change_boot_next_loop_at (rows self) 0 i (boot_next self) row)
    as H.
  rewrite Nat.sub_0_r in H. specialize (H (Nat.le_0_l i) Hrow).
  destruct (change_boot_next_loop 0 i (rows self) (boot_next self))
    as [rs next].
  simpl in H. subst next.
  unfold pending_changes. simpl.
  replace (negb (opt_eqb (boot_next_initial self)
                   (if ROW_NEXT row then None else Some (ROW_NUM row))))
    with true; [reflexivity|].
  symmetry. apply negb_true_iff.
  destruct (ROW_NEXT row).
  - symmetry in Hnext. apply opt_eqb_eq in Hnext. rewrite <- Hnext.
    reflexivity.
  - destruct (opt_eqb (boot_next_initial self) (Some (ROW_NUM row))) eqn:E;
      [|reflexivity].
    apply opt_eqb_eq in E. rewrite E, opt_eqb_refl in Hnext. discriminate.
Qed.

Lemma swap_pending (self : EFIStore) (a b : nat) :
  map ROW_NUM (swap_rows a b (rows self)) <> boot_order_initial self ->
  pending_changes (swap self a b) = true.
Proof.
  intros H. unfold pending_changes, swap, boot_order, boot_order_initial.
  simpl.
  replace (list_eqb _ (map ROW_NUM (swap_rows a b (rows self)))) with false;
    [rewrite orb_true_r; reflexivity|].
  symmetry. destruct (list_eqb _ _) eqn:E; [|reflexivity].
  apply list_eqb_eq in E. exfalso. apply H. symmetry. exact E.
Qed.

Lemma change_timeout_pending (self : EFIStore) (v : Z) :
  Some v <> timeout_initial self ->
  pending_changes (change_timeout self v) = true.
Proof.
  intros H. unfold pending_changes, change_timeout.
  change (timeout (set_timeout (Some v) self)) with (Some v).
  change (timeout_initial (set_timeout (Some v) self))
    with (timeout_initial self).
  replace (optZ_eqb (Some v) (timeout_initial self)) with false;
    [cbn [negb]; apply orb_true_r|].
  symmetry. destruct (optZ_eqb _ _) eqn:E; [|reflexivity].
  apply optZ_eqb_eq in E. congruence.
Qed.

(** C5: [pending_changes] is true exactly when the boot order, the next
    boot or the timeout differs from its baseline or one of the four
    staging lists is not empty. It is not false after every refresh:
    with a timeout of 2000 seconds the spin button, whose range ends at
    999, takes 999 and hands it to [change_timeout], so that the store
    is left with the timeout 999 against the baseline 2000, a change
    pending and a script that sets the timeout to 999. It is false after
    a refresh whose snapshot has a timeout within the range of the
    button, or none; and from a store a successful refresh leaves with
    nothing pending, each single edit makes it true: an addition, the
    removal, the toggle or the next-boot choice of an existing row, the
    exchange of two different rows, and a timeout other than the one
    stored. *)
Theorem pending_changes_spec :
  (forall self : EFIStore,
      pending_changes self = true <->
      boot_order self <> boot_order_initial self \/
      boot_next self <> boot_next_initial self \/
      timeout self <> timeout_initial self \/
      boot_add self <> [] \/ boot_remove self <> [] \/
      boot_active self <> [] \/ boot_inactive self <> []) /\
  (let r := refresh (__init__ sda1)
              (Lines [lit "Timeout: 2000 seconds"; lit "BootOrder: 0001";
                      entry_line "0001" "A"]) in
   raised r = None /\
   timeout_initial (after r) = Some 2000%Z /\
   timeout (after r) = Some 999%Z /\
   pending_changes (after r) = true /\
   __str__ (after r)
   = lit "efibootmgr --disk /dev/sda --part 1 --timeout 999" ++ [NL]) /\
  (forall (self : EFIStore) (run : efibootmgr_run),
      (forall t, timeout_initial (after (refresh self run)) = Some t ->
                 (0 <= t <= 999)%Z) ->
      pending_changes (after (refresh self run)) = false) /\
  (forall (self : EFIStore) (run : efibootmgr_run),
      raised (refresh self run) = None ->
      let clean := after (refresh self run) in
      pending_changes clean = false ->
      (forall label path parameters : str,
          pending_changes (add clean label path parameters) = true) /\
      (forall i : nat,
          i < length (rows clean) ->
          pending_changes (after (remove clean i)) = true /\
          pending_changes (change_active clean i) = true /\
          pending_changes (change_boot_next clean i) = true) /\
      (forall a b : nat,
          a < length (rows clean) -> b < length (rows clean) -> a <> b ->
          pending_changes (swap clean a b) = true) /\
      (forall v : Z,
          Some v <> timeout clean ->
          pending_changes (change_timeout clean v) = true) /\
      (forall v : Z,
          spin_clamp v <> timeout_spin clean ->
          Some (spin_clamp v) <> timeout clean ->
          pending_changes (timeout_spin_set_value v clean) = true)).
Proof.
  split; [exact pending_changes_iff|].
  split; [repeat split; vm_compute; reflexivity|].
  split; [exact refresh_in_range_clean|].
  intros self run Hok clean Hclean.
  destruct (refresh_ok_clean self run Hok)
    as (Hadd & Hrem & Hact & Hinact & Hnext & Horder & Hrows & Hswap).
  fold clean in Hadd, Hrem, Hact, Hinact, Hnext, Horder, Hrows, Hswap.
  assert (Htime : timeout clean = timeout_initial clean).
  { pose proof (pending_changes_after_refresh self run) as P.
    cbv zeta in P. fold clean in P. rewrite Hclean in P.
    symmetry in P. apply negb_false_iff, optZ_eqb_eq in P. exact P. }
  split; [|split; [|split; [|split]]].
  - intros label path parameters. apply pending_of_boot_add.
    unfold add. simpl. apply nonempty_snoc.
  - intros i Hi.
    destruct (nth_error (rows clean) i) as [row|] eqn:E;
      [|apply nth_error_None in E; lia].
    destruct (Hrows row (nth_error_In _ _ E)) as [Hnew Hn].
    split; [|split].
    + eapply remove_baseline_pending; eauto.
    + apply change_active_pending; auto.
    + eapply change_boot_next_pending; eauto.
  - intros a b Ha Hb Hab. apply swap_pending. auto.
  - intros v Hv. apply change_timeout_pending. rewrite <- Htime. exact Hv.
  - intros v Hspin Hv. unfold timeout_spin_set_value.
    destruct (Z.eqb_spec (spin_clamp v) (timeout_spin clean)) as [E | _];
      [contradiction|].
    apply change_timeout_pending.
    change (timeout_initial (set_timeout_spin (spin_clamp v) clean))
      with (timeout_initial clean).
    rewrite <- Htime. exact Hv.
Qed.

Lemma pending_changes_spec_witness :
  let run := Lines [lit "BootCurrent: 0001"; lit "Timeout: 5 seconds";
                    lit "BootOrder: 0002,0009";
                    entry_line "0001" "A"; entry_line "0002" "B"] in
  let clean := after (refresh (__init__ sda1) run) in
  pending_changes clean = false /\
  map ROW_NUM (rows clean) = [lit "0002"; lit "0001"] /\
  pending_changes (add clean (lit "L") [] []) = true /\
  pending_changes (after (remove clean 1)) = true /\
  pending_changes (change_active clean 1) = true /\
  pending_changes (change_boot_next clean 1) = true /\
  pending_changes (swap clean 0 1) = true /\
  pending_changes (change_timeout clean 6) = true /\
  pending_changes (timeout_spin_set_value 2000 clean) = true.
Proof.
  intros run clean.
  destruct pending_changes_spec as (_ & _ & Hfalse & Hedit).
  assert (Hok : raised (refresh (__init__ sda1) run) = None)
    by (vm_compute; reflexivity).
  assert (Hclean : pending_changes clean = false).
  { apply Hfalse. intros t Ht. vm_compute in Ht. injection Ht as <-. lia. }
  destruct (Hedit (__init__ sda1) run Hok Hclean) as (Ha & Hi & Hs & Ht & Hv).
  fold clean in Ha, Hi, Hs, Ht, Hv.
  assert (Hlen : length (rows clean) = 2) by (vm_compute; reflexivity).
  destruct (Hi 1) as (Hr & Hc & Hn); [rewrite Hlen; lia|].
  split; [exact Hclean|].
  split; [vm_compute; reflexivity|].
  split; [apply Ha|].
  split; [exact Hr|]. split; [exact Hc|]. split; [exact Hn|].
  split; [|split].
  - apply Hs; rewrite ?Hlen; lia.
  - apply Ht. vm_compute. discriminate.
  - apply Hv; vm_compute; discriminate.
Defined.

(** * Further properties *)

(** ** The script and pending changes *)

Lemma list_eqb_sym (a b : list str) : list_eqb a b = list_eqb b a.
Proof.
  destruct (list_eqb a b) eqn:E.
  - apply list_eqb_eq in E; subst. symmetry. apply list_eqb_refl.
  - destruct (list_eqb b a) eqn:E'; [|reflexivity].
    apply list_eqb_eq in E'; subst. rewrite list_eqb_refl in E. discriminate.
Qed.

Lemma optZ_eqb_sym (a b : option Z) : optZ_eqb a b = optZ_eqb b a.
Proof.
  destruct a, b; simpl; auto. apply Z.eqb_sym.
Qed.

Lemma render_nonempty (esp : str) (c : command) : render esp c <> [].
Proof. unfold render. discriminate. Qed.

Lemma flat_map_render_nil (esp : str) (plan : list command) :
  flat_map (render esp) plan = [] <-> plan = [].
Proof.
  split; [|intros ->; reflexivity].
  destruct plan as [|c plan]; [reflexivity|]. cbn [flat_map]. intros H.
  apply app_eq_nil in H as [H _]. exfalso. eapply render_nonempty; eauto.
Qed.

Lemma spec_plan_nil (self : EFIStore) :
  spec_plan self = [] <-> pending_changes self = false.
Proof.
  unfold spec_plan, pending_changes.
  rewrite (list_eqb_sym (boot_order_initial self)).
  destruct (boot_remove self), (boot_add self), (boot_active self),
    (boot_inactive self),
    (list_eqb (boot_order self) (boot_order_initial self)),
    (opt_eqb (boot_next_initial self) (boot_next self)),
    (optZ_eqb (timeout self) (timeout_initial self)), (boot_next self);
    simpl; split; congruence.
Qed.

(** X1: the script is empty exactly when nothing is pending: the window
    asks for confirmation, and runs the script, only when there is one. *)
Theorem script_empty_iff_nothing_pending (self : EFIStore) :
  __str__ self = [] <-> pending_changes self = false.
Proof.
  rewrite str_is_rendered_plan, flat_map_render_nil. apply spec_plan_nil.
Qed.

(** ** Removal at the edges *)

Lemma list_remove_None (x : str) (l : list str) :
  mem x l = false -> list_remove x l = None.
Proof.
  unfold mem. induction l as [|y l IH]; simpl; [reflexivity|].
  intros H. apply orb_false_iff in H as [Hy Hl].
  replace (str_eqb y x) with false.
  - rewrite (IH Hl). reflexivity.
  - symmetry. apply str_eqb_neq. apply str_eqb_neq in Hy. congruence.
Qed.

Lemma orders_remove_None (num : str) (self : EFIStore) :
  mem num (boot_order self) = false -> orders_remove num (orders self) = None.
Proof.
  unfold boot_order, orders_remove. intros H.
  destruct (orders self); rewrite (list_remove_None _ _ H); reflexivity.
Qed.

Lemma remove_loop_orphan (num : str) (rs : list Row) (row : Row) :
  In row rs -> ROW_NUM row = num ->
  forall self : EFIStore,
    orders_remove num (orders self) = None ->
    remove_loop num rs self =
    {| after := set_boot_remove (boot_remove self ++ [num]) self;
       raised := Some (ValueError [AStr (lit "list.remove(x): x not in list")]);
       logged := [] |}.
Proof.
  intros Hin Hnum. induction rs as [|r rs IH]; intros self Ho; [destruct Hin|].
  simpl. destruct (str_eqb (ROW_NUM r) num) eqn:E.
  - simpl. rewrite Ho. reflexivity.
  - destruct Hin as [-> | Hin]; [|auto].
    rewrite Hnum, str_eqb_refl in E. discriminate.
Qed.

(** X2: removing an entry whose id is not in the boot order (an entry
    the firmware lists but BootOrder does not name) fails half way:
    [list.remove] raises [ValueError], the row stays in the list, and the
    removal is staged all the same. *)
Theorem remove_orphan_raises (self : EFIStore) (row_index : nat) (row : Row) :
  nth_error (rows self) row_index = Some row ->
  startswith (ROW_NUM row) (lit "NEW") = false ->
  mem (ROW_NUM row) (boot_order self) = false ->
  let r := remove self row_index in
  raised r = Some (ValueError [AStr (lit "list.remove(x): x not in list")]) /\
  rows (after r) = rows self /\
  orders (after r) = orders self /\
  boot_remove (after r) = boot_remove self ++ [ROW_NUM row] /\
  pending_changes (after r) = true.
Proof.
  intros Hrow Hnew Hmem r. unfold r, remove. rewrite Hrow, Hnew.
  rewrite (remove_loop_orphan (ROW_NUM row) (rows self) row
             (nth_error_In _ _ Hrow) eq_refl self
             (orders_remove_None _ _ Hmem)).
  simpl. repeat split.
  apply pending_of_boot_remove. simpl. apply nonempty_snoc.
Qed.

Lemma remove_orphan_raises_witness :
  let loaded :=
    after (refresh (__init__ sda1)
             (Lines [lit "Timeout: 5 seconds"; lit "BootOrder: 0001";
                     entry_line "0001" "A"; entry_line "0002" "B"])) in
  let r := remove loaded 1 in
  raised r = Some (ValueError [AStr (lit "list.remove(x): x not in list")]) /\
  rows (after r) = rows loaded /\
  orders (after r) = orders loaded /\
  boot_remove (after r) = [lit "0002"] /\
  pending_changes (after r) = true.
Proof.
  intros loaded r.
  destruct (nth_error (rows loaded) 1) as [row|] eqn:E;
    [|vm_compute in E; discriminate E].
  assert (Hnum : ROW_NUM row = lit "0002")
    by (vm_compute in E; injection E as <-; reflexivity).
  pose proof (remove_orphan_raises loaded 1 row E) as H.
  rewrite Hnum in H. apply H; vm_compute; reflexivity.
Defined.

(** X3: straight after a successful refresh that leaves nothing pending,
    removing an entry whose id is on one row only and is in the boot
    order gives a script of a single line, the deletion: the one list
    behind both the working and the baseline order loses the id, so no
    bootorder line is written. *)
Theorem remove_after_refresh_script (self : EFIStore) (run : efibootmgr_run)
    (row_index : nat) (row : Row) :
  raised (refresh self run) = None ->
  let clean := after (refresh self run) in
  pending_changes clean = false ->
  nth_error (rows clean) row_index = Some row ->
  length (filter (fun x => str_eqb (ROW_NUM x) (ROW_NUM row)) (rows clean)) = 1 ->
  mem (ROW_NUM row) (boot_order clean) = true ->
  let removed := after (remove clean row_index) in
  boot_order_initial removed = boot_order removed /\
  list_remove (ROW_NUM row) (boot_order clean) = Some (boot_order removed) /\
  __str__ removed =
  lit "efibootmgr " ++ esp self ++ lit " --delete-bootnum --bootnum " ++
  ROW_NUM row ++ [NL].
Proof.
  intros Hok clean Hclean Hrow Hone Hmem removed.
  destruct (refresh_ok_clean self run Hok)
    as (Hadd & Hrem & Hact & Hinact & Hnext & _ & Hrows & _).
  fold clean in Hadd, Hrem, Hact, Hinact, Hnext, Hrows.
  assert (Htime : timeout clean = timeout_initial clean).
  { pose proof (pending_changes_after_refresh self run) as P.
    cbv zeta in P. fold clean in P. rewrite Hclean in P.
    symmetry in P. apply negb_false_iff, optZ_eqb_eq in P. exact P. }
  destruct (Hrows row (nth_error_In _ _ Hrow)) as [Hnew _].
  assert (Hshared : exists l, orders clean = Shared l /\ esp clean = esp self).
  { destruct (refresh_ok_inv self run Hok)
      as (d & boot & log & v & _ & _ & _ & _ & E).
    destruct (timeout_spin_set_value_frame v (load (clear self) d))
      as (He & _ & Ho & _).
    unfold clean. rewrite E. cbn [set_rows orders esp]. rewrite He, Ho.
    simpl. eauto. }
  destruct Hshared as (l & Hsh & Hesp).
  assert (Hl : boot_order clean = l) by (unfold boot_order; rewrite Hsh; auto).
  rewrite Hl in Hmem.
  destruct (list_remove_mem _ _ Hmem) as [l' Hl'].
  assert (Ho : orders_remove (ROW_NUM row) (orders clean) = Some (Shared l'))
    by (rewrite Hsh; simpl; rewrite Hl'; reflexivity).
  assert (E : removed =
              set_rows (delete row_index (rows clean))
                (set_orders (Shared l')
                   (set_boot_remove (boot_remove clean ++ [ROW_NUM row]) clean))).
  { unfold removed, remove. rewrite Hrow, Hnew.
    rewrite (remove_loop_one (ROW_NUM row) (rows clean) clean (Shared l') Hone Ho).
    reflexivity. }
  rewrite E, Hl.
  split; [reflexivity|]. split; [exact Hl'|].
  unfold __str__, boot_order, boot_order_initial. simpl.
  rewrite Hrem, Hadd, Hact, Hinact, Hnext, Htime, Hesp.
  eqb_refl. simpl. reflexivity.
Qed.

Lemma remove_after_refresh_script_witness :
  let run := Lines [lit "Timeout: 5 seconds"; lit "BootOrder: 0001,0002";
                    entry_line "0001" "A"; entry_line "0002" "B"] in
  let removed := after (remove (after (refresh (__init__ sda1) run)) 1) in
  boot_order_initial removed = boot_order removed /\
  boot_order removed = [lit "0001"] /\
  __str__ removed =
  lit "efibootmgr --disk /dev/sda --part 1 --delete-bootnum --bootnum 0002" ++
  [NL].
Proof.
  intros run removed.
  set (clean := after (refresh (__init__ sda1) run)).
  destruct (nth_error (rows clean) 1) as [row|] eqn:E;
    [|vm_compute in E; discriminate E].
  assert (Hnum : ROW_NUM row = lit "0002")
    by (vm_compute in E; injection E as <-; reflexivity).
  destruct (remove_after_refresh_script (__init__ sda1) run 1 row)
    as (H1 & H2 & H3); try (rewrite ?Hnum; vm_compute; reflexivity).
  - exact E.
  - fold clean removed in H1, H2, H3. rewrite Hnum in H2, H3.
    split; [exact H1|]. split; [|exact H3].
    assert (HL : list_remove (lit "0002") (boot_order clean)
                 = Some [lit "0001"]) by (vm_compute; reflexivity).
    rewrite HL in H2.
    apply (f_equal (fun o => match o with Some l => l | None => [] end)) in H2.
    symmetry. exact H2.
Defined.

(** ** Toggling the active flag *)

Lemma change_active_loop_rows_past (rs : list Row) :
  forall (j selected : nat) (act inact : list str),
    selected < j ->
    fst (change_active_loop j selected rs act inact) = rs.
Proof.
  induction rs as [|row rs IH]; intros j selected act inact H; simpl; auto.
  replace (Nat.eqb j selected) with false
    by (symmetry; apply Nat.eqb_neq; lia).
  specialize (IH (S j) selected act inact).
  destruct (change_active_loop (S j) selected rs act inact). simpl in *.
  rewrite IH by lia. reflexivity.
Qed.

Lemma change_active_loop_rows_at (rs : list Row) :
  forall (j selected : nat) (act inact : list str) (row : Row),
    j <= selected -> nth_error rs (selected - j) = Some row ->
    fst (change_active_loop j selected rs act inact) =
    update (selected - j) (set_ROW_ACTIVE (negb (ROW_ACTIVE row)) row) rs.
Proof.
  induction rs as [|r rs IH]; intros j selected act inact row Hj Hrow.
  - destruct (selected - j); discriminate.
  - simpl. destruct (Nat.eqb j selected) eqn:E.
    + apply Nat.eqb_eq in E; subst j. rewrite Nat.sub_diag in *.
      injection Hrow as ->.
      destruct (toggle_lists _ act inact) as [act' inact'].
      pose proof (change_active_loop_rows_past rs (S selected) selected
                    act' inact') as Hp.
      destruct (change_active_loop (S selected) selected rs act' inact').
      simpl in *. rewrite Hp by lia. reflexivity.
    + apply Nat.eqb_neq in E.
      specialize (IH (S j) selected act inact row).
      destruct (change_active_loop (S j) selected rs act inact). simpl in *.
      replace (selected - j) with (S (selected - S j)) in * by lia.
      simpl. rewrite IH; auto. lia.
Qed.

(** [change_active] on an existing row: the row is flipped in place and
    the two lists are those of [toggle_lists]. *)
Lemma change_active_at (self : EFIStore) (i : nat) (row : Row) :
  nth_error (rows self) i = Some row ->
  let row' := set_ROW_ACTIVE (negb (ROW_ACTIVE row)) row in
  change_active self i =
  set_boot_inactive (snd (toggle_lists row' (boot_active self) (boot_inactive self)))
    (set_boot_active (fst (toggle_lists row' (boot_active self) (boot_inactive self)))
       (set_rows (update i row' (rows self)) self)).
Proof.
  intros Hrow row'. unfold change_active.
  pose proof (change_active_loop_rows_at (rows self) 0 i (boot_active self)
                (boot_inactive self) row (Nat.le_0_l i)) as Hr.
  pose proof (change_active_loop_at (rows self) 0 i (boot_active self)
                (boot_inactive self) row (Nat.le_0_l i)) as Hl.
  rewrite Nat.sub_0_r in Hr, Hl. specialize (Hr Hrow). specialize (Hl Hrow).
  destruct (change_active_loop 0 i (rows self) _ _) as [rs [act inact]].
  simpl in Hr, Hl. subst rs. fold row' in Hl. rewrite <- Hl. reflexivity.
Qed.

Lemma change_active_out_of_range (self : EFIStore) (i : nat) :
  length (rows self) <= i -> change_active self i = self.
Proof.
  intros H. unfold change_active.
  assert (G : forall rs j act inact,
             j + length rs <= i ->
             change_active_loop j i rs act inact = (rs, (act, inact))).
  { induction rs as [|r rs IH]; intros j act inact Hj; simpl in *; auto.
    replace (Nat.eqb j i) with false by (symmetry; apply Nat.eqb_neq; lia).
    rewrite IH by lia. reflexivity. }
  rewrite G by (simpl; lia). destruct self; reflexivity.
Qed.

Lemma list_discard_snoc (x : str) (l : list str) :
  mem x l = false -> list_discard x (l ++ [x]) = l.
Proof.
  unfold list_discard, mem. induction l as [|y l IH]; simpl; intros H.
  - rewrite str_eqb_refl. reflexivity.
  - apply orb_false_iff in H as [Hy Hl].
    replace (str_eqb y x) with false
      by (symmetry; apply str_eqb_neq; apply str_eqb_neq in Hy; congruence).
    specialize (IH Hl). destruct (list_remove x (l ++ [x])); simpl; congruence.
Qed.

Lemma mem_snoc_self (x : str) (l : list str) : mem x (l ++ [x]) = true.
Proof. apply mem_In. apply in_or_app. right. left. reflexivity. Qed.

Lemma update_update {A} (i : nat) (x y : A) (l : list A) :
  update i x (update i y l) = update i x l.
Proof.
  revert i; induction l as [|z l IH]; intros [|i]; simpl; auto.
  rewrite IH. reflexivity.
Qed.

(** X4: toggling the active flag of a row twice leaves the store exactly
    as it was, provided the id of the row was staged in neither list. *)
Theorem change_active_twice (self : EFIStore) (i : nat) (row : Row) :
  nth_error (rows self) i = Some row ->
  mem (ROW_NUM row) (boot_active self) = false ->
  mem (ROW_NUM row) (boot_inactive self) = false ->
  change_active (change_active self i) i = self.
Proof.
  intros Hrow Ha Hi.
  assert (Hlt : i < length (rows self))
    by (apply nth_error_Some; congruence).
  rewrite (change_active_at self i row Hrow).
  set (row' := set_ROW_ACTIVE (negb (ROW_ACTIVE row)) row).
  set (s1 := set_boot_inactive _ _).
  assert (Hrow1 : nth_error (rows s1) i = Some row').
  { unfold s1. simpl. rewrite nth_error_update by auto.
    rewrite Nat.eqb_refl. reflexivity. }
  rewrite (change_active_at s1 i row' Hrow1).
  assert (Hback : set_ROW_ACTIVE (negb (ROW_ACTIVE row')) row' = row)
    by (destruct row as [? ? ? ? ? []]; reflexivity).
  rewrite Hback.
  assert (Hlists :
            toggle_lists row (boot_active s1) (boot_inactive s1)
            = (boot_active self, boot_inactive self)).
  { unfold s1, toggle_lists, row'. simpl.
    destruct (ROW_ACTIVE row) eqn:Eact; simpl; rewrite ?Ha, ?Hi; simpl.
    - rewrite mem_snoc_self, list_discard_snoc by auto. reflexivity.
    - rewrite mem_snoc_self, list_discard_snoc by auto. reflexivity. }
  rewrite Hlists. unfold s1. simpl.
  rewrite update_update, update_same by auto.
  destruct self; reflexivity.
Qed.

Lemma change_active_twice_witness :
  let loaded :=
    after (refresh (__init__ sda1)
             (Lines [lit "Timeout: 5 seconds"; lit "BootOrder: 0001,0002";
                     entry_line "0001" "A"; entry_line "0002" "B"])) in
  change_active (change_active loaded 1) 1 = loaded.
Proof.
  intros loaded.
  destruct (nth_error (rows loaded) 1) as [row|] eqn:E;
    [|vm_compute in E; discriminate E].
  apply (change_active_twice loaded 1 row E); reflexivity.
Defined.

(** ** What every session keeps *)

Lemma new_num_NEW (n : nat) : startswith (new_num n) (lit "NEW") = true.
Proof.
  unfold new_num. cbn -[str_of_int]. destruct (str_of_int _); reflexivity.
Qed.

Lemma list_remove_In (x y : str) (l l' : list str) :
  list_remove x l = Some l' -> In y l' -> In y l.
Proof.
  revert l'; induction l as [|z l IH]; intros l'; simpl; [discriminate|].
  destruct (str_eqb z x).
  - intros H; injection H as <-. auto.
  - destruct (list_remove x l) as [l0|]; [|discriminate].
    simpl. intros H; injection H as <-. intros [-> | Hy]; eauto.
Qed.

Lemma list_discard_In (x y : str) (l : list str) :
  In y (list_discard x l) -> In y l.
Proof.
  unfold list_discard. destruct (list_remove x l) eqn:E; auto.
  eapply list_remove_In; eauto.
Qed.

Lemma toggle_lists_disjoint (row : Row) (act inact : list str) :
  disjoint act inact ->
  disjoint (fst (toggle_lists row act inact)) (snd (toggle_lists row act inact)).
Proof.
  unfold toggle_lists, disjoint. intros H.
  destruct (ROW_ACTIVE row).
  - destruct (mem (ROW_NUM row) inact) eqn:E; simpl; intros x Ha Hi.
    + eapply H; eauto. eapply list_discard_In; eauto.
    + apply in_app_or in Ha as [Ha | [<- | []]]; [eauto|].
      apply mem_In in Hi. congruence.
  - destruct (mem (ROW_NUM row) act) eqn:E; simpl; intros x Ha Hi.
    + eapply H; eauto. eapply list_discard_In; eauto.
    + apply in_app_or in Hi as [Hi | [<- | []]]; [eauto|].
      apply mem_In in Ha. congruence.
Qed.

(** The loop of [remove] changes the removals and the boot order only,
    and stages nothing but [num]. *)
Lemma remove_loop_frame (num : str) (rs : list Row) :
  forall self : EFIStore,
    let s := after (remove_loop num rs self) in
    rows s = rows self /\ boot_add s = boot_add self /\
    boot_active s = boot_active self /\
    boot_inactive s = boot_inactive self /\
    exists k, boot_remove s = boot_remove self ++ repeat num k.
Proof.
  induction rs as [|row rs IH]; intros self; simpl.
  - repeat split. exists 0. simpl. symmetry. apply app_nil_r.
  - destruct (str_eqb (ROW_NUM row) num); [|apply IH].
    destruct (orders_remove num _) as [o|].
    + destruct (IH (set_orders o
                      (set_boot_remove (boot_remove self ++ [num]) self)))
        as (H1 & H2 & H3 & H4 & k & H5).
      repeat split; auto. exists (S k). rewrite H5. simpl.
      rewrite <- app_assoc. reflexivity.
    + simpl. repeat split. exists 1. reflexivity.
Qed.

Lemma refresh_resets (self : EFIStore) (run : efibootmgr_run) :
  let s := after (refresh self run) in
  boot_add s = [] /\ boot_remove s = [] /\
  boot_active s = [] /\ boot_inactive s = [].
Proof.
  destruct (refresh_discards_staged self run) as (? & ? & ? & ? & _).
  auto.
Qed.

Lemma Forall_filter {A} (P : A -> Prop) (f : A -> bool) (l : list A) :
  Forall P l -> Forall P (filter f l).
Proof.
  induction 1 as [|x l Hx _ IH]; simpl; [constructor|].
  destruct (f x); auto.
Qed.

Lemma Forall_repeat {A} (P : A -> Prop) (x : A) (k : nat) :
  P x -> Forall P (repeat x k).
Proof. intros H. induction k; simpl; constructor; auto. Qed.

(** X5: whatever the user does, in any order and whatever the external
    commands answer, no id is staged both for activation and for
    deactivation, every staged addition carries a placeholder id
    (NEW...), and no staged removal does. *)
Theorem session_invariant (esp : str) (edits : list edit) :
  let s := session esp edits in
  disjoint (boot_active s) (boot_inactive s) /\
  Forall (fun entry => startswith (fst (fst (fst entry))) (lit "NEW") = true)
         (boot_add s) /\
  Forall (fun id => startswith id (lit "NEW") = false) (boot_remove s).
Proof.
  unfold session.
  set (inv := fun s : EFIStore =>
         disjoint (boot_active s) (boot_inactive s) /\
         Forall (fun entry => startswith (fst (fst (fst entry))) (lit "NEW") = true)
                (boot_add s) /\
         Forall (fun id => startswith id (lit "NEW") = false) (boot_remove s)).
  assert (Hreset : forall s, boot_add s = [] -> boot_remove s = [] ->
                             boot_active s = [] -> inv s).
  { intros s Ha Hr Hact. unfold inv, disjoint. rewrite Ha, Hr, Hact.
    repeat split; auto. }
  assert (Hstep : forall e s, inv s -> inv (perform s e)).
  { intros e s (Hd & Ha & Hr).
    destruct e as [run | label path parameters | i | i | i | v | sel | sel
                  | pk run]; simpl.
    - destruct (refresh_resets s run) as (? & ? & ? & ?). apply Hreset; auto.
    - unfold inv, add. simpl. repeat split; auto.
      apply Forall_app. split; auto.
      constructor; [apply new_num_NEW | constructor].
    - unfold remove. destruct (nth_error (rows s) i) as [row|]; simpl;
        [|unfold inv; auto].
      destruct (startswith (ROW_NUM row) (lit "NEW")) eqn:Hnew; simpl.
      + unfold inv. simpl. repeat split; auto. apply Forall_filter. auto.
      + destruct (remove_loop_frame (ROW_NUM row) (rows s) s)
          as (_ & H2 & H3 & H4 & k & H5).
        destruct (raised (remove_loop (ROW_NUM row) (rows s) s));
          unfold inv; simpl; rewrite H2, H3, H4, H5;
          repeat split; auto; apply Forall_app; split; auto;
          apply Forall_repeat; auto.
    - destruct (nth_error (rows s) i) as [row|] eqn:E.
      + rewrite (change_active_at s i row E). unfold inv. simpl.
        repeat split; auto. apply toggle_lists_disjoint. auto.
      + rewrite change_active_out_of_range by (apply nth_error_None; auto).
        unfold inv; auto.
    - unfold change_boot_next.
      destruct (change_boot_next_loop 0 i (rows s) (boot_next s)).
      unfold inv; auto.
    - destruct (timeout_spin_set_value_frame v s)
        as (_ & _ & _ & _ & _ & E1 & E2 & E3 & E4 & _).
      unfold inv. rewrite E1, E2, E3, E4. auto.
    - destruct sel as [[|p]|]; unfold inv; auto.
    - destruct sel as [i|]; simpl; [|unfold inv; auto].
      destruct (Nat.ltb (S i) (length (rows s))); unfold inv; auto.
    - destruct pk; simpl; [|unfold inv; auto].
      destruct (refresh_resets s run) as (? & ? & ? & ?). apply Hreset; auto. }
  assert (Hfold : forall es s, inv s -> inv (fold_left perform es s)).
  { induction es as [|e es IH]; intros s Hs; simpl; auto. }
  apply Hfold. apply Hreset; reflexivity.
Qed.

(** ** Choosing the next boot *)

Lemma change_boot_next_loop_nth (rs : list Row) :
  forall (j selected k : nat) (next : option str),
    nth_error (fst (change_boot_next_loop j selected rs next)) k =
    option_map (fun row => if Nat.eqb (j + k) selected
                           then set_ROW_NEXT (negb (ROW_NEXT row)) row
                           else set_ROW_NEXT false row)
               (nth_error rs k).
Proof.
  induction rs as [|r rs IH]; intros j selected k next; simpl.
  - destruct k; reflexivity.
  - destruct (Nat.eqb j selected) eqn:E.
    + match goal with
      | |- context [change_boot_next_loop (S j) selected rs ?n] =>
          specialize (IH (S j) selected (pred k) n);
          destruct (change_boot_next_loop (S j) selected rs n)
      end.
      destruct k as [|k]; simpl in *.
      * rewrite Nat.add_0_r, E. reflexivity.
      * rewrite IH. replace (j + S k) with (S (j + k)) by lia. reflexivity.
    + specialize (IH (S j) selected (pred k) next).
      destruct (change_boot_next_loop (S j) selected rs next).
      destruct k as [|k]; simpl in *.
      * rewrite Nat.add_0_r, E. reflexivity.
      * rewrite IH. replace (j + S k) with (S (j + k)) by lia. reflexivity.
Qed.

(** X6: the next-boot column is a radio button. After [change_boot_next]
    on an existing row, a row marked as next boot can only be the selected
    one, and [boot_next] is then its id; if [boot_next] is empty no row
    is marked. *)
Theorem change_boot_next_radio (self : EFIStore) (i : nat) :
  i < length (rows self) ->
  let s := change_boot_next self i in
  (forall (k : nat) (row : Row),
      nth_error (rows s) k = Some row -> ROW_NEXT row = true ->
      k = i /\ boot_next s = Some (ROW_NUM row)) /\
  (boot_next s = None ->
   forall row : Row, In row (rows s) -> ROW_NEXT row = false) /\
  length (rows s) = length (rows self).
Proof.
  intros Hi s.
  destruct (nth_error (rows self) i) as [sel|] eqn:Esel;
    [|apply nth_error_None in Esel; lia].
  pose proof (change_boot_next_loop_nth (rows self) 0 i) as Hnth.
  pose proof (change_boot_next_loop_at (rows self) 0 i (boot_next self) sel
                (Nat.le_0_l i)) as Hnext.
  rewrite Nat.sub_0_r in Hnext. specialize (Hnext Esel).
  unfold s, change_boot_next.
  destruct (change_boot_next_loop 0 i (rows self) (boot_next self))
    as [rs next] eqn:El.
  simpl in Hnext. subst next. simpl.
  assert (Hk : forall k row, nth_error rs k = Some row -> ROW_NEXT row = true ->
                 k = i /\ ROW_NEXT sel = false /\ ROW_NUM row = ROW_NUM sel).
  { intros k row Hk Hn. specialize (Hnth k (boot_next self)).
    rewrite El in Hnth. simpl in Hnth. rewrite Hk in Hnth.
    destruct (nth_error (rows self) k) as [r|] eqn:Er; [|discriminate].
    simpl in Hnth. destruct (Nat.eqb k i) eqn:E.
    - apply Nat.eqb_eq in E; subst k. rewrite Esel in Er. injection Er as <-.
      injection Hnth as ->. simpl in Hn.
      split; [reflexivity|]. split; [|reflexivity].
      destruct (ROW_NEXT sel); [discriminate|reflexivity].
    - injection Hnth as ->. simpl in Hn. discriminate. }
  split; [|split].
  - intros k row Hrow Hn. destruct (Hk k row Hrow Hn) as (-> & Hs & Hnum).
    rewrite Hs, Hnum. auto.
  - intros Hnone row Hin. apply In_nth_error in Hin as [k Hrow].
    destruct (ROW_NEXT row) eqn:Hn; [|reflexivity].
    destruct (Hk k row Hrow Hn) as (_ & Hs & _). rewrite Hs in Hnone.
    discriminate.
  - assert (Hlen : forall k, k < length rs <-> k < length (rows self)).
    { intros k. rewrite <- !nth_error_Some.
      specialize (Hnth k (boot_next self)). rewrite El in Hnth. simpl in Hnth.
      rewrite Hnth. destruct (nth_error (rows self) k); simpl;
        split; congruence. }
    destruct (Nat.lt_trichotomy (length rs) (length (rows self)))
      as [H | [H | H]]; [|exact H|].
    + apply Hlen in H. lia.
    + apply Hlen in H. lia.
Qed.

Lemma change_boot_next_radio_witness :
  let loaded :=
    after (refresh (__init__ sda1)
             (Lines [lit "BootNext: 0001"; lit "Timeout: 5 seconds";
                     lit "BootOrder: 0001,0002";
                     entry_line "0001" "A"; entry_line "0002" "B"])) in
  let s := change_boot_next loaded 1 in
  (forall (k : nat) (row : Row),
      nth_error (rows s) k = Some row -> ROW_NEXT row = true ->
      k = 1 /\ boot_next s = Some (ROW_NUM row)) /\
  boot_next s = Some (lit "0002").
Proof.
  intros loaded s.
  destruct (change_boot_next_radio loaded 1) as (H & _).
  - vm_compute. lia.
  - split; [exact H | vm_compute; reflexivity].
Defined.

(** ** Moving a row up and down *)

Lemma swap_rows_nth_all (a b k : nat) (rs : list Row) :
  a < length rs -> b < length rs ->
  nth_error (swap_rows a b rs) k =
  if Nat.eqb k a then nth_error rs b
  else if Nat.eqb k b then nth_error rs a
  else nth_error rs k.
Proof.
  intros Ha Hb. unfold swap_rows.
  destruct (nth_error rs a) as [ra|] eqn:Ea;
    [|apply nth_error_None in Ea; lia].
  destruct (nth_error rs b) as [rb|] eqn:Eb;
    [|apply nth_error_None in Eb; lia].
  rewrite nth_error_update by (rewrite update_length; auto).
  rewrite nth_error_update by auto.
  destruct (Nat.eqb k a) eqn:Eka, (Nat.eqb k b) eqn:Ekb; auto.
  apply Nat.eqb_eq in Eka, Ekb. subst. congruence.
Qed.

Lemma swap_rows_involutive (a b : nat) (rs : list Row) :
  a < length rs -> b < length rs -> swap_rows a b (swap_rows a b rs) = rs.
Proof.
  intros Ha Hb. apply nth_error_ext. intros k.
  rewrite swap_rows_nth_all by (rewrite swap_rows_length; auto).
  rewrite !swap_rows_nth_all by auto.
  rewrite !Nat.eqb_refl.
  destruct (Nat.eqb k a) eqn:Eka, (Nat.eqb k b) eqn:Ekb,
           (Nat.eqb b a) eqn:Eba, (Nat.eqb a b) eqn:Eab;
    try apply Nat.eqb_eq in Eka; try apply Nat.eqb_eq in Ekb;
    try apply Nat.eqb_eq in Eba; try apply Nat.eqb_eq in Eab;
    subst; auto.
Qed.

Lemma swap_rows_comm (a b : nat) (rs : list Row) :
  a < length rs -> b < length rs -> swap_rows a b rs = swap_rows b a rs.
Proof.
  intros Ha Hb. apply nth_error_ext. intros k.
  rewrite !swap_rows_nth_all by auto.
  destruct (Nat.eqb k a) eqn:Eka, (Nat.eqb k b) eqn:Ekb; auto.
  apply Nat.eqb_eq in Eka, Ekb. subst. reflexivity.
Qed.

(** X7: the up and down buttons. At the first (last) row, or without a
    selection, up (down) leaves the store alone; elsewhere the selected
    row changes places with its neighbour and nothing else moves, no row
    is lost, and the boot order becomes the ids of the rows as displayed;
    moving a row down and then up again puts the rows back. *)
Theorem move_selected_row (self : EFIStore) (i : nat) :
  S i < length (rows self) ->
  let n := length (rows self) in
  up self None = self /\ up self (Some 0) = self /\
  down self None = self /\ down self (Some (pred n)) = self /\
  (let moved := down self (Some i) in
   nth_error (rows moved) i = nth_error (rows self) (S i) /\
   nth_error (rows moved) (S i) = nth_error (rows self) i /\
   (forall k, k <> i -> k <> S i ->
              nth_error (rows moved) k = nth_error (rows self) k) /\
   Permutation (rows moved) (rows self) /\
   boot_order moved = map ROW_NUM (rows moved) /\
   rows (up self (Some (S i))) = rows moved /\
   rows (up moved (Some (S i))) = rows self /\
   boot_order (up moved (Some (S i))) = map ROW_NUM (rows self)).
Proof.
  intros Hi n.
  assert (Hlast : down self (Some (pred n)) = self).
  { unfold down, n. replace (S (pred (length (rows self)))) with (length (rows self))
      by lia. rewrite Nat.ltb_irrefl. reflexivity. }
  repeat split; try reflexivity; try exact Hlast.
  all: unfold down; replace (Nat.ltb (S i) (length (rows self))) with true
         by (symmetry; apply Nat.ltb_lt; auto).
  all: unfold up, swap, boot_order;
    cbn [rows set_rows set_orders orders].
  - rewrite swap_rows_nth_all, Nat.eqb_refl by lia. reflexivity.
  - rewrite swap_rows_nth_all, Nat.eqb_refl by lia.
    replace (Nat.eqb (S i) i) with false
      by (symmetry; apply Nat.eqb_neq; lia). reflexivity.
  - intros k Hk1 Hk2. rewrite swap_rows_nth_all by lia.
    replace (Nat.eqb k i) with false by (symmetry; apply Nat.eqb_neq; lia).
    replace (Nat.eqb k (S i)) with false by (symmetry; apply Nat.eqb_neq; lia).
    reflexivity.
  - apply swap_rows_perm.
  - reflexivity.
  - apply swap_rows_comm; lia.
  - rewrite (swap_rows_comm (S i) i) by (rewrite swap_rows_length; lia).
    apply swap_rows_involutive; lia.
  - rewrite (swap_rows_comm (S i) i) by (rewrite swap_rows_length; lia).
    rewrite swap_rows_involutive by lia. reflexivity.
Qed.

Lemma move_selected_row_witness :
  let loaded :=
    after (refresh (__init__ sda1)
             (Lines [lit "Timeout: 5 seconds"; lit "BootOrder: 0001,0002,0003";
                     entry_line "0001" "A"; entry_line "0002" "B";
                     entry_line "0003" "C"])) in
  let moved := down loaded (Some 1) in
  boot_order moved = map ROW_NUM (rows moved) /\
  map ROW_NUM (rows moved) = [lit "0001"; lit "0003"; lit "0002"] /\
  rows (up moved (Some 2)) = rows loaded.
Proof.
  intros loaded moved.
  destruct (move_selected_row loaded 1)
    as (_ & _ & _ & _ & _ & _ & _ & _ & H5 & _ & H7 & _).
  - vm_compute. lia.
  - fold moved in H5, H7.
    split; [exact H5|]. split; [vm_compute; reflexivity | exact H7].
Defined.

(** ** When the reconciliation passes its check *)

Lemma known_indices_NoDup_of_order (rs : list Row) (order : list str) :
  NoDup order -> NoDup (known_indices rs order).
Proof.
  unfold known_indices. induction 1 as [|b order Hb _ IH]; simpl.
  - constructor.
  - destruct (index_num rs b) as [i|] eqn:E; simpl; [|exact IH].
    constructor; [|exact IH].
    intros Hin. apply in_flat_map in Hin as (b' & Hb' & Hi).
    destruct (index_num rs b') as [j|] eqn:E'; [|destruct Hi].
    destruct Hi as [<- | []].
    apply index_num_Some in E as (r & Hr & <-).
    apply index_num_Some in E' as (r' & Hr' & <-).
    rewrite Hr in Hr'. injection Hr' as <-. auto.
Qed.

Lemma reconciled_length_NoDup (rs : list Row) (order : list str) :
  length (reconciled rs order) = length rs <->
  NoDup (known_indices rs order).
Proof.
  split.
  - intros H. apply reconciled_NoDup in H.
    apply NoDup_app_remove_r in H. exact H.
  - intros H. unfold reconciled. rewrite length_app.
    set (known := known_indices rs order) in *.
    set (inK := fun i => existsb (Nat.eqb i) known).
    assert (HP : Permutation (filter inK (seq 0 (length rs))) known).
    { apply NoDup_Permutation; [apply NoDup_filter, seq_NoDup | exact H |].
      intros x. rewrite filter_In, in_seq. unfold inK.
      rewrite existsb_exists. split.
      - intros (_ & y & Hy & E). apply Nat.eqb_eq in E. subst. exact Hy.
      - intros Hx. split.
        + pose proof (known_indices_lt rs order) as Hlt.
          rewrite Forall_forall in Hlt. specialize (Hlt x Hx). lia.
        + exists x. split; [exact Hx | apply Nat.eqb_refl]. }
    apply Permutation_length in HP.
    pose proof (filter_length inK (seq 0 (length rs))) as HL.
    rewrite length_seq in HL. unfold missing_indices. fold known.
    change (fun i => negb (existsb (Nat.eqb i) known))
      with (fun i => negb (inK i)).
    lia.
Qed.

(** X8: [reorder] passes its assertion exactly when the boot order names
    no row twice, in particular whenever no id is repeated in it. The
    rows are then the rows the boot order names, in boot order, followed
    by the others in listing order, none lost; the ids of the first
    group are the boot order without the ids that have no row. *)
Theorem reorder_succeeds_iff (self : EFIStore) :
  (raised (reorder self) = None <->
   NoDup (known_indices (rows self) (boot_order self))) /\
  (NoDup (boot_order self) -> raised (reorder self) = None) /\
  (raised (reorder self) = None ->
   rows (after (reorder self)) =
     permute (rows self) (known_indices (rows self) (boot_order self)) ++
     permute (rows self)
       (missing_indices (length (rows self))
          (known_indices (rows self) (boot_order self))) /\
   map ROW_NUM
     (permute (rows self) (known_indices (rows self) (boot_order self))) =
     filter (fun b => is_some (index_num (rows self) b)) (boot_order self) /\
   Permutation (rows (after (reorder self))) (rows self) /\
   boot_order (after (reorder self)) = boot_order self).
Proof.
  assert (Hiff : raised (reorder self) = None <->
                 NoDup (known_indices (rows self) (boot_order self))).
  { rewrite <- reconciled_length_NoDup.
    destruct (reorder_reconciled self) as [Hok Hbad]. split.
    - intros H.
      destruct (Nat.eq_dec (length (reconciled (rows self) (boot_order self)))
                  (length (rows self))) as [E | E]; [exact E|].
      destruct (Hbad E) as [Hr _]. congruence.
    - intros E. destruct (Hok E) as [Hr _]. exact Hr. }
  split; [exact Hiff|]. split.
  - intros H. apply Hiff. apply known_indices_NoDup_of_order. exact H.
  - intros H.
    destruct (reorder_when_check_passes self H) as (H1 & H2 & _).
    split; [exact H1|]. split; [apply permute_known|]. split; [exact H2|].
    destruct (reorder_only_rows self) as [rs ->]. reflexivity.
Qed.

Lemma reorder_succeeds_iff_witness :
  let loaded :=
    load (__init__ sda1)
      {| p_entries := [{| num := lit "0001"; active := true; name := lit "A";
                          path := []; parameters := [] |};
                       {| num := lit "0002"; active := true; name := lit "B";
                          path := []; parameters := [] |};
                       {| num := lit "0003"; active := false; name := lit "C";
                          path := []; parameters := [] |}];
         p_boot_order := [lit "0003"; lit "0007"; lit "0001"];
         p_boot_next := None; p_boot_current := None; p_timeout := Some 5%Z |} in
  raised (reorder loaded) = None /\
  map ROW_NUM (rows (after (reorder loaded))) =
    [lit "0003"; lit "0001"; lit "0002"].
Proof.
  intros loaded.
  destruct (reorder_succeeds_iff loaded) as (_ & Hnd & Hrows).
  assert (Hok : raised (reorder loaded) = None).
  { apply Hnd. repeat constructor; simpl; intuition discriminate. }
  split; [exact Hok|].
  destruct (Hrows Hok) as (-> & _). vm_compute. reflexivity.
Defined.

(** ** More on the decoder *)





Lemma count_app (c : char) (a b : str) :
  count c (a ++ b) = count c a + count c b.
Proof. induction a as [|x a IH]; simpl; [|rewrite IH]; lia. Qed.

Lemma contains_app (c : char) (a b : str) :
  contains c (a ++ b) = contains c a || contains c b.
Proof. apply existsb_app. Qed.

Lemma startswith_app (p s : str) : startswith (p ++ s) p = true.
Proof.
  induction p as [|y p IH]; simpl.
  - destruct s; reflexivity.
  - rewrite N.eqb_refl. exact IH.
Qed.

(** X10: the load options of a Windows entry, the literal WINDOWS
    followed by UTF-16 text shown with dots, decode to WINDOWS followed
    by the text, for ASCII text of two characters or more. *)
Theorem decode_windows_prefix (x : str) :
  ascii_only x = true -> 2 <= length x ->
  try_decode_efibootmgr (WINDOWS ++ spec_encode x) = ret (WINDOWS ++ x).
Proof.
  intros Ha Hlen. rewrite spec_encode_ascii by auto.
  rewrite try_decode_efibootmgr_eq.
  set (e := flat_map (fun c => [c; DOT]) x).
  assert (He : try_decode_efibootmgr e = ret x)
    by (apply decode_dotted; auto; lia).
  assert (Hc : contains DOT (WINDOWS ++ e) = true).
  { rewrite contains_app. apply orb_true_iff. right. unfold e.
    destruct x as [|c x]; [simpl in Hlen; lia|].
    cbn -[N.eqb]. rewrite N.eqb_refl, orb_true_r. reflexivity. }
  rewrite Hc. cbn [negb].
  replace (Nat.eqb (count DOT (WINDOWS ++ e)) 1) with false.
  - rewrite andb_false_r, startswith_app.
    rewrite skipn_app, skipn_all, Nat.sub_diag. simpl skipn.
    cbn [app]. rewrite He, bind_ret_l. reflexivity.
  - symmetry. apply Nat.eqb_neq. rewrite count_app. unfold e.
    rewrite count_dotted. change (count DOT WINDOWS) with 0. lia.
Qed.

Lemma decode_windows_prefix_witness :
  try_decode_efibootmgr (lit "WINDOWS" ++ lit "B.C.D.") = ret (lit "WINDOWSBCD").
Proof.
  apply (decode_windows_prefix (lit "BCD")); [reflexivity | simpl; lia].
Defined.

Lemma pair_induction {A} (P : list A -> Prop) :
  P [] -> (forall x, P [x]) -> (forall x y l, P l -> P (x :: y :: l)) ->
  forall l, P l.
Proof.
  intros H0 H1 H2 l.
  assert (H : P l /\ forall x, P (x :: l)).
  { induction l as [|y l [IH1 IH2]]; split; auto. }
  apply H.
Qed.

Lemma zero_odd_dots_length (bs : list N) :
  forall i, length (zero_odd_dots i bs) = length bs.
Proof. induction bs as [|b bs IH]; intros i; simpl; auto. Qed.

Lemma zero_odd_dots_ascii (bs : list N) :
  forall i, ascii_only bs = true -> ascii_only (zero_odd_dots i bs) = true.
Proof.
  induction bs as [|b bs IH]; intros i H; simpl in *; auto.
  apply andb_true_iff in H as [Hb Hbs]. rewrite (IH _ Hbs), andb_true_r.
  destruct (Nat.odd i && N.eqb b DOT); auto.
Qed.

Lemma utf16_decode_ascii (bs : list N) :
  ascii_only bs = true ->
  Codec.utf16_decode bs = Codec.bind_opt (Codec.units_le bs) Codec.scalars.
Proof.
  intros H. unfold Codec.utf16_decode.
  destruct bs as [|b0 [|b1 r]]; auto.
  simpl in H. apply andb_true_iff in H as [H0 _]. apply N.ltb_lt in H0.
  replace (N.eqb b0 255) with false by (symmetry; apply N.eqb_neq; lia).
  replace (N.eqb b0 254) with false by (symmetry; apply N.eqb_neq; lia).
  reflexivity.
Qed.

(** Bytes below 128 in even number make code units below the
    surrogates; in odd number they are truncated data. *)
Lemma units_le_ascii (bs : list N) :
  ascii_only bs = true ->
  if Nat.even (length bs)
  then exists us, Codec.units_le bs = Some us /\
                  2 * length us = length bs /\ Codec.scalars us = Some us
  else Codec.units_le bs = None.
Proof.
  induction bs as [| x | lo hi l IH] using pair_induction; intros H.
  - exists []. auto.
  - reflexivity.
  - simpl in H. apply andb_true_iff in H as [Hlo H].
    apply andb_true_iff in H as [Hhi H].
    specialize (IH H). cbn [length Nat.even]. cbn [Codec.units_le].
    destruct (Nat.even (length l)).
    + destruct IH as (us & -> & Hlen & Hs).
      exists ((lo + 256 * hi)%N :: us). split; [reflexivity|].
      split; [simpl; lia|].
      apply N.ltb_lt in Hlo, Hhi. cbn [Codec.scalars].
      unfold Codec.is_high, Codec.is_low.
      replace (55296 <=? lo + 256 * hi)%N with false
        by (symmetry; apply N.leb_gt; lia).
      replace (56320 <=? lo + 256 * hi)%N with false
        by (symmetry; apply N.leb_gt; lia).
      simpl. rewrite Hs. reflexivity.
    + rewrite IH. reflexivity.
Qed.

(** X11: plain ASCII parameters that contain a dot are not left alone.
    Unless the only dot is the last character or the text begins with
    WINDOWS, text of even length is read as UTF-16, two characters
    becoming one, without any warning; text of odd length is kept, with
    a warning. *)
Theorem decode_ascii_with_dot (code : str) :
  ascii_only code = true -> contains DOT code = true ->
  endswith code [DOT] && Nat.eqb (count DOT code) 1 = false ->
  startswith code WINDOWS = false ->
  if Nat.even (length code)
  then exists us : str,
         Codec.units_le (zero_odd_dots 0 code) = Some us /\
         try_decode_efibootmgr code = ret us /\
         2 * length us = length code
  else try_decode_efibootmgr code =
       (Ok code, [Warning "root" "Could not decode '%s': %s"
                    [AStr code; ADecodeError]]).
Proof.
  intros Ha Hc He Hw.
  rewrite try_decode_efibootmgr_eq, Hc, He, Hw. cbn [negb].
  unfold decode_utf16_block. rewrite utf8_encode_ascii by auto.
  pose proof (zero_odd_dots_ascii code 0 Ha) as Hz.
  rewrite utf16_decode_ascii by auto.
  pose proof (units_le_ascii _ Hz) as Hu.
  rewrite zero_odd_dots_length in Hu. unfold char in *. revert Hu.
  destruct (Nat.even (@length N code)); intros Hu.
  - destruct Hu as (us & Hus & Hlen & Hs).
    exists us. rewrite Hus. simpl. rewrite Hs. auto.
  - rewrite Hu. reflexivity.
Qed.

Lemma decode_ascii_with_dot_witness :
  (exists us : str,
      Codec.units_le (zero_odd_dots 0 (lit "initrd=a.img")) = Some us /\
      try_decode_efibootmgr (lit "initrd=a.img") = ret us /\
      2 * length us = 12) /\
  try_decode_efibootmgr (lit "initrd=ab.img") =
  (Ok (lit "initrd=ab.img"),
   [Warning "root" "Could not decode '%s': %s"
      [AStr (lit "initrd=ab.img"); ADecodeError]]).
Proof.
  split.
  - apply (decode_ascii_with_dot (lit "initrd=a.img")); reflexivity.
  - apply (decode_ascii_with_dot (lit "initrd=ab.img")); reflexivity.
Defined.

(** ** What the parse can raise *)








(** ** The keyword lines *)

Lemma split_no_sep (sep : char) (s : str) :
  contains sep s = false -> split sep s = [s].
Proof.
  induction s as [|c s IH]; [reflexivity|]. simpl. intros H.
  apply orb_false_iff in H as [Hc Hs]. rewrite N.eqb_sym, Hc, (IH Hs).
  reflexivity.
Qed.

Lemma split_app_sep (sep : char) (a b : str) :
  contains sep a = false -> split sep (a ++ sep :: b) = a :: split sep b.
Proof.
  induction a as [|c a IH]; simpl; intros H.
  - rewrite N.eqb_refl. reflexivity.
  - apply orb_false_iff in H as [Hc Ha]. rewrite N.eqb_sym, Hc, (IH Ha).
    reflexivity.
Qed.

Lemma split_join (sep : char) (l : list str) :
  l <> [] -> Forall (fun x => contains sep x = false) l ->
  split sep (join [sep] l) = l.
Proof.
  induction l as [|x l IH]; [congruence|]. intros _ H.
  inversion H as [|x' l' Hx Hl]; subst.
  destruct l as [|y l]; [apply split_no_sep; exact Hx|].
  change (join [sep] (x :: y :: l)) with (x ++ sep :: join [sep] (y :: l)).
  rewrite split_app_sep by exact Hx. rewrite IH; [reflexivity|congruence|auto].
Qed.

Lemma lstrip_id (s : str) :
  forallb (fun c => negb (isspace c)) s = true -> lstrip s = s.
Proof.
  destruct s as [|c s]; [reflexivity|]. simpl. intros H.
  apply andb_true_iff in H as [Hc _]. apply negb_true_iff in Hc.
  rewrite Hc. reflexivity.
Qed.

Lemma forallb_rev {A} (p : A -> bool) (l : list A) :
  forallb p (rev l) = forallb p l.
Proof.
  induction l as [|x l IH]; [reflexivity|]. simpl.
  rewrite forallb_app, IH. simpl. rewrite andb_true_r. apply andb_comm.
Qed.

Lemma strip_id (s : str) :
  forallb (fun c => negb (isspace c)) s = true -> strip s = s.
Proof.
  intros H. unfold strip, rstrip. rewrite (lstrip_id s H).
  rewrite lstrip_id by (rewrite forallb_rev; exact H). apply rev_involutive.
Qed.

Ltac decide_atoms :=
  repeat match goal with
         | |- context [(?a <=? ?b)%N] =>
             first [ replace (a <=? b)%N with false
                       by (symmetry; apply N.leb_gt; lia)
                   | replace (a <=? b)%N with true
                       by (symmetry; apply N.leb_le; lia) ]
         | |- context [(?a =? ?b)%N] =>
             first [ replace (a =? b)%N with false
                       by (symmetry; apply N.eqb_neq; lia)
                   | replace (a =? b)%N with true
                       by (symmetry; apply N.eqb_eq; lia) ]
         end.

Lemma isdigit_range (c : char) : isdigit c = true <-> (48 <= c <= 57)%N.
Proof.
  unfold isdigit. rewrite andb_true_iff, !N.leb_le. reflexivity.
Qed.

Lemma hex_range (c : char) :
  hex c = true -> (48 <= c <= 57)%N \/ (65 <= c <= 70)%N.
Proof.
  unfold hex. rewrite orb_true_iff, !andb_true_iff, !N.leb_le. tauto.
Qed.

(** A character from 0 to 9 or from A to F is no blank, no comma and no
    colon. *)
Lemma hex_plain (c : char) :
  hex c = true ->
  isspace c = false /\ (44 =? c)%N = false /\ (58 =? c)%N = false.
Proof.
  intros H. apply hex_range in H. unfold isspace.
  destruct H as [H | H]; decide_atoms; auto.
Qed.

Lemma hex_word (w : str) :
  forallb hex w = true ->
  forallb (fun c => negb (isspace c)) w = true /\
  contains 44%N w = false /\ contains 58%N w = false.
Proof.
  unfold contains.
  induction w as [|c w IH]; [auto|]. cbn [forallb existsb]. intros H.
  apply andb_true_iff in H as [Hc Hw].
  destruct (hex_plain c Hc) as (-> & -> & ->).
  destruct (IH Hw) as (-> & -> & ->). auto.
Qed.

Lemma hex_join (ids : list str) :
  Forall (fun id => forallb hex id = true) ids ->
  forallb (fun c => negb (isspace c)) (join [44%N] ids) = true /\
  contains 58%N (join [44%N] ids) = false.
Proof.
  induction ids as [|x ids IH]; [auto|]. intros H.
  inversion H as [|x' l' Hx Hl]; subst.
  destruct (hex_word x Hx) as (Hs & _ & Hc).
  destruct ids as [|y ids]; [auto|].
  change (join [44%N] (x :: y :: ids))
    with (x ++ 44%N :: join [44%N] (y :: ids)).
  destruct (IH Hl) as [IHs IHc]. split.
  - rewrite forallb_app, Hs. simpl. exact IHs.
  - rewrite contains_app, Hc. exact IHc.
Qed.

(** X13: a BootOrder line that lists hexadecimal ids separated by commas
    parses to the list of those ids, in the order of the line. *)
Theorem boot_order_line_roundtrip (ids : list str) :
  ids <> [] -> Forall (fun id => forallb hex id = true) ids ->
  parse_efibootmgr_line (lit "BootOrder: " ++ join [44%N] ids)
  = ret (BootOrder ids).
Proof.
  intros Hne Hids. destruct (hex_join ids Hids) as [Hs Hc].
  unfold parse_efibootmgr_line.
  replace (re_match efibootmgr_regex (lit "BootOrder: " ++ join [44%N] ids))
    with (@None groups)
    by (unfold re_match, efibootmgr_regex; cbn;
        destruct (_ =? _)%nat; reflexivity).
  unfold parse_keyed_line.
  change (startswith (lit "BootOrder: " ++ join [44%N] ids) (lit "BootOrder"))
    with true. cbv iota.
  unfold after_colon.
  change (lit "BootOrder: " ++ join [44%N] ids)
    with (lit "BootOrder" ++ 58%N :: 32%N :: join [44%N] ids).
  rewrite split_app_sep by reflexivity.
  rewrite split_no_sep by exact Hc.
  cbn [nth_error]. rewrite bind_ret_l.
  change (strip (32%N :: join [44%N] ids)) with (strip (join [44%N] ids)).
  rewrite strip_id by exact Hs.
  rewrite split_join; auto.
  eapply Forall_impl; [|exact Hids]. intros id H. apply hex_word, H.
Qed.

Lemma boot_order_line_roundtrip_witness :
  parse_efibootmgr_line (lit "BootOrder: 0001,001A,0000")
  = ret (BootOrder [lit "0001"; lit "001A"; lit "0000"]).
Proof.
  apply (boot_order_line_roundtrip [lit "0001"; lit "001A"; lit "0000"]).
  - discriminate.
  - repeat constructor.
Defined.

(** X14: a BootNext or BootCurrent line with a hexadecimal id parses to
    that id. *)
Theorem boot_next_current_line_roundtrip (id : str) :
  forallb hex id = true ->
  parse_efibootmgr_line (lit "BootNext: " ++ id) = ret (BootNext id) /\
  parse_efibootmgr_line (lit "BootCurrent: " ++ id) = ret (BootCurrent id).
Proof.
  intros Hid. destruct (hex_word id Hid) as (Hs & _ & Hc).
  unfold parse_efibootmgr_line. split.
  - replace (re_match efibootmgr_regex (lit "BootNext: " ++ id))
      with (@None groups)
      by (unfold re_match, efibootmgr_regex; cbn;
          destruct (_ =? _)%nat; reflexivity).
    unfold parse_keyed_line.
    change (startswith (lit "BootNext: " ++ id) (lit "BootOrder")) with false.
    change (startswith (lit "BootNext: " ++ id) (lit "BootNext")) with true.
    cbv iota. unfold after_colon.
    change (lit "BootNext: " ++ id) with (lit "BootNext" ++ 58%N :: 32%N :: id).
    rewrite split_app_sep by reflexivity.
    rewrite split_no_sep by exact Hc.
    cbn [nth_error]. rewrite bind_ret_l.
    change (strip (32%N :: id)) with (strip id).
    rewrite strip_id by exact Hs. reflexivity.
  - replace (re_match efibootmgr_regex (lit "BootCurrent: " ++ id))
      with (@None groups)
      by (unfold re_match, efibootmgr_regex; cbn;
          destruct (_ =? _)%nat; reflexivity).
    unfold parse_keyed_line.
    change (startswith (lit "BootCurrent: " ++ id) (lit "BootOrder"))
      with false.
    change (startswith (lit "BootCurrent: " ++ id) (lit "BootNext"))
      with false.
    change (startswith (lit "BootCurrent: " ++ id) (lit "BootCurrent"))
      with true.
    cbv iota. unfold after_colon.
    change (lit "BootCurrent: " ++ id)
      with (lit "BootCurrent" ++ 58%N :: 32%N :: id).
    rewrite split_app_sep by reflexivity.
    rewrite split_no_sep by exact Hc.
    cbn [nth_error]. rewrite bind_ret_l.
    change (strip (32%N :: id)) with (strip id).
    rewrite strip_id by exact Hs. reflexivity.
Qed.

Lemma boot_next_current_line_roundtrip_witness :
  parse_efibootmgr_line (lit "BootNext: 001A") = ret (BootNext (lit "001A")) /\
  parse_efibootmgr_line (lit "BootCurrent: 001A")
  = ret (BootCurrent (lit "001A")).
Proof. apply (boot_next_current_line_roundtrip (lit "001A")). reflexivity. Defined.

(** ** The Timeout line *)

Lemma split_ws_word (w : str) :
  forallb (fun c => negb (isspace c)) w = true ->
  forall acc s : str, split_ws acc (w ++ s) = split_ws (rev w ++ acc) s.
Proof.
  induction w as [|c w IH]; intros H acc s; [reflexivity|].
  cbn [forallb] in H. apply andb_true_iff in H as [Hc Hw].
  apply negb_true_iff in Hc. cbn [app split_ws]. rewrite Hc, (IH Hw).
  cbn [rev]. rewrite <- app_assoc. reflexivity.
Qed.

(** The first token of [split()] is the word before the first blank. *)
Lemma split_ws_first (w rest : str) :
  w <> [] -> forallb (fun c => negb (isspace c)) w = true ->
  exists toks, split_ws [] (w ++ 32%N :: rest) = w :: toks.
Proof.
  intros Hne Hw. rewrite (split_ws_word w Hw), app_nil_r.
  cbn [split_ws]. change (isspace 32%N) with true. cbv iota.
  destruct (rev w) as [|c l] eqn:E.
  - apply (f_equal (@rev char)) in E. rewrite rev_involutive in E.
    contradiction.
  - rewrite <- E, rev_involutive. eauto.
Qed.

Lemma isdigit_plain (c : char) :
  isdigit c = true ->
  isspace c = false /\ (58 =? c)%N = false /\
  (c = 48 \/ c = 49 \/ c = 50 \/ c = 51 \/ c = 52 \/ c = 53 \/ c = 54 \/
   c = 55 \/ c = 56 \/ c = 57)%N.
Proof.
  intros H. apply isdigit_range in H. unfold isspace.
  decide_atoms. repeat split; auto. lia.
Qed.

Lemma isdigit_word (w : str) :
  forallb isdigit w = true ->
  forallb (fun c => negb (isspace c)) w = true /\ contains 58%N w = false.
Proof.
  unfold contains.
  induction w as [|c w IH]; [auto|]. cbn [forallb existsb]. intros H.
  apply andb_true_iff in H as [Hc Hw].
  destruct (isdigit_plain c Hc) as (-> & -> & _).
  destruct (IH Hw) as (-> & ->). auto.
Qed.

(** [int()] on a run of digits is what [digits] reads. *)
Lemma int_digits (w : str) :
  forallb isdigit w = true -> int w = digits 0 false w.
Proof.
  intros H. unfold int. rewrite strip_id by apply isdigit_word, H.
  destruct w as [|c w]; [reflexivity|].
  cbn [forallb] in H. apply andb_true_iff in H as [Hc _].
  apply isdigit_plain in Hc as (_ & _ & Hc).
  repeat (destruct Hc as [-> | Hc]; [reflexivity|]). subst c. reflexivity.
Qed.

Lemma lit_String (c : ascii) (s : string) :
  lit (String c s) = N_of_ascii c :: lit s.
Proof. reflexivity. Qed.

Lemma uint_isdigit (d : Decimal.uint) :
  forallb isdigit (lit (NilEmpty.string_of_uint d)) = true.
Proof.
  induction d; cbn [NilEmpty.string_of_uint]; [reflexivity|..];
    rewrite lit_String; cbn [forallb]; rewrite IHd; reflexivity.
Qed.

(** [digits] reads a decimal numeral as [Pos.of_uint_acc] does. *)
Lemma digits_uint_acc (d : Decimal.uint) :
  forall acc : positive,
    digits (Z.pos acc) true (lit (NilEmpty.string_of_uint d))
    = Some (Z.pos (Pos.of_uint_acc d acc)).
Proof.
  induction d; intros acc; cbn [NilEmpty.string_of_uint Pos.of_uint_acc];
    [reflexivity|..];
    rewrite lit_String; cbn [digits]; rewrite <- IHd;
    match goal with
    | |- (if isdigit ?c then _ else _) = _ =>
        change (isdigit c) with true; cbv iota
    end;
    f_equal;
    match goal with
    | |- context [Z.of_N ?x] =>
        let v := eval vm_compute in (Z.of_N x) in change (Z.of_N x) with v
    end; lia.
Qed.

Lemma digits_uint (d : Decimal.uint) :
  forall prev : bool,
    d <> Decimal.Nil \/ prev = true ->
    digits 0 prev (lit (NilEmpty.string_of_uint d))
    = Some (Z.of_N (Pos.of_uint d)).
Proof.
  induction d; intros prev Hd;
    cbn [NilEmpty.string_of_uint Pos.of_uint].
  - destruct Hd as [Hd | ->]; [congruence | reflexivity].
  - rewrite lit_String. cbn [digits].
    change (isdigit (N_of_ascii "0")) with true. cbv iota.
    apply IHd. auto.
  - rewrite lit_String. cbn [digits]. apply (digits_uint_acc d 1).
  - rewrite lit_String. cbn [digits]. apply (digits_uint_acc d 2).
  - rewrite lit_String. cbn [digits]. apply (digits_uint_acc d 3).
  - rewrite lit_String. cbn [digits]. apply (digits_uint_acc d 4).
  - rewrite lit_String. cbn [digits]. apply (digits_uint_acc d 5).
  - rewrite lit_String. cbn [digits]. apply (digits_uint_acc d 6).
  - rewrite lit_String. cbn [digits]. apply (digits_uint_acc d 7).
  - rewrite lit_String. cbn [digits]. apply (digits_uint_acc d 8).
  - rewrite lit_String. cbn [digits]. apply (digits_uint_acc d 9).
Qed.

(** [str()] of a natural number is a run of digits that [int()] reads
    back. *)
Lemma str_of_int_digits (z : Z) :
  (0 <= z)%Z ->
  str_of_int z <> [] /\ forallb isdigit (str_of_int z) = true /\
  int (str_of_int z) = Some z.
Proof.
  intros Hz. unfold str_of_int. destruct z as [|p|p]; [|clear Hz|lia].
  - split; [discriminate | split; reflexivity].
  - cbn [Z.to_int NilZero.string_of_int].
    pose proof (DecimalPos.Unsigned.to_uint_nonnil p) as Hn.
    assert (E : NilZero.string_of_uint (Pos.to_uint p)
                = NilEmpty.string_of_uint (Pos.to_uint p)).
    { unfold NilZero.string_of_uint. destruct (Pos.to_uint p); congruence. }
    rewrite E. split; [|split].
    + destruct (Pos.to_uint p); [congruence|..]; discriminate.
    + apply uint_isdigit.
    + rewrite int_digits by apply uint_isdigit.
      rewrite digits_uint by auto.
      rewrite DecimalPos.Unsigned.of_to. reflexivity.
Qed.

(** X15: a Timeout line as efibootmgr prints it, the number of seconds
    in decimal followed by the word seconds, parses to that number. *)
Theorem timeout_line_roundtrip (z : Z) :
  (0 <= z)%Z ->
  parse_efibootmgr_line (lit "Timeout: " ++ str_of_int z ++ lit " seconds")
  = ret (Timeout z).
Proof.
  intros Hz. destruct (str_of_int_digits z Hz) as (Hne & Hd & Hint).
  destruct (isdigit_word _ Hd) as [Hs Hc].
  set (ds := str_of_int z) in *.
  unfold parse_efibootmgr_line.
  replace (re_match efibootmgr_regex (lit "Timeout: " ++ ds ++ lit " seconds"))
    with (@None groups)
    by (unfold re_match, efibootmgr_regex; cbn;
        destruct (_ =? _)%nat; reflexivity).
  unfold parse_keyed_line.
  change (startswith (lit "Timeout: " ++ ds ++ lit " seconds")
            (lit "BootOrder")) with false.
  change (startswith (lit "Timeout: " ++ ds ++ lit " seconds")
            (lit "BootNext")) with false.
  change (startswith (lit "Timeout: " ++ ds ++ lit " seconds")
            (lit "BootCurrent")) with false.
  change (startswith (lit "Timeout: " ++ ds ++ lit " seconds")
            (lit "Timeout")) with true.
  cbv iota. unfold after_colon.
  change (lit "Timeout: " ++ ds ++ lit " seconds")
    with (lit "Timeout" ++ 58%N :: 32%N :: ds ++ lit " seconds").
  rewrite split_app_sep by reflexivity.
  rewrite split_no_sep
    by (change (contains 58%N (32%N :: ds ++ lit " seconds"))
          with (contains 58%N (ds ++ lit " seconds"));
        rewrite contains_app, Hc; reflexivity).
  cbn [nth_error]. rewrite bind_ret_l.
  change (split_ws [] (32%N :: ds ++ lit " seconds"))
    with (split_ws [] (ds ++ 32%N :: lit "seconds")).
  destruct (split_ws_first ds (lit "seconds") Hne Hs) as [toks ->].
  rewrite strip_id by exact Hs. rewrite Hint. reflexivity.
Qed.

Lemma timeout_line_roundtrip_witness :
  parse_efibootmgr_line (lit "Timeout: 10 seconds") = ret (Timeout 10).
Proof. apply (timeout_line_roundtrip 10). discriminate. Defined.

(** ** The parameters of an entry line *)

(** [star] is greedy: the result comes from the longest run of the class
    after which the continuation succeeds. *)
Lemma star_greedy {A} (p : char -> bool) (s : str) (k : str -> option A)
    (a : A) :
  star p s k = Some a ->
  exists w s',
    s = w ++ s' /\ forallb p w = true /\ k s' = Some a /\
    forall w2 s2 : str,
      s = w2 ++ s2 -> forallb p w2 = true -> length w < length w2 ->
      k s2 = None.
Proof.
  induction s as [|c s IH]; simpl; intros H.
  - exists [], []. repeat split; auto.
    intros w2 s2 E _ Hl. destruct w2; [simpl in Hl; lia | discriminate].
  - assert (Hnil : k (c :: s) = Some a ->
                   (forall w2 s2, c :: s = w2 ++ s2 -> forallb p w2 = true ->
                                  0 < length w2 -> k s2 = None) ->
                   exists w s',
                     c :: s = w ++ s' /\ forallb p w = true /\
                     k s' = Some a /\
                     forall w2 s2 : str,
                       c :: s = w2 ++ s2 -> forallb p w2 = true ->
                       length w < length w2 -> k s2 = None).
    { intros Hk Hmax. exists [], (c :: s). repeat split; auto. }
    destruct (p c) eqn:Hp.
    + destruct (star p s k) as [a0|] eqn:Hs.
      * injection H as <-.
        destruct (IH eq_refl) as (w & s' & -> & Hw & Hk & Hmax).
        exists (c :: w), s'. simpl. rewrite Hp, Hw. repeat split; auto.
        intros [|c2 w2] s2 E Hw2 Hl; [simpl in Hl; lia|].
        injection E as <- E. simpl in Hw2, Hl.
        apply andb_true_iff in Hw2 as [_ Hw2].
        apply (Hmax w2 s2); auto. lia.
      * apply Hnil; [exact H|].
        intros [|c2 w2] s2 E Hw2 Hl; [simpl in Hl; lia|].
        injection E as <- E. simpl in Hw2.
        apply andb_true_iff in Hw2 as [_ Hw2]. subst s.
        destruct (k s2) eqn:Hk2; [|reflexivity].
        exfalso. apply (star_complete A p w2 s2 k Hw2); congruence.
    + apply Hnil; [exact H|].
      intros [|c2 w2] s2 E Hw2 Hl; [simpl in Hl; lia|].
      injection E as <- E. simpl in Hw2. rewrite Hp in Hw2. discriminate.
Qed.

Lemma run_Seq_tail {A} (subject : str) (r1 r2 : regex) (s : str) (g : groups)
    (k : str -> groups -> option A) (a : A) :
  run subject (r1 >> r2) s g k = Some a ->
  exists w s' g', s = w ++ s' /\ run subject r2 s' g' k = Some a.
Proof.
  intros H. change (run subject r1 s g (fun s1 g1 => run subject r2 s1 g1 k)
                    = Some a) in H.
  apply run_sound in H as (w & s' & g' & E & _ & H). eauto.
Qed.

Section LastParenthesis.

Variable K : str -> groups -> option groups.

Hypothesis K_sound :
  forall (s : str) (g a : groups),
    K s g = Some a ->
    exists raw tail,
      s = raw ++ tail /\ forallb dot raw = true /\
      (tail = [] \/ tail = [NL]) /\ a = set_group 5 raw g.

Hypothesis K_complete :
  forall (raw tail : str) (g : groups),
    forallb dot raw = true -> tail = [] \/ tail = [NL] ->
    K (raw ++ tail) g <> None.

(** A greedy run of [.] before a closing parenthesis stops at the last
    one: what follows holds none. *)
Lemma last_paren (G : str -> groups) (s : str) (a : groups) :
  star dot s (fun s' => match s' with
                        | x :: s'' =>
                            if N.eqb x 41 then K s'' (G s') else None
                        | [] => None
                        end) = Some a ->
  exists w raw tail,
    s = w ++ 41%N :: raw ++ tail /\ contains 41%N raw = false /\
    (tail = [] \/ tail = [NL]) /\
    a = set_group 5 raw (G (41%N :: raw ++ tail)).
Proof.
  intros H. apply star_greedy in H as (w & s' & -> & Hw & Hk & Hmax).
  destruct s' as [|x s5]; [discriminate|].
  destruct (N.eqb x 41) eqn:Ex; [|discriminate].
  apply N.eqb_eq in Ex; subst x.
  apply K_sound in Hk as (raw & tail & -> & Hraw & Htail & Ha).
  exists w, raw, tail. repeat split; auto.
  destruct (contains 41%N raw) eqn:Hc; [exfalso|reflexivity].
  apply contains_split in Hc as (r1 & r2 & ->).
  apply forallb_app_inv in Hraw as [Hr1 Hr2].
  simpl in Hr2.
  specialize (Hmax (w ++ 41%N :: r1) (41%N :: r2 ++ tail)).
  cbv beta iota in Hmax. change (N.eqb 41 41) with true in Hmax.
  cbv iota in Hmax.
  apply (K_complete r2 tail (G (41%N :: r2 ++ tail))); auto.
  apply Hmax.
  - rewrite <- !app_assoc. reflexivity.
  - rewrite forallb_app, Hw. simpl. exact Hr1.
  - rewrite length_app. simpl. lia.
Qed.

End LastParenthesis.

(** The end of the entry pattern: group 5 and [$]. *)
Lemma group5_sound (subject s : str) (g a : groups) :
  run subject (Grp 5 (Star dot) >> Eol) s g (fun _ g' => Some g') = Some a ->
  exists raw tail,
    s = raw ++ tail /\ forallb dot raw = true /\
    (tail = [] \/ tail = [NL]) /\ a = set_group 5 raw g.
Proof.
  intros H. apply run_sound in H as (w & s' & g' & -> & HM & Hk).
  injection Hk as <-.
  apply Seq_inv in HM as (w1 & w2 & g1 & -> & H1 & H2).
  apply Eol_inv in H2 as (-> & -> & Htail).
  apply Grp_inv in H1 as (g2 & H1 & ->).
  apply Star_inv in H1 as [Hw ->].
  exists w1, s'. rewrite app_nil_r. repeat split; auto.
Qed.

Lemma group5_complete (subject raw tail : str) (g : groups) :
  forallb dot raw = true -> tail = [] \/ tail = [NL] ->
  run subject (Grp 5 (Star dot) >> Eol) (raw ++ tail) g
    (fun _ g' => Some g') <> None.
Proof.
  intros Hraw Htail.
  rewrite <- (app_nil_r raw) at 1.
  apply (run_complete subject groups (Grp 5 (Star dot) >> Eol) (raw ++ [])
           tail g (set_group 5 raw g)); [|discriminate].
  eapply M_Seq.
  - apply M_Grp. apply M_Star. exact Hraw.
  - apply M_Eol. exact Htail.
Qed.

(** Group 5 of a match of the entry pattern is the text after the last
    closing parenthesis of the line. *)
Lemma re_match_last_paren (line : str) (g : groups) :
  re_match efibootmgr_regex line = Some g ->
  exists head raw tail,
    line = head ++ 41%N :: raw ++ tail /\ contains 41%N raw = false /\
    (tail = [] \/ tail = [NL]) /\ g 5 = Some raw.
Proof.
  unfold re_match, efibootmgr_regex. intros H.
  apply run_Seq_tail in H as (w0 & s0 & g0 & -> & H).
  apply run_Seq_tail in H as (w1 & s1 & g1 & -> & H).
  apply run_Seq_tail in H as (w2 & s2 & g2 & -> & H).
  apply run_Seq_tail in H as (w3 & s3 & g3 & -> & H).
  apply run_Seq_tail in H as (w4 & s4 & g4 & -> & H).
  apply run_Seq_tail in H as (w5 & s5 & g5 & -> & H).
  apply run_Seq_tail in H as (w6 & s6 & g6 & -> & H).
  set (subject := w0 ++ w1 ++ w2 ++ w3 ++ w4 ++ w5 ++ w6 ++ s6) in *.
  pose (K := fun (s : str) (g' : groups) =>
               run subject (Grp 5 (Star dot) >> Eol) s g'
                 (fun _ g'' => Some g'')).
  assert (Ks := fun s g' a => group5_sound subject s g' a).
  assert (Kc := fun raw tail g' => group5_complete subject raw tail g').
  fold K in Ks, Kc.
  change (match run subject (Plus dot >> Lit (lit "/File(") >>
                             Grp 4 (Plus dot) >> Chr 41%N) s6 g6 K with
          | Some a => Some a
          | None => run subject (Star dot >> Chr 41%N) s6 g6 K
          end = Some g) in H.
  assert (E : exists w raw tail,
             s6 = w ++ 41%N :: raw ++ tail /\ contains 41%N raw = false /\
             (tail = [] \/ tail = [NL]) /\ g 5 = Some raw).
  { destruct (run subject (Plus dot >> Lit (lit "/File(") >>
                           Grp 4 (Plus dot) >> Chr 41%N) s6 g6 K)
      as [a|] eqn:H1.
    - injection H as ->.
      apply run_Seq_tail in H1 as (wa & sa & ga & -> & H1).
      apply run_Seq_tail in H1 as (wb & sb & gb & -> & H1).
      destruct sb as [|x sb]; [discriminate|].
      cbn [run] in H1. destruct (dot x) eqn:Hx; [|discriminate].
      apply (last_paren K Ks Kc
               (fun s'' => set_group 4
                             (firstn (length (x :: sb) - length s'') (x :: sb))
                             gb)) in H1
        as (w & raw & tail & -> & Hc & Htail & ->).
      exists (wa ++ wb ++ x :: w), raw, tail. repeat split; auto.
      rewrite <- !app_assoc. reflexivity.
    - cbn [run] in H.
      apply (last_paren K Ks Kc (fun _ => g6)) in H
        as (w & raw & tail & -> & Hc & Htail & ->).
      exists w, raw, tail. repeat split; auto. }
  destruct E as (w & raw & tail & -> & Hc & Htail & G5).
  exists (w0 ++ w1 ++ w2 ++ w3 ++ w4 ++ w5 ++ w6 ++ w), raw, tail.
  repeat split; auto. subst subject. rewrite <- !app_assoc. reflexivity.
Qed.

(** X16: the parameters of an entry are decoded from the text after the
    last closing parenthesis of its line, whatever the device path
    holds; a final newline apart, that text runs to the end of the
    line. *)
Theorem parameters_follow_last_parenthesis (line : str) (e : entry)
    (log : list event) :
  parse_efibootmgr_line line = (Ok (Entry e), log) ->
  exists head raw tail : str,
    line = head ++ 41%N :: raw ++ tail /\ contains 41%N raw = false /\
    (tail = [] \/ tail = [NL]) /\
    try_decode_efibootmgr raw = (Ok (parameters e), log).
Proof.
  intros H.
  apply parse_entry_inv in H as (g & raw & Hm & _ & _ & _ & _ & G5 & Hd).
  apply re_match_last_paren in Hm
    as (head & raw' & tail & -> & Hc & Htail & G5').
  rewrite G5 in G5'. injection G5' as <-.
  exists head, raw, tail. auto.
Qed.

Lemma parameters_follow_last_parenthesis_witness :
  exists head raw tail : str,
    lit "Boot0001* A" ++ TAB :: lit "HD(1)/File(\a.efi)x(y)quiet"
    = head ++ 41%N :: raw ++ tail /\
    contains 41%N raw = false /\ (tail = [] \/ tail = [NL]) /\
    try_decode_efibootmgr raw = (Ok (lit "quiet"), []).
Proof.
  apply (parameters_follow_last_parenthesis
           (lit "Boot0001* A" ++ TAB :: lit "HD(1)/File(\a.efi)x(y)quiet")
           {| num := lit "0001"; active := true; name := lit "A";
              path := lit "\a.efi)x(y"; parameters := lit "quiet" |} []).
  vm_compute. reflexivity.
Defined.

(** ** The device of the ESP *)

(** [lazy_star] stops at the shortest run of the class after which the
    continuation succeeds. *)
Lemma lazy_star_sound {A} (p : char -> bool) (s : str) (k : str -> option A)
    (a : A) :
  lazy_star p s k = Some a ->
  exists w s',
    s = w ++ s' /\ forallb p w = true /\ k s' = Some a /\
    forall w1 w2 : str, w = w1 ++ w2 -> w2 <> [] -> k (w2 ++ s') = None.
Proof.
  induction s as [|c s IH]; simpl; intros H.
  - destruct (k []) eqn:Hk; [|discriminate]. injection H as ->.
    exists [], []. repeat split; auto.
    intros w1 w2 E Hw2. apply eq_sym, app_eq_nil in E as [_ E]. contradiction.
  - destruct (k (c :: s)) eqn:Hk.
    + injection H as ->. exists [], (c :: s). repeat split; auto.
      intros w1 w2 E Hw2. apply eq_sym, app_eq_nil in E as [_ E].
      contradiction.
    + destruct (p c) eqn:Hp; [|discriminate].
      destruct (IH H) as (w & s' & -> & Hw & Hk' & Hmin).
      exists (c :: w), s'. simpl. rewrite Hp, Hw. repeat split; auto.
      intros [|c1 w1] w2 E Hw2.
      * simpl in E. subst w2. exact Hk.
      * injection E as _ E. apply (Hmin w1 w2); auto.
Qed.

Lemma lazy_star_first {A} (p : char -> bool) (w s' : str)
    (k : str -> option A) (a : A) :
  forallb p w = true ->
  (forall w1 w2 : str, w = w1 ++ w2 -> w2 <> [] -> k (w2 ++ s') = None) ->
  k s' = Some a -> lazy_star p (w ++ s') k = Some a.
Proof.
  induction w as [|c w IH]; intros Hw Hmin Hk.
  - destruct s'; simpl; rewrite Hk; reflexivity.
  - simpl in Hw. apply andb_true_iff in Hw as [Hc Hw]. simpl.
    assert (E0 : k (c :: w ++ s') = None)
      by (apply (Hmin [] (c :: w)); [reflexivity | discriminate]).
    rewrite E0, Hc.
    apply IH; auto. intros w1 w2 E Hw2. apply (Hmin (c :: w1) w2); auto.
    rewrite E. reflexivity.
Qed.

(** [star] takes the whole run when the continuation accepts what
    follows it. *)
Lemma star_first {A} (p : char -> bool) (w s' : str) (k : str -> option A)
    (a : A) :
  forallb p w = true -> k s' = Some a ->
  match s' with c :: _ => p c = false | [] => True end ->
  star p (w ++ s') k = Some a.
Proof.
  induction w as [|c w IH]; intros Hw Hk Hs'.
  - destruct s' as [|c s']; simpl; [exact Hk|]. rewrite Hs'. exact Hk.
  - simpl in Hw. apply andb_true_iff in Hw as [Hc Hw]. simpl.
    rewrite Hc, (IH Hw Hk Hs'). reflexivity.
Qed.

Lemma isdigit_not_p (c : char) : isdigit c = true -> N.eqb c 112 = false.
Proof. intros H. apply isdigit_range in H. apply N.eqb_neq. lia. Qed.

Lemma isdigit_not_NL (c : char) : isdigit c = true -> c <> NL.
Proof. intros H. apply isdigit_range in H. unfold NL. lia. Qed.

Lemma isdigit_not_lower_or_slash (c : char) :
  isdigit c = true -> lower_or_slash c = false.
Proof.
  intros H. apply isdigit_range in H. unfold lower_or_slash.
  decide_atoms. reflexivity.
Qed.

Lemma lower_or_slash_not_digit (c : char) :
  lower_or_slash c = true -> isdigit c = false.
Proof.
  intros H. destruct (isdigit c) eqn:E; [|reflexivity].
  apply isdigit_not_lower_or_slash in E. congruence.
Qed.

(** What the end of the pattern accepts. *)
Lemma partition_suffix_sound (device s2 disk part : str) :
  partition_suffix device s2 = Some (disk, part) ->
  exists sep tail,
    s2 = sep ++ part ++ tail /\ (sep = [] \/ sep = [112%N]) /\
    part <> [] /\ forallb isdigit part = true /\
    (tail = [] \/ tail = [NL]) /\
    disk = firstn (length device - length s2) device.
Proof.
  unfold partition_suffix. intros H.
  apply run_sound in H as (sep & s3 & g3 & -> & Hsep & H).
  apply run_sound in H as (w & tail & g4 & -> & Hw & H).
  injection H as -> <-.
  apply Seq_inv in Hw as (w1 & w2 & g1 & -> & H1 & H2).
  apply Eol_inv in H2 as (-> & _ & Htail).
  apply Plus_inv in H1 as (Hne & Hd & _).
  rewrite app_nil_r in *. rewrite firstn_consumed.
  exists sep, tail. repeat split; auto.
  apply Opt_inv in Hsep as [Hsep | [-> _]]; [|auto].
  apply Chr_inv in Hsep as [-> _]. auto.
Qed.

(** The end of the pattern accepts a run of digits, and a final
    newline. *)
Lemma partition_suffix_digits (device : str) (d : char) (ds tail : str) :
  isdigit d = true -> forallb isdigit ds = true ->
  tail = [] \/ tail = [NL] ->
  partition_suffix device (d :: ds ++ tail)
  = Some (firstn (length device - length (d :: ds ++ tail)) device, d :: ds).
Proof.
  intros Hd Hds Htail. unfold partition_suffix.
  cbn [run]. rewrite (isdigit_not_p d Hd), Hd.
  rewrite (star_first isdigit ds tail _
             (firstn (length device - length (d :: ds ++ tail)) device,
              d :: ds) Hds).
  - reflexivity.
  - change (d :: ds ++ tail) with ((d :: ds) ++ tail).
    rewrite firstn_consumed.
    destruct Htail as [-> | ->]; reflexivity.
  - destruct Htail as [-> | ->]; [exact I | reflexivity].
Qed.

Lemma partition_suffix_p_digits (device : str) (d : char) (ds tail : str) :
  isdigit d = true -> forallb isdigit ds = true ->
  tail = [] \/ tail = [NL] ->
  partition_suffix device (112%N :: d :: ds ++ tail)
  = Some (firstn (length device - length (112%N :: d :: ds ++ tail)) device,
          d :: ds).
Proof.
  intros Hd Hds Htail. unfold partition_suffix.
  cbn [run]. change (N.eqb 112 112) with true. cbv iota. rewrite Hd.
  rewrite (star_first isdigit ds tail _
             (firstn (length device - length (112%N :: d :: ds ++ tail))
                device, d :: ds) Hds).
  - reflexivity.
  - change (d :: ds ++ tail) with ((d :: ds) ++ tail).
    rewrite firstn_consumed.
    destruct Htail as [-> | ->]; reflexivity.
  - destruct Htail as [-> | ->]; [exact I | reflexivity].
Qed.

Lemma last_case {A} (l : list A) : l = [] \/ exists l' a, l = l' ++ [a].
Proof. induction l using rev_ind; eauto. Qed.

(** The shape of a device the pattern matches, and of its two groups. *)
Lemma device_regex_groups_sound (device disk part : str) :
  device_regex_groups device = Some (disk, part) ->
  exists a b sep tail,
    device = disk ++ sep ++ part ++ tail /\ disk = a ++ b /\
    a <> [] /\ forallb lower_or_slash a = true /\
    forallb digit_or_lower b = true /\
    (sep = [] \/ sep = [112%N]) /\
    part <> [] /\ forallb isdigit part = true /\
    (tail = [] \/ tail = [NL]) /\
    (forall x c, disk ++ sep = x ++ [c] -> isdigit c = false).
Proof.
  unfold device_regex_groups. intros H.
  apply run_sound in H as (a & s1 & g1 & -> & Ha & H).
  apply Seq_inv in Ha as (w1 & w2 & g2 & -> & Hb & Ha).
  apply Bol_inv in Hb as [-> _]. apply Plus_inv in Ha as (Hane & Ha & _).
  cbn [app] in *.
  apply lazy_star_sound in H as (b & s2 & -> & Hb & H & Hmin).
  pose proof H as Hs.
  apply partition_suffix_sound in Hs
    as (sep & tail & -> & Hsep & Hpne & Hp & Htail & ->).
  rewrite app_assoc, firstn_consumed.
  exists w2, b, sep, tail. rewrite <- app_assoc. repeat split; auto.
  intros x c E. destruct Hsep as [-> | ->].
  - rewrite app_nil_r in E.
    destruct (last_case b) as [-> | (b' & c' & ->)].
    + rewrite app_nil_r in E. subst w2.
      apply forallb_app_inv in Ha as [_ Hc]. simpl in Hc.
      apply andb_true_iff in Hc as [Hc _].
      apply lower_or_slash_not_digit, Hc.
    + rewrite app_assoc in E. apply app_inj_tail in E as [_ <-].
      destruct (isdigit c') eqn:Hc; [exfalso|reflexivity].
      destruct part as [|d ds]; [congruence|].
      simpl in Hp. apply andb_true_iff in Hp as [Hd Hds].
      specialize (Hmin b' [c'] eq_refl). cbn [app] in Hmin.
      rewrite (partition_suffix_digits _ c' (d :: ds) tail Hc) in Hmin.
      * discriminate Hmin. discriminate.
      * simpl. rewrite Hd, Hds. reflexivity.
      * exact Htail.
  - apply app_inj_tail in E as [_ <-]. reflexivity.
Qed.

(** X17: when [device_to_disk_part] returns, the device is the disk, an
    optional p, the partition and possibly a final newline; the partition
    is the whole run of digits the device ends with, and the disk begins
    with a lower-case letter or a slash. No warning is logged. *)
Theorem device_to_disk_part_shape (device disk part : str)
    (log : list event) :
  device_to_disk_part device = (Ok (disk, part), log) ->
  log = [] /\
  exists sep tail : str,
    device = disk ++ sep ++ part ++ tail /\
    (sep = [] \/ sep = [112%N]) /\ (tail = [] \/ tail = [NL]) /\
    part <> [] /\ forallb isdigit part = true /\
    (forall x c, disk ++ sep = x ++ [c] -> isdigit c = false) /\
    exists c r, disk = c :: r /\ lower_or_slash c = true.
Proof.
  unfold device_to_disk_part. intros H.
  destruct (device_regex_groups device) as [[d p]|] eqn:E; [|discriminate].
  injection H as -> -> <-. split; [reflexivity|].
  apply device_regex_groups_sound in E
    as (a & b & sep & tail & -> & -> & Hane & Ha & _ & Hsep & Hpne & Hp &
        Htail & Hlast).
  exists sep, tail. repeat split; auto.
  destruct a as [|c a]; [congruence|]. simpl in Ha.
  apply andb_true_iff in Ha as [Hc _]. exists c, (a ++ b). auto.
Qed.

Lemma device_to_disk_part_shape_witness :
  @nil event = [] /\
  exists sep tail : str,
    lit "/dev/nvme0n1p2" = lit "/dev/nvme0n1" ++ sep ++ lit "2" ++ tail /\
    (sep = [] \/ sep = [112%N]) /\ (tail = [] \/ tail = [NL]) /\
    lit "2" <> [] /\ forallb isdigit (lit "2") = true /\
    (forall x c, lit "/dev/nvme0n1" ++ sep = x ++ [c] -> isdigit c = false) /\
    exists c r, lit "/dev/nvme0n1" = c :: r /\ lower_or_slash c = true.
Proof.
  apply (device_to_disk_part_shape (lit "/dev/nvme0n1p2") (lit "/dev/nvme0n1")
           (lit "2") []).
  reflexivity.
Defined.

(** X18: a name made of lower-case letters and slashes followed by
    digits, as /dev/sda1, splits into the name and the digits. *)
Theorem device_to_disk_part_letters_digits (base digits : str) :
  base <> [] -> forallb lower_or_slash base = true ->
  digits <> [] -> forallb isdigit digits = true ->
  device_to_disk_part (base ++ digits) = ret (base, digits).
Proof.
  intros Hb Hbase Hd Hdigits. unfold device_to_disk_part.
  assert (E : device_regex_groups (base ++ digits) = Some (base, digits)).
  { unfold device_regex_groups.
    destruct base as [|c base]; [congruence|].
    destruct digits as [|d ds]; [congruence|].
    simpl in Hbase, Hdigits.
    apply andb_true_iff in Hbase as [Hc Hbase].
    apply andb_true_iff in Hdigits as [Hd0 Hds].
    cbn [run app]. rewrite Nat.eqb_refl, Hc.
    apply star_first; [exact Hbase | | apply isdigit_not_lower_or_slash, Hd0].
    cbn [lazy_star].
    pose proof (partition_suffix_digits (c :: base ++ d :: ds) d ds [] Hd0
                  Hds (or_introl eq_refl)) as P.
    rewrite !app_nil_r in P. rewrite P.
    change (c :: base ++ d :: ds) with ((c :: base) ++ d :: ds).
    rewrite firstn_consumed. reflexivity. }
  rewrite E. reflexivity.
Qed.

Lemma device_to_disk_part_letters_digits_witness :
  device_to_disk_part (lit "/dev/sda" ++ lit "12")
  = ret (lit "/dev/sda", lit "12").
Proof.
  apply (device_to_disk_part_letters_digits (lit "/dev/sda") (lit "12"));
    (discriminate || reflexivity).
Defined.

(** X20: a device whose last character is neither a digit nor a newline
    is refused with a [ValueError]. *)
Theorem device_to_disk_part_needs_final_digit (x : str) (c : char) :
  isdigit c = false -> c <> NL ->
  device_to_disk_part (x ++ [c])
  = raise (ValueError [AStr (lit "Could not match device " ++ x ++ [c])]).
Proof.
  intros Hc Hnl. unfold device_to_disk_part.
  destruct (device_regex_groups (x ++ [c])) as [[disk part]|] eqn:E;
    [exfalso|reflexivity].
  apply device_regex_groups_sound in E
    as (a & b & sep & tail & E & _ & _ & _ & _ & _ & Hpne & Hp & Htail & _).
  destruct (last_case part) as [-> | (p' & d & ->)]; [congruence|].
  apply forallb_app_inv in Hp as [_ Hd]. simpl in Hd.
  apply andb_true_iff in Hd as [Hd _].
  destruct Htail as [-> | ->].
  - rewrite app_nil_r, !app_assoc in E.
    apply app_inj_tail in E as [_ ->]. congruence.
  - rewrite !app_assoc in E. apply app_inj_tail in E as [_ ->]. congruence.
Qed.

Lemma device_to_disk_part_needs_final_digit_witness :
  device_to_disk_part (lit "/dev/mapper/esp" ++ [112%N])
  = raise (ValueError
             [AStr (lit "Could not match device " ++ lit "/dev/mapper/esp" ++
                    [112%N])]).
Proof.
  apply (device_to_disk_part_needs_final_digit (lit "/dev/mapper/esp") 112%N).
  - reflexivity.
  - discriminate.
Defined.

(** After its first character, what the end of the pattern accepts holds
    digits and a final newline only. *)
Lemma partition_suffix_tl (device s2 : str) (r : str * str) :
  partition_suffix device s2 = Some r ->
  forallb (fun c => isdigit c || N.eqb c NL) (tl s2) = true.
Proof.
  destruct r as [disk part]. intros H.
  apply partition_suffix_sound in H
    as (sep & tail & -> & Hsep & Hpne & Hp & Htail & _).
  assert (Hall : forallb (fun c => isdigit c || N.eqb c NL) (part ++ tail)
                 = true).
  { rewrite forallb_app. apply andb_true_iff. split.
    - apply forallb_forall. intros c Hc.
      rewrite forallb_forall in Hp. rewrite (Hp c Hc). reflexivity.
    - destruct Htail as [-> | ->]; reflexivity. }
  destruct Hsep as [-> | ->]; [|exact Hall].
  destruct part as [|d ds]; [congruence|].
  simpl in Hall. apply andb_true_iff in Hall as [_ Hall]. exact Hall.
Qed.

Lemma isdigit_digit_or_lower (c : char) :
  isdigit c = true -> digit_or_lower c = true.
Proof. unfold digit_or_lower. intros ->. reflexivity. Qed.

(** X19: in a name whose letters are followed by a group of digits and
    letters that ends with a digit, as /dev/nvme0n1p2, the p before the
    final digits separates the disk from the partition. *)
Theorem device_to_disk_part_p_separator (a b digits : str) (d : char) :
  a <> [] -> forallb lower_or_slash a = true ->
  forallb digit_or_lower b = true -> isdigit (hd d b) = true ->
  isdigit d = true ->
  digits <> [] -> forallb isdigit digits = true ->
  device_to_disk_part (a ++ b ++ d :: 112%N :: digits)
  = ret (a ++ b ++ [d], digits).
Proof.
  intros Hane Ha Hb Hhd Hd Hne Hdigits. unfold device_to_disk_part.
  assert (E : device_regex_groups (a ++ b ++ d :: 112%N :: digits)
              = Some (a ++ b ++ [d], digits)).
  { unfold device_regex_groups.
    destruct a as [|c a]; [congruence|].
    destruct digits as [|g gs]; [congruence|].
    simpl in Ha, Hdigits.
    apply andb_true_iff in Ha as [Hc Ha].
    apply andb_true_iff in Hdigits as [Hg Hgs].
    cbn [run app]. rewrite Nat.eqb_refl, Hc.
    set (device := c :: a ++ b ++ d :: 112%N :: g :: gs).
    apply star_first; [exact Ha | |].
    - change (b ++ d :: 112%N :: g :: gs)
        with (b ++ [d] ++ 112%N :: g :: gs).
      rewrite app_assoc.
      apply lazy_star_first.
      + rewrite forallb_app, Hb. simpl.
        rewrite (isdigit_digit_or_lower d Hd). reflexivity.
      + intros w1 w2 Ew Hw2.
        destruct (partition_suffix device (w2 ++ 112%N :: g :: gs))
          as [r|] eqn:P; [exfalso|reflexivity].
        apply partition_suffix_tl in P.
        destruct w2 as [|x w2]; [congruence|]. simpl in P.
        apply forallb_app_inv in P as [_ P]. discriminate P.
      + pose proof (partition_suffix_p_digits device g gs [] Hg Hgs
                      (or_introl eq_refl)) as P.
        rewrite !app_nil_r in P. rewrite P. f_equal. f_equal.
        unfold device.
        change (c :: a ++ b ++ d :: 112%N :: g :: gs)
          with ((c :: a) ++ b ++ [d] ++ 112%N :: g :: gs).
        rewrite !app_assoc. rewrite firstn_consumed.
        rewrite <- !app_assoc. reflexivity.
    - destruct b as [|x b]; simpl in *;
        apply isdigit_not_lower_or_slash; assumption. }
  rewrite E. reflexivity.
Qed.

Lemma device_to_disk_part_p_separator_witness :
  device_to_disk_part (lit "/dev/nvme" ++ lit "0n" ++ 49%N :: 112%N :: lit "12")
  = ret (lit "/dev/nvme" ++ lit "0n" ++ [49%N], lit "12").
Proof.
  apply (device_to_disk_part_p_separator (lit "/dev/nvme") (lit "0n")
           (lit "12") 49%N); (discriminate || reflexivity).
Defined.

(** ** The findmnt method *)

Lemma rstrip_NL (w : str) (c : char) :
  isspace c = false -> rstrip (w ++ [c; NL]) = w ++ [c].
Proof.
  intros Hc. unfold rstrip. rewrite rev_app_distr. simpl. rewrite Hc.
  change (c :: rev w) with (rev [c] ++ rev w). rewrite <- rev_app_distr.
  apply rev_involutive.
Qed.

(** X21: when findmnt prints one line, a source and a file system type,
    the method answers with the disk and partition of the source if the
    type is vfat, an unusable source raising [ValueError], and with
    [None] for any other type. *)
Theorem findmnt_single_line (source fstype : str) :
  source <> [] -> forallb (fun c => negb (isspace c)) source = true ->
  fstype <> [] -> forallb (fun c => negb (isspace c)) fstype = true ->
  auto_detect_esp_with_findmnt (source ++ 32%N :: fstype ++ [NL])
  = if str_eqb fstype (lit "vfat")
    then let! r := device_to_disk_part source in ret (Some r)
    else ret None.
Proof.
  intros Hs Hsource Hf Hfstype. unfold auto_detect_esp_with_findmnt.
  assert (E : split_ws [] (strip (source ++ 32%N :: fstype ++ [NL]))
              = [source; fstype]).
  { unfold strip.
    replace (lstrip (source ++ 32%N :: fstype ++ [NL]))
      with (source ++ 32%N :: fstype ++ [NL]).
    - destruct (last_case fstype) as [-> | (f & c & ->)]; [congruence|].
      apply forallb_app_inv in Hfstype as [Hf' Hc]. simpl in Hc.
      apply andb_true_iff in Hc as [Hc _]. apply negb_true_iff in Hc.
      replace (source ++ 32%N :: (f ++ [c]) ++ [NL])
        with ((source ++ 32%N :: f) ++ [c; NL])
        by (rewrite <- !app_assoc; reflexivity).
      rewrite (rstrip_NL _ c Hc). rewrite <- app_assoc.
      rewrite (split_ws_word source Hsource), app_nil_r.
      cbn [app split_ws]. change (isspace 32%N) with true. cbv iota.
      destruct (rev source) as [|x l] eqn:Er.
      { apply (f_equal (@rev char)) in Er. rewrite rev_involutive in Er.
        contradiction. }
      rewrite <- Er, rev_involutive. f_equal.
      rewrite <- (app_nil_r (f ++ [c])) at 1.
      rewrite (split_ws_word (f ++ [c])), app_nil_r.
      + cbn [split_ws]. destruct (rev (f ++ [c])) eqn:Ef.
        * apply (f_equal (@rev char)) in Ef. rewrite rev_involutive in Ef.
          destruct f; discriminate.
        * rewrite <- Ef, rev_involutive. reflexivity.
      + rewrite forallb_app, Hf'. simpl. rewrite Hc. reflexivity.
    - destruct source as [|c source]; [congruence|]. simpl in *.
      apply andb_true_iff in Hsource as [Hc _]. apply negb_true_iff in Hc.
      rewrite Hc. reflexivity. }
  rewrite E. cbn [tl every_other combine first_vfat].
  destruct (str_eqb fstype (lit "vfat")); reflexivity.
Qed.

Lemma findmnt_single_line_witness :
  auto_detect_esp_with_findmnt (lit "/dev/sda1" ++ 32%N :: lit "vfat" ++ [NL])
  = ret (Some (lit "/dev/sda", lit "1")).
Proof.
  apply (findmnt_single_line (lit "/dev/sda1") (lit "vfat"));
    (discriminate || reflexivity).
Defined.

(** ** Placeholder ids *)

Lemma filter_all {A} (f : A -> bool) (l : list A) :
  (forall x, In x l -> f x = true) -> filter f l = l.
Proof.
  induction l as [|x l IH]; [reflexivity|]. intros H. simpl.
  rewrite (H x) by (left; reflexivity). rewrite IH; [reflexivity|].
  intros y Hy. apply H. right. exact Hy.
Qed.

(** Removing the rows that carry a placeholder id no staged addition
    has leaves the staged additions alone. *)
Lemma filter_fresh (num : str) (l : list (str * str * str * str)) :
  (forall entry, In entry l -> fst (fst (fst entry)) <> num) ->
  filter (fun entry => negb (str_eqb (fst (fst (fst entry))) num)) l = l.
Proof.
  intros H. apply filter_all. intros e He. apply negb_true_iff.
  apply str_eqb_neq. apply H, He.
Qed.

(** X22: adding an entry and removing it again leaves the store as it
    was, provided no staged addition already carries the placeholder id
    the new entry receives. *)
Theorem add_then_remove (self : EFIStore) (label path parameters : str) :
  (forall entry, In entry (boot_add self) ->
                 fst (fst (fst entry)) <> new_num (length (boot_add self))) ->
  remove (add self label path parameters) 0 = done self.
Proof.
  intros Hfresh. unfold remove, add.
  cbn [rows set_rows set_boot_add nth_error ROW_NUM boot_add].
  rewrite new_num_NEW. rewrite filter_app. cbn [filter fst].
  rewrite str_eqb_refl. cbn [negb]. rewrite app_nil_r.
  rewrite (filter_fresh _ _ Hfresh).
  destruct self. reflexivity.
Qed.

Lemma add_then_remove_witness :
  remove (add (add (__init__ sda1) (lit "a") (lit "\a.efi") [])
              (lit "b") (lit "\b.efi") []) 0
  = done (add (__init__ sda1) (lit "a") (lit "\a.efi") []).
Proof.
  apply (add_then_remove (add (__init__ sda1) (lit "a") (lit "\a.efi") [])).
  intros entry [<- | []]. discriminate.
Defined.

(** The placeholder ids of different counts differ. *)
Lemma new_num_inj (n m : nat) : new_num n = new_num m -> n = m.
Proof.
  unfold new_num. intros H. apply app_inv_head in H.
  destruct (str_of_int_digits (Z.of_nat n)) as (_ & _ & Hn); [lia|].
  destruct (str_of_int_digits (Z.of_nat m)) as (_ & _ & Hm); [lia|].
  rewrite H, Hm in Hn. injection Hn as Hn. lia.
Qed.

Lemma filter_app_fresh (num : str) (old l : list (str * str * str * str)) :
  (forall entry, In entry old -> fst (fst (fst entry)) <> num) ->
  filter (fun entry => negb (str_eqb (fst (fst (fst entry))) num)) (old ++ l)
  = old ++ filter (fun entry => negb (str_eqb (fst (fst (fst entry))) num)) l.
Proof. intros H. rewrite filter_app, (filter_fresh _ _ H). reflexivity. Qed.

Lemma str_eqb_new_num (n m : nat) :
  str_eqb (new_num n) (new_num m) = Nat.eqb n m.
Proof.
  destruct (Nat.eqb_spec n m) as [-> | Hne]; [apply str_eqb_refl|].
  apply str_eqb_neq. intros H. apply Hne, new_num_inj, H.
Qed.

(** X23: placeholder ids are reused while still in use. In a store whose
    staged additions carry none of the ids to come, after two additions,
    the removal of the first of them and a third addition, the third
    entry has the id of the second; removing the third then unstages the
    second as well, whose row stays in the list. *)
Theorem placeholder_id_reused (self : EFIStore) (a b c : str * str * str) :
  (forall entry n, In entry (boot_add self) ->
                   length (boot_add self) <= n ->
                   fst (fst (fst entry)) <> new_num n) ->
  let add' s (e : str * str * str) :=
    add s (fst (fst e)) (snd (fst e)) (snd e) in
  let s3 := add' (after (remove (add' (add' self a) b) 1)) c in
  map ROW_NUM (firstn 2 (rows s3))
  = [new_num (S (length (boot_add self)));
     new_num (S (length (boot_add self)))] /\
  boot_add (after (remove s3 0)) = boot_add self /\
  map ROW_NUM (rows (after (remove s3 0)))
  = new_num (S (length (boot_add self))) :: map ROW_NUM (rows self).
Proof.
  intros Hfresh add' s3.
  destruct a as [[la pa] qa], b as [[lb pb] qb], c as [[lc pc] qc].
  set (k := length (boot_add self)) in *.
  assert (Hk : forall entry, In entry (boot_add self) ->
                             fst (fst (fst entry)) <> new_num k)
    by (intros e He; apply Hfresh; auto).
  assert (HSk : forall entry, In entry (boot_add self) ->
                              fst (fst (fst entry)) <> new_num (S k))
    by (intros e He; apply Hfresh; auto).
  assert (E2 : after (remove (add' (add' self (la, pa, qa)) (lb, pb, qb)) 1)
               = set_boot_add (boot_add self ++ [(new_num (S k), lb, pb, qb)])
                   (set_rows ({| ROW_CURRENT := false; ROW_NUM := new_num (S k);
                                 ROW_NAME := lb; ROW_PATH := pb;
                                 ROW_PARAMETERS := qb; ROW_ACTIVE := true;
                                 ROW_NEXT := false |} :: rows self) self)).
  { unfold add', remove, add.
    cbn [rows set_rows set_boot_add nth_error ROW_NUM boot_add fst snd].
    rewrite new_num_NEW. unfold k in *.
    rewrite length_app. cbn [length]. rewrite Nat.add_1_r.
    rewrite <- app_assoc, (filter_app_fresh _ _ _ Hk).
    cbn [app filter fst]. rewrite !str_eqb_new_num, Nat.eqb_refl.
    replace (Nat.eqb (S (length (boot_add self))) (length (boot_add self)))
      with false by (symmetry; apply Nat.eqb_neq; lia).
    cbn [negb after done delete]. destruct self. reflexivity. }
  assert (E3 : s3
               = set_boot_add (boot_add self ++ [(new_num (S k), lb, pb, qb);
                                                 (new_num (S k), lc, pc, qc)])
                   (set_rows ({| ROW_CURRENT := false; ROW_NUM := new_num (S k);
                                 ROW_NAME := lc; ROW_PATH := pc;
                                 ROW_PARAMETERS := qc; ROW_ACTIVE := true;
                                 ROW_NEXT := false |} ::
                              {| ROW_CURRENT := false; ROW_NUM := new_num (S k);
                                 ROW_NAME := lb; ROW_PATH := pb;
                                 ROW_PARAMETERS := qb; ROW_ACTIVE := true;
                                 ROW_NEXT := false |} :: rows self) self)).
  { unfold s3. rewrite E2. unfold add', add.
    cbn [rows set_rows set_boot_add boot_add fst snd].
    rewrite length_app. cbn [length]. rewrite Nat.add_1_r.
    rewrite <- app_assoc. reflexivity. }
  rewrite E3. split; [reflexivity|].
  unfold remove.
  cbn [rows set_rows set_boot_add nth_error ROW_NUM boot_add].
  rewrite new_num_NEW, (filter_app_fresh _ _ _ HSk).
  cbn [filter fst]. rewrite str_eqb_refl. cbn [negb]. rewrite app_nil_r.
  split; reflexivity.
Qed.

Lemma placeholder_id_reused_witness :
  let add' s (e : str * str * str) :=
    add s (fst (fst e)) (snd (fst e)) (snd e) in
  let s3 := add' (after (remove (add' (add' (__init__ sda1)
                                         (lit "a", lit "\a.efi", []))
                                   (lit "b", lit "\b.efi", [])) 1))
              (lit "c", lit "\c.efi", []) in
  map ROW_NUM (firstn 2 (rows s3)) = [new_num 1; new_num 1] /\
  boot_add (after (remove s3 0)) = [] /\
  map ROW_NUM (rows (after (remove s3 0))) = [new_num 1].
Proof.
  apply (placeholder_id_reused (__init__ sda1) (lit "a", lit "\a.efi", [])
           (lit "b", lit "\b.efi", []) (lit "c", lit "\c.efi", [])).
  intros entry n [].
Defined.

(** ** The fields of an entry line *)

Lemma run_Seq_inv {A} (subject : str) (r1 r2 : regex) (s : str) (g : groups)
    (k : str -> groups -> option A) (a : A) :
  run subject (r1 >> r2) s g k = Some a ->
  exists w s' g',
    s = w ++ s' /\ Matches subject r1 w s' g g' /\
    run subject r2 s' g' k = Some a.
Proof.
  intros H. change (run subject r1 s g (fun s1 g1 => run subject r2 s1 g1 k)
                    = Some a) in H.
  apply run_sound in H as (w & s' & g' & E & HM & H). eauto 7.
Qed.

(** The last occurrence of a character cuts a text in one way only. *)
Lemma cut_last_unique (c : char) (a b x y : str) :
  contains c x = false -> contains c y = false ->
  a ++ c :: x = b ++ c :: y -> a = b /\ x = y.
Proof.
  intros Hx Hy E.
  apply (f_equal (@rev char)) in E. rewrite !rev_app_distr in E.
  cbn [rev] in E. rewrite <- !app_assoc in E. cbn [app] in E.
  assert (P : forall l, contains c l = false ->
                        forallb (fun ch => negb (N.eqb c ch)) (rev l) = true).
  { intros l Hl. rewrite forallb_rev. unfold contains in Hl.
    induction l as [|h l IH]; [reflexivity|]. simpl in *.
    apply orb_false_iff in Hl as [-> Hl]. simpl. auto. }
  destruct (span_unique (fun ch => negb (N.eqb c ch)) (rev x) (rev y)
              (rev a) (rev b) c c (P x Hx) (P y Hy)) as [E1 E2]; auto.
  - rewrite N.eqb_refl. reflexivity.
  - rewrite N.eqb_refl. reflexivity.
  - injection E2 as E2.
    apply (f_equal (@rev char)) in E1, E2.
    rewrite !rev_involutive in E1, E2. auto.
Qed.

(** The text between the last [/File(] and the closing parenthesis, when
    it holds no opening parenthesis, is where the lengths say. *)
Lemma File_unique (p w x pth : str) :
  length p <= length w -> contains 40%N pth = false ->
  p ++ lit "/File(" ++ pth = w ++ lit "/File(" ++ x ->
  w = p /\ x = pth.
Proof.
  intros Hlen Hp E. apply app_eq_app in E as [l [[-> E] | [-> E]]].
  - rewrite length_app in Hlen. destruct l; [|simpl in Hlen; lia].
    rewrite app_nil_r. rewrite app_nil_l in E.
    apply app_inv_head in E. auto.
  - destruct l as [|c l].
    + rewrite app_nil_r. rewrite app_nil_l in E.
      apply app_inv_head in E. auto.
    + exfalso.
      apply (f_equal (skipn 6)) in E.
      change (skipn 6 (lit "/File(" ++ pth)) with pth in E.
      change ((c :: l) ++ lit "/File(" ++ x)
        with ((c :: l) ++ lit "/File" ++ 40%N :: x) in E.
      rewrite app_assoc in E.
      rewrite skipn_app in E.
      replace (6 - length ((c :: l) ++ lit "/File")) with 0 in E
        by (rewrite length_app; change (length (lit "/File")) with 5;
            cbn [length]; lia).
      cbn [skipn] in E. subst pth.
      rewrite contains_app in Hp. apply orb_false_iff in Hp as [_ Hp].
      discriminate Hp.
Qed.

(** The entry pattern up to the tab: what it consumes and the groups it
    sets before the device path is tried. *)
Lemma entry_prefix (subject s : str) (g : groups) :
  run subject efibootmgr_regex s no_groups (fun _ g' => Some g') = Some g ->
  exists numw starw namew s6 g6,
    s = lit "Boot" ++ numw ++ starw ++ 32%N :: namew ++ TAB :: s6 /\
    numw <> [] /\ forallb hex numw = true /\
    (starw = [42%N] /\ g6 2 = Some [42%N] \/ starw = [] /\ g6 2 = None) /\
    namew <> [] /\ forallb dot namew = true /\
    g6 1 = Some numw /\ g6 3 = Some namew /\
    run subject
      (Alt (Plus dot >> Lit (lit "/File(") >> Grp 4 (Plus dot) >> Chr 41%N)
           (Star dot >> Chr 41%N) >> Grp 5 (Star dot) >> Eol)
      s6 g6 (fun _ g' => Some g') = Some g.
Proof.
  unfold efibootmgr_regex. intros H.
  apply run_Seq_inv in H as (w0 & s0 & g0 & -> & H0 & H).
  apply Bol_inv in H0 as [-> ->].
  apply run_Seq_inv in H as (w1 & s1 & g1 & -> & H1 & H).
  apply Lit_inv in H1 as [-> ->].
  apply run_Seq_inv in H as (w2 & s2 & g2 & -> & H2 & H).
  apply Grp_inv in H2 as (g2' & H2 & ->).
  apply Plus_inv in H2 as (Hn & Hh & ->).
  apply run_Seq_inv in H as (w3 & s3 & g3 & -> & H3 & H).
  apply run_Seq_inv in H as (w4 & s4 & g4 & -> & H4 & H).
  apply Chr_inv in H4 as [-> ->].
  apply run_Seq_inv in H as (w5 & s5 & g5 & -> & H5 & H).
  apply Grp_inv in H5 as (g5' & H5 & ->).
  apply Plus_inv in H5 as (Hnm & Hd & ->).
  apply run_Seq_inv in H as (w6 & s6 & g6 & -> & H6 & H).
  apply Chr_inv in H6 as [-> ->].
  exists w2, w3, w5, s6, (set_group 3 w5 g3).
  repeat split; auto.
  - apply Opt_inv in H3 as [H3 | [-> ->]].
    + apply Grp_inv in H3 as (g3' & H3 & ->).
      apply Chr_inv in H3 as [-> ->]. left. auto.
    + right. auto.
  - apply Opt_inv in H3 as [H3 | [-> ->]]; [|reflexivity].
    apply Grp_inv in H3 as (g3' & H3 & ->).
    apply Chr_inv in H3 as [-> ->]. reflexivity.
Qed.

(** After the tab: when the rest of the line is a device path that ends
    with a File node whose text holds no parenthesis, followed by
    parameters without a closing parenthesis, group 4 is that text and
    group 5 the parameters. *)
Lemma entry_rest (subject pre pth rest : str) (g6 g : groups) :
  pre <> [] -> forallb dot pre = true ->
  pth <> [] -> forallb dot pth = true ->
  contains 40%N pth = false -> contains 41%N pth = false ->
  forallb dot rest = true -> contains 41%N rest = false ->
  run subject
    (Alt (Plus dot >> Lit (lit "/File(") >> Grp 4 (Plus dot) >> Chr 41%N)
         (Star dot >> Chr 41%N) >> Grp 5 (Star dot) >> Eol)
    (pre ++ lit "/File(" ++ pth ++ 41%N :: rest) g6 (fun _ g' => Some g')
  = Some g ->
  g = set_group 5 rest (set_group 4 pth g6).
Proof.
  intros Hpre Hdpre Hpth Hdpth Hopen Hclose Hdrest Hrest H.
  pose (K := fun (s : str) (g' : groups) =>
               run subject (Grp 5 (Star dot) >> Eol) s g'
                 (fun _ g'' => Some g'')).
  assert (Ks := fun s g' a => group5_sound subject s g' a).
  assert (Kc := fun raw tail g' => group5_complete subject raw tail g').
  fold K in Ks, Kc.
  pose (RA := Lit (lit "/File(") >> Grp 4 (Plus dot) >> Chr 41%N).
  (* the File alternative succeeds from the end of [pre] *)
  assert (HRA : forall g', run subject RA (lit "/File(" ++ pth ++ 41%N :: rest)
                             g' K <> None).
  { intros g'.
    replace (lit "/File(" ++ pth ++ 41%N :: rest)
      with ((lit "/File(" ++ pth ++ [41%N]) ++ rest)
      by (rewrite <- !app_assoc; reflexivity).
    apply (run_complete subject groups RA _ rest g' (set_group 4 pth g')).
    - unfold RA. eapply M_Seq; [apply Lit_intro|].
      eapply M_Seq; [|apply M_Chr].
      apply M_Grp. apply M_Plus_nonempty; auto.
    - rewrite <- (app_nil_r rest). apply Kc; auto. }
  destruct pre as [|c0 pre']; [congruence|].
  simpl in Hdpre. apply andb_true_iff in Hdpre as [Hc0 Hdpre].
  change (match (if dot c0
                 then star dot (pre' ++ lit "/File(" ++ pth ++ 41%N :: rest)
                        (fun s'' => run subject RA s'' g6 K)
                 else None) with
          | Some a => Some a
          | None =>
              run subject (Star dot >> Chr 41%N)
                ((c0 :: pre') ++ lit "/File(" ++ pth ++ 41%N :: rest) g6 K
          end = Some g) in H.
  rewrite Hc0 in H.
  destruct (star dot (pre' ++ lit "/File(" ++ pth ++ 41%N :: rest)
              (fun s'' => run subject RA s'' g6 K)) as [a|] eqn:H1.
  2:{ exfalso. revert H1.
      apply (star_complete groups dot pre' _ _ Hdpre), HRA. }
  injection H as <-.
  apply star_greedy in H1 as (w & s' & E & Hw & Hk & Hmax).
  assert (Hlen : length pre' <= length w).
  { destruct (Nat.le_gt_cases (length pre') (length w)) as [L | L]; [exact L|].
    exfalso. apply (HRA g6). apply (Hmax pre'); auto. }
  unfold RA in Hk.
  apply run_Seq_inv in Hk as (wF & s'' & gF & -> & HF & Hk).
  apply Lit_inv in HF as [-> ->].
  destruct s'' as [|x s4]; [discriminate|].
  cbn [run] in Hk. destruct (dot x) eqn:Hx; [|discriminate].
  apply (last_paren K Ks Kc
           (fun s5 => set_group 4
                        (firstn (length (x :: s4) - length s5) (x :: s4))
                        g6)) in Hk
    as (w4 & raw & tail & -> & Hraw & Htail & ->).
  change (x :: w4 ++ 41%N :: raw ++ tail)
    with ((x :: w4) ++ 41%N :: raw ++ tail).
  rewrite firstn_consumed.
  assert (E' : (pre' ++ lit "/File(" ++ pth) ++ 41%N :: rest
               = (w ++ lit "/File(" ++ x :: w4) ++ 41%N :: raw ++ tail).
  { rewrite <- !app_assoc. exact E. }
  apply cut_last_unique in E' as [E1 E2]; auto.
  2:{ rewrite contains_app, Hraw. destruct Htail as [-> | ->]; reflexivity. }
  assert (tail = []) as ->.
  { destruct Htail as [-> | ->]; [reflexivity|]. subst rest.
    apply forallb_app_inv in Hdrest as [_ Hd]. discriminate Hd. }
  rewrite app_nil_r in E2. subst raw.
  apply File_unique in E1 as [_ ->]; auto.
Qed.

(** X24: an entry line as efibootmgr prints it parses to its fields. With
    a single tab, a device path that ends with a File node whose text
    holds no parenthesis, and parameters without a closing parenthesis,
    the entry has the number, the activity mark, the name, the text of
    the File node as path and the decoded parameters. *)
Theorem entry_line_roundtrip (hexs star nm pre pth rest : str) :
  hexs <> [] -> forallb hex hexs = true ->
  star = [] \/ star = [42%N] ->
  nm <> [] -> forallb dot nm = true -> contains TAB nm = false ->
  pre <> [] -> forallb dot pre = true -> contains TAB pre = false ->
  pth <> [] -> forallb dot pth = true -> contains TAB pth = false ->
  contains 40%N pth = false -> contains 41%N pth = false ->
  forallb dot rest = true -> contains TAB rest = false ->
  contains 41%N rest = false ->
  parse_efibootmgr_line
    (lit "Boot" ++ hexs ++ star ++ 32%N :: nm ++ TAB ::
     pre ++ lit "/File(" ++ pth ++ 41%N :: rest)
  = let! params := try_decode_efibootmgr rest in
    ret (Entry {| num := hexs; active := str_eqb star [42%N]; name := nm;
                  path := pth; parameters := params |}).
Proof.
  intros Hn Hh Hs Hnm Hd Ht Hpre Hdpre Htpre Hpth Hdpth Htpth Hopen Hclose
    Hdrest Htrest Hrest.
  set (suffix := pre ++ lit "/File(" ++ pth ++ 41%N :: rest).
  assert (Hts : contains TAB suffix = false).
  { unfold suffix. rewrite !contains_app, Htpre, Htpth. simpl.
    exact Htrest. }
  assert (Hg : exists g,
             re_match efibootmgr_regex
               (lit "Boot" ++ hexs ++ star ++ 32%N :: nm ++ TAB :: suffix)
             = Some g).
  { unfold suffix.
    replace (pre ++ lit "/File(" ++ pth ++ 41%N :: rest)
      with ((pre ++ lit "/File(" ++ pth) ++ 41%N :: rest)
      by (rewrite <- !app_assoc; reflexivity).
    apply entry_line_matches; auto.
    rewrite !forallb_app, Hdpre, Hdpth. reflexivity. }
  destruct Hg as [g Hg].
  pose proof Hg as Hrun. unfold re_match in Hrun.
  apply entry_prefix in Hrun
    as (numw & starw & namew & s6 & g6 & Hline & Hnw & Hhw & Hstar & Hnmw &
        Hdw & G1 & G3 & Hrun).
  apply app_inv_head in Hline.
  assert (E1 : numw = hexs /\ starw = star /\
               namew ++ TAB :: s6 = nm ++ TAB :: suffix).
  { destruct Hstar as [[-> _] | [-> _]], Hs as [-> | ->]; simpl in Hline.
    - destruct (span_unique hex hexs numw _ _ 32%N 42%N Hh Hhw eq_refl eq_refl
                  Hline) as [_ H]. discriminate H.
    - destruct (span_unique hex hexs numw _ _ 42%N 42%N Hh Hhw eq_refl eq_refl
                  Hline) as [-> H]. injection H as H. auto.
    - destruct (span_unique hex hexs numw _ _ 32%N 32%N Hh Hhw eq_refl eq_refl
                  Hline) as [-> H]. injection H as H. auto.
    - destruct (span_unique hex hexs numw _ _ 42%N 32%N Hh Hhw eq_refl eq_refl
                  Hline) as [_ H]. discriminate H. }
  destruct E1 as (-> & -> & E2).
  apply cut_unique in E2 as [-> ->]; auto.
  apply entry_rest in Hrun; auto. subst g.
  unfold parse_efibootmgr_line. rewrite Hg.
  cbn [set_group Nat.eqb]. rewrite G1, G3.
  destruct hexs as [|h hexs]; [congruence|].
  destruct nm as [|n nm]; [congruence|].
  destruct pth as [|p pth]; [congruence|].
  cbn [truthy andb is_some].
  destruct Hstar as [[-> ->] | [-> ->]]; reflexivity.
Qed.

Lemma entry_line_roundtrip_witness :
  parse_efibootmgr_line
    (lit "Boot" ++ lit "001A" ++ [42%N] ++ 32%N :: lit "Linux (5.x)" ++ TAB ::
     lit "HD(1,GPT,a-b,0x800,0x100000)" ++ lit "/File(" ++
     lit "\EFI\linux.efi" ++ 41%N :: lit "root=sda2")
  = ret (Entry {| num := lit "001A"; active := true; name := lit "Linux (5.x)";
                  path := lit "\EFI\linux.efi";
                  parameters := lit "root=sda2" |}).
Proof.
  apply (entry_line_roundtrip (lit "001A") [42%N] (lit "Linux (5.x)")
           (lit "HD(1,GPT,a-b,0x800,0x100000)") (lit "\EFI\linux.efi")
           (lit "root=sda2"));
    first [discriminate | reflexivity | right; reflexivity].
Defined.

(** ** Refresh and the spin button *)





(** X26: a timeout outside the range of the spin button does not survive
    a refresh unless the button already shows the nearest bound. The
    button takes the bound, and when that changes what it shows
    [change_timeout] stores the bound as the timeout, which leaves a
    change pending; the baseline keeps the timeout of the snapshot. *)
Theorem refresh_clamps_timeout (self : EFIStore) (boot : list str)
    (d : parsed_efi) (log : list event) (t : Z) :
  parse_efibootmgr boot = (Ok d, log) -> p_timeout d = Some t ->
  (t < 0 \/ 999 < t)%Z -> (Z.abs t < float_overflow)%Z ->
  let s := after (refresh self (Lines boot)) in
  timeout_initial s = Some t /\
  (timeout_spin self <> spin_clamp t ->
   timeout s = Some (spin_clamp t) /\ timeout_spin s = spin_clamp t /\
   pending_changes s = true) /\
  (timeout_spin self = spin_clamp t ->
   timeout s = Some t /\ timeout_spin s = spin_clamp t /\
   pending_changes s = false).
Proof.
  intros Hp Ht Hout Hfl s.
  assert (E : exists rs,
             s = set_rows rs (timeout_spin_set_value t (load (clear self) d))).
  { unfold s, refresh. rewrite Hp.
    change (timeout (load (clear self) d)) with (p_timeout d). rewrite Ht.
    replace (Z.leb float_overflow (Z.abs t)) with false
      by (symmetry; apply Z.leb_gt; exact Hfl).
    cbn [after]. apply reorder_only_rows. }
  destruct E as [rs E].
  assert (P : pending_changes s
              = negb (optZ_eqb (timeout s) (timeout_initial s)))
    by apply pending_changes_after_refresh.
  assert (Hne : spin_clamp t <> t) by (unfold spin_clamp; lia).
  assert (Hi : timeout_initial s = Some t).
  { rewrite E. cbn [set_rows timeout_initial].
    destruct (timeout_spin_set_value_frame t (load (clear self) d))
      as (_ & _ & _ & _ & _ & _ & _ & _ & _ & _ & ->). exact Ht. }
  split; [exact Hi|].
  rewrite P, Hi, E. cbn [set_rows timeout timeout_spin].
  unfold timeout_spin_set_value.
  change (timeout_spin (load (clear self) d)) with (timeout_spin self).
  split; intros Hs.
  - destruct (Z.eqb_spec (spin_clamp t) (timeout_spin self)) as [E' | _];
      [congruence|].
    cbn [change_timeout set_timeout set_timeout_spin timeout timeout_spin].
    repeat split.
    destruct (optZ_eqb (Some (spin_clamp t)) (Some t)) eqn:O; [|reflexivity].
    apply optZ_eqb_eq in O. congruence.
  - destruct (Z.eqb_spec (spin_clamp t) (timeout_spin self)) as [_ | E'];
      [|congruence].
    cbn [load timeout timeout_spin]. rewrite Ht, optZ_eqb_refl. auto.
Qed.

Lemma refresh_clamps_timeout_witness :
  let s := after (refresh (__init__ sda1)
                    (Lines [lit "Timeout: 2000 seconds"; lit "BootOrder: 0001";
                            entry_line "0001" "A"])) in
  timeout_initial s = Some 2000%Z /\
  (timeout_spin (__init__ sda1) <> spin_clamp 2000 ->
   timeout s = Some (spin_clamp 2000) /\ timeout_spin s = spin_clamp 2000 /\
   pending_changes s = true) /\
  (timeout_spin (__init__ sda1) = spin_clamp 2000 ->
   timeout s = Some 2000%Z /\ timeout_spin s = spin_clamp 2000 /\
   pending_changes s = false).
Proof.
  apply (refresh_clamps_timeout (__init__ sda1)
           [lit "Timeout: 2000 seconds"; lit "BootOrder: 0001";
            entry_line "0001" "A"]
           {| p_entries := [{| num := lit "0001"; active := true;
                               name := lit "A"; path := [];
                               parameters := [] |}];
              p_boot_order := [lit "0001"]; p_boot_next := None;
              p_boot_current := None; p_timeout := Some 2000%Z |} []).
  - vm_compute. reflexivity.
  - reflexivity.
  - right. lia.
  - vm_compute. reflexivity.
Defined.
